(** * ustriage.task: the Task model of the server triage script

    A shallow embedding of [src/ustriage/task.py].

    - Python [str] values are sequences of code points ([pystr]); the
      ellipsis of [truncate_string] is the single code point U+2026.
    - Python exceptions are values of [PyExn]; a computation returns
      [Ok v] or [Raise e].
    - Methods of [Task] run in the monad [M]: a state made of the
      [functools.lru_cache] caches of the decorated methods (one cache
      per method, shared by all instances, 128 entries, least recently
      used entry evicted) and of the log of the calls made to Launchpad
      and to the network by the unapproved-queue check.
    - The Launchpad objects are read-only records: the remote bug does
      not change during a run, and reading an attribute of [self.obj],
      which launchpadlib may fetch from the server on first access, is
      reading a field of the record: the log does not show these reads.
    - In [compose_pretty] the printing of the date, [strftime], is a
      parameter. [create_from_launchpadlib_object], which sets arbitrary
      attributes on the instance, is not part of the model. *)

From Stdlib Require Import List NArith ZArith String Ascii Lia Bool Eqdep_dec.
Import ListNotations.

Set Implicit Arguments.

(** ** Python strings *)

Definition pystr := list N.

Definition lit (s : string) : pystr :=
  map N_of_ascii (list_ascii_of_string s).

Definition pystr_eq_dec : forall a b : pystr, {a = b} + {a <> b} :=
  list_eq_dec N.eq_dec.

Definition str_eqb (a b : pystr) : bool :=
  if pystr_eq_dec a b then true else false.

(** [x in l] for a list of strings. *)
Definition str_in (x : pystr) (l : list pystr) : bool :=
  existsb (str_eqb x) l.

(** [len(s)] as a Python integer. *)
Definition len (s : pystr) : Z := Z.of_nat (List.length s).

(** [s[:stop]]: a negative [stop] counts from the end. *)
Definition slice_to (s : pystr) (stop : Z) : pystr :=
  if (stop <? 0)%Z then firstn (Z.to_nat (len s + stop)) s
  else firstn (Z.to_nat stop) s.

(** [s.split(sep)] for a one-character separator: empty fields are kept,
    and the result is never empty. *)
Fixpoint split_on (sep : N) (s : pystr) : list pystr :=
  match s with
  | [] => [[]]
  | c :: s' =>
      if N.eqb c sep then [] :: split_on sep s'
      else match split_on sep s' with
           | [] => [[c]]
           | tok :: toks => (c :: tok) :: toks
           end
  end.

(** [sep.join(l)] for a one-character separator. *)
Fixpoint join (sep : N) (l : list pystr) : pystr :=
  match l with
  | [] => []
  | [x] => x
  | x :: rest => x ++ sep :: join sep rest
  end.

(** [s.replace(c, '')]. *)
Definition remove_char (c : N) (s : pystr) : pystr :=
  filter (fun x => negb (N.eqb x c)) s.

(** The characters [str.split()] treats as white space. *)
Definition is_space (c : N) : bool :=
  existsb (N.eqb c)
    [9; 10; 11; 12; 13; 28; 29; 30; 31; 32; 133; 160; 5760; 8192; 8193;
     8194; 8195; 8196; 8197; 8198; 8199; 8200; 8201; 8202; 8232; 8233;
     8239; 8287; 12288]%N.

(** [s.split()]: fields separated by runs of white space, none empty. *)
Fixpoint split_ws_from (cur : pystr) (s : pystr) : list pystr :=
  match s with
  | [] => match cur with [] => [] | _ => [rev cur] end
  | c :: s' =>
      if is_space c then
        match cur with
        | [] => split_ws_from [] s'
        | _ => rev cur :: split_ws_from [] s'
        end
      else split_ws_from (c :: cur) s'
  end.

Definition split_ws (s : pystr) : list pystr := split_ws_from [] s.

Fixpoint starts_with (p s : pystr) : bool :=
  match p, s with
  | [], _ => true
  | _ :: _, [] => false
  | a :: p', b :: s' => N.eqb a b && starts_with p' s'
  end.

(** [needle in hay] for strings. *)
Fixpoint substring_in (needle hay : pystr) : bool :=
  starts_with needle hay ||
  match hay with
  | [] => false
  | _ :: hay' => substring_in needle hay'
  end.

Definition is_upper (c : N) : bool := (65 <=? c)%N && (c <=? 90)%N.
Definition is_lower (c : N) : bool := (97 <=? c)%N && (c <=? 122)%N.

(** [l[i]] and [l[-i]] with Python's [IndexError] as [None]. *)
Definition index {A} (l : list A) (i : nat) : option A := nth_error l i.

Definition index_from_end {A} (l : list A) (i : nat) : option A :=
  if (List.length l <? i)%nat then None else nth_error l (List.length l - i).

(** ** Module constants and functions *)

Definition DISTRIBUTION_RESOURCE_TYPE_LINK : pystr :=
  lit "https://api.launchpad.net/devel/#distribution".
Definition DISTRIBUTION_SOURCE_PACKAGE_RESOURCE_TYPE_LINK : pystr :=
  lit "https://api.launchpad.net/devel/#distribution_source_package".
Definition SOURCE_PACKAGE_RESOURCE_TYPE_LINK : pystr :=
  lit "https://api.launchpad.net/devel/#source_package".
Definition PROJECT_RESOURCE_TYPE_LINK : pystr :=
  lit "https://api.launchpad.net/devel/#project".

Definition ESC : N := 27%N.
Definition COLOR_CYAN : pystr := ESC :: lit "[0;36m".
Definition COLOR_GREEN : pystr := ESC :: lit "[0;32m".
Definition COLOR_YELLOW : pystr := ESC :: lit "[0;33m".
Definition COLOR_RESET : pystr := ESC :: lit "[0m".

Definition ELLIPSIS : N := 8230%N.

Definition truncate_string (text : pystr) (length : Z) : pystr :=
  let truncated := slice_to text length in
  if (len text >? length)%Z then slice_to truncated (-1) ++ [ELLIPSIS]
  else truncated.

Definition mark (text color : pystr) : pystr := color ++ text ++ COLOR_RESET.

(** ** Exceptions *)

Inductive PyExn : Type :=
| AttributeError
| IndexError
| KeyError
| StopIteration
| ValueError
| RuntimeError (msg : pystr).

Inductive Res (A : Type) : Type :=
| Ok (a : A)
| Raise (e : PyExn).

Arguments Ok {A} a.
Arguments Raise {A} e.

Definition get_item {A} (l : list A) (i : nat) : Res A :=
  match index l i with Some x => Ok x | None => Raise IndexError end.

Definition get_item_from_end {A} (l : list A) (i : nat) : Res A :=
  match index_from_end l i with Some x => Ok x | None => Raise IndexError end.

(** ** Launchpad objects, as launchpadlib presents them *)

(** An element of [bug.bug_tasks]: the code reads its [str()], which is
    its link, and its [status]. *)
Record BugTaskEntry : Type := {
  entry_link : pystr;
  entry_status : pystr
}.

Record LpBug : Type := {
  bug_tags : list pystr;
  bug_date_last_updated : Z;
  bug_tasks : list BugTaskEntry
}.

(** The bug task a [Task] wraps ([self.obj]); [lp_link] is [str(lp_task)]
    and [lp_target_resource_type_link] is [target.resource_type_link]. *)
Record LpTask : Type := {
  lp_link : pystr;
  lp_title : pystr;
  lp_status : pystr;
  lp_importance : pystr;
  lp_assignee_link : option pystr;
  lp_target_resource_type_link : pystr;
  lp_bug : LpBug
}.

(** A package upload of a queue. [copy_source_archive_probe] is what
    touching [copy_source_archive.self_link] does: [None] when the
    attribute loads, [Some e] when it raises [e]. [published_sources]
    lists the [sourceFileUrls()] of the results of
    [copy_source_archive.getPublishedSources(...)] for this upload's name
    and version. *)
Record Upload : Type := {
  upload_str : pystr;
  contains_source : bool;
  contains_copy : bool;
  source_file_urls : list pystr;
  copy_source_archive_probe : option PyExn;
  published_sources : list (list pystr);
  changes_file_url : option pystr;
  package_name : pystr;
  package_version : pystr
}.

(** The session [Task.LP]: [unapproved_uploads series name] is the result
    of [getSeries(name_or_version=series).getPackageUploads(
    pocket="Proposed", status="Unapproved", exact_match=True, name=name)]
    on the ubuntu distribution. *)
Record Launchpad : Type := {
  unapproved_uploads : pystr -> pystr -> list Upload
}.

(** The class attributes of [Task], the network and the interpreter.
    [changes_bugs_fixed url] is what opening [url] and parsing the changes
    file there gives: the exception that [urllib.request.urlopen] or
    [debian.deb822.Changes] raised (the module has [import urllib] only,
    so this is an [AttributeError] unless another module has imported
    [urllib.request]), else the [Launchpad-Bugs-Fixed] field of the file,
    [None] when the file has no such field. [unicode_upper c] is
    [str.upper()] of the character [c] outside ASCII, by the Unicode
    tables of the interpreter: one character or several (U+00DF gives
    "SS"). *)
Record Env : Type := {
  AGE : option Z;
  OLD : option Z;
  LP : option Launchpad;
  NOWORK_BUG_STATUSES : list pystr;
  OPEN_BUG_STATUSES : list pystr;
  changes_bugs_fixed : pystr -> Res (option pystr);
  unicode_upper : N -> pystr
}.

(** [c.upper()] of a one-character string: computed for ASCII, from the
    tables of the interpreter for any other character. *)
Definition upper (env : Env) (c : N) : pystr :=
  if (c <? 128)%N then [if is_lower c then (c - 32)%N else c]
  else unicode_upper env c.

(** The calls the unapproved-queue check makes to the session and to the
    network: the methods called on [Task.LP] and on the uploads, and
    [urlopen]. The attributes read through [self.obj] ([title], [status],
    [bug.tags], [bug.bug_tasks], ...), which launchpadlib may fetch on
    first access, are values of the records above and are not logged. *)
Inductive Event : Type :=
| EvDistributions (name : pystr)
| EvGetSeries (series : pystr)
| EvGetPackageUploads (series name : pystr)
| EvSourceFileUrls (upload : pystr)
| EvCopySourceArchive (upload : pystr)
| EvGetPublishedSources (upload name version : pystr)
| EvUrlopen (url : pystr).

(** ** Python dicts: insertion ordered, a key assigned again keeps its
    place and takes the new value *)

Definition pydict (V : Type) : Type := list (pystr * V).

Fixpoint dict_get {V} (k : pystr) (d : pydict V) : option V :=
  match d with
  | [] => None
  | (k', v) :: d' => if str_eqb k k' then Some v else dict_get k d'
  end.

Fixpoint dict_set {V} (k : pystr) (v : V) (d : pydict V) : pydict V :=
  match d with
  | [] => [(k, v)]
  | (k', v') :: d' =>
      if str_eqb k k' then (k', v) :: d' else (k', v') :: dict_set k v d'
  end.

Definition dict_keys {V} (d : pydict V) : list pystr := map fst d.

(** ** functools.lru_cache *)

Definition ObjId := N.

(** Most recently used entry first; [hits] and [misses] are the counters
    of [cache_info()]. *)
Record Lru (V : Type) : Type := {
  entries : list (ObjId * V);
  hits : N;
  misses : N
}.

Definition maxsize : nat := 128.

Definition lru_empty (V : Type) : Lru V :=
  {| entries := []; hits := 0; misses := 0 |}.

Fixpoint lru_find {V} (k : ObjId) (l : list (ObjId * V)) : option V :=
  match l with
  | [] => None
  | (k', v) :: l' => if N.eqb k k' then Some v else lru_find k l'
  end.

Definition lru_remove {V} (k : ObjId) (l : list (ObjId * V)) : list (ObjId * V) :=
  filter (fun kv => negb (N.eqb k (fst kv))) l.

Definition lru_hit {V} (k : ObjId) (v : V) (c : Lru V) : Lru V :=
  {| entries := (k, v) :: lru_remove k (entries c);
     hits := hits c + 1;
     misses := misses c |}.

Definition lru_miss {V} (c : Lru V) : Lru V :=
  {| entries := entries c; hits := hits c; misses := misses c + 1 |}.

Definition lru_store {V} (k : ObjId) (v : V) (c : Lru V) : Lru V :=
  match lru_find k (entries c) with
  | Some _ => c
  | None =>
      {| entries := (k, v) :: firstn (maxsize - 1) (entries c);
         hits := hits c;
         misses := misses c |}
  end.

(** The value [to_dict] returns. *)
Record TaskDict : Type := {
  d_url : pystr;
  d_shortlink : pystr;
  d_number : pystr;
  d_title : pystr;
  d_short_title : pystr;
  d_distro : option pystr;
  d_source_package : pystr;
  d_source_package_name : option pystr;
  d_series : option pystr;
  d_importance : pystr;
  d_status : pystr;
  d_tags : list pystr;
  d_assignee : option pystr;
  d_is_maintainer_subscribed : option bool;
  d_is_last_activity_by_maintainer : option bool;
  d_is_updated_recently : option bool;
  d_is_old : option bool;
  d_is_verification_needed : bool;
  d_is_verification_done : bool;
  d_sibling_task_status : pydict pystr
}.

(** The decorated methods of [Task]. *)
Inductive Cached : Type :=
| C_to_dict
| C_number
| C_tags
| C_date_last_updated
| C_importance
| C_src
| C_title
| C_assignee
| C_status
| C_short_title.

Definition Cached_eq_dec : forall a b : Cached, {a = b} + {a <> b}.
Proof. decide equality. Defined.

(** [assignee] returns [False] when the task has no assignee: [None]. *)
Definition CacheVal (c : Cached) : Type :=
  match c with
  | C_to_dict => TaskDict
  | C_number => pystr
  | C_tags => list pystr
  | C_date_last_updated => Z
  | C_importance => pystr
  | C_src => pystr
  | C_title => pystr
  | C_assignee => option pystr
  | C_status => pystr
  | C_short_title => pystr
  end.

(** ** The monad of the methods *)

Record State : Type := {
  caches : forall c : Cached, Lru (CacheVal c);
  log : list Event
}.

Definition init_state : State :=
  {| caches := fun c => lru_empty (CacheVal c); log := [] |}.

Definition M (A : Type) : Type := State -> Res A * State.

Definition ret {A} (a : A) : M A := fun s => (Ok a, s).

Definition raise {A} (e : PyExn) : M A := fun s => (Raise e, s).

Definition bind {A B} (m : M A) (f : A -> M B) : M B :=
  fun s =>
    match m s with
    | (Ok a, s') => f a s'
    | (Raise e, s') => (Raise e, s')
    end.

Notation "x <- m ;; k" := (bind m (fun x => k))
  (at level 61, m at next level, right associativity).
Notation "m ;; k" := (bind m (fun _ => k))
  (at level 61, right associativity).

Definition lift {A} (r : Res A) : M A := fun s => (r, s).

Definition emit (e : Event) : M unit :=
  fun s => (Ok tt, {| caches := caches s; log := log s ++ [e] |}).

Definition set_cache (c : Cached) (v : Lru (CacheVal c)) (s : State) : State :=
  {| caches := fun c' =>
       match Cached_eq_dec c c' with
       | left e => eq_rect c (fun x => Lru (CacheVal x)) v c' e
       | right _ => caches s c'
       end;
     log := log s |}.

(** [@lru_cache] on a method: the key is the instance. The miss is
    counted before the body runs, and a body that raises stores nothing. *)
Definition lru_cache (c : Cached) (self : ObjId) (body : M (CacheVal c))
  : M (CacheVal c) :=
  fun s =>
    match lru_find self (entries (caches s c)) with
    | Some v => (Ok v, set_cache c (lru_hit self v (caches s c)) s)
    | None =>
        match body (set_cache c (lru_miss (caches s c)) s) with
        | (Ok v, s') => (Ok v, set_cache c (lru_store self v (caches s' c)) s')
        | (Raise e, s') => (Raise e, s')
        end
    end.

Definition bindR {A B} (r : Res A) (f : A -> Res B) : Res B :=
  match r with
  | Ok a => f a
  | Raise e => Raise e
  end.

Notation "x <-- r ;; k" := (bindR r (fun x => k))
  (at level 61, r at next level, right associativity).

(** Truth value of a string-or-[None] attribute and of a flag. *)
Definition truthy_str (o : option pystr) : bool :=
  match o with
  | Some (_ :: _) => true
  | _ => false
  end.

Definition truthy (o : option bool) : bool :=
  match o with
  | Some b => b
  | None => false
  end.

Definition SPACE : N := 32%N.
Definition QUOTE : N := 34%N.
Definition HASH : N := 35%N.
Definition DASH : N := 45%N.
Definition SLASH : N := 47%N.
Definition TILDE : N := 126%N.

(** ** find_changes_bugs and get_upload_source_urls *)

Definition find_changes_bugs (env : Env) (changes_url : pystr) : M (list pystr) :=
  emit (EvUrlopen changes_url) ;;
  changes <- lift (changes_bugs_fixed env changes_url) ;;
  match changes with
  | None => ret []
  | Some bugs_str => ret (split_ws bugs_str)
  end.

Definition get_upload_source_urls (upload : Upload) : M (list pystr) :=
  if contains_source upload then
    emit (EvSourceFileUrls (upload_str upload)) ;;
    ret (source_file_urls upload)
  else if contains_copy upload then
    emit (EvCopySourceArchive (upload_str upload)) ;;
    match copy_source_archive_probe upload with
    | Some ValueError =>
        raise (RuntimeError (lit "EPERM: " ++ upload_str upload
                               ++ lit " copy_source_archive attribute"))
    | Some e => raise e
    | None =>
        emit (EvGetPublishedSources (upload_str upload) (package_name upload)
                (package_version upload)) ;;
        match published_sources upload with
        | [] => raise StopIteration
        | urls :: _ =>
            emit (EvSourceFileUrls (upload_str upload)) ;; ret urls
        end
    end
  else raise (RuntimeError (lit "Cannot find source for " ++ upload_str upload)).

(** [try: m except RuntimeError: ...]: [None] when the handler ran. *)
Definition except_RuntimeError {A} (m : M A) : M (option A) :=
  fun s =>
    match m s with
    | (Ok a, s') => (Ok (Some a), s')
    | (Raise (RuntimeError _), s') => (Ok None, s')
    | (Raise e, s') => (Raise e, s')
    end.

(** ** class Task *)

Record Task : Type := {
  task_id : ObjId;
  subscribed : option bool;
  last_activity_ours : option bool;
  distro : option pystr;
  source_package_name : option pystr;
  series : option pystr;
  obj : option LpTask
}.

Definition LONG_URL_ROOT : pystr := lit "https://pad.lv/".
Definition SHORTLINK_ROOT : pystr := lit "LP: #".
Definition BUG_NUMBER_LENGTH : Z := 7.

(** [Task(lp_task)] for the new object [self]. *)
Definition Task_init (self : ObjId) (lp_task : option LpTask) : Res Task :=
  match lp_task with
  | Some o =>
      let task_elements := split_on SLASH (lp_link o) in
      d <-- get_item task_elements 4 ;;
      p <-- get_item_from_end task_elements 3 ;;
      s <-- get_item task_elements 5 ;;
      Ok {| task_id := self;
            subscribed := None;
            last_activity_ours := None;
            distro := Some d;
            source_package_name := Some p;
            series := Some (if str_eqb s (lit "+source") then lit "-devel" else s);
            obj := Some o |}
  | None =>
      Ok {| task_id := self;
            subscribed := None;
            last_activity_ours := None;
            distro := None;
            source_package_name := None;
            series := None;
            obj := None |}
  end.

(** [self.obj.<attribute>]: [AttributeError] on [None]. *)
Definition obj_attr {A} (self : Task) (f : LpTask -> A) : M A :=
  match obj self with
  | Some o => ret (f o)
  | None => raise AttributeError
  end.

Definition title (self : Task) : M pystr :=
  lru_cache C_title (task_id self) (obj_attr self lp_title).

Definition number (self : Task) : M pystr :=
  lru_cache C_number (task_id self)
    (t <- title self ;;
     tok <- lift (get_item (split_on SPACE t) 1) ;;
     ret (remove_char HASH tok)).

Definition url (self : Task) : M pystr :=
  n <- number self ;; ret (LONG_URL_ROOT ++ n).

Definition shortlink (self : Task) : M pystr :=
  n <- number self ;; ret (SHORTLINK_ROOT ++ n).

Definition tags (self : Task) : M (list pystr) :=
  lru_cache C_tags (task_id self) (obj_attr self (fun o => bug_tags (lp_bug o))).

Definition date_last_updated (self : Task) : M Z :=
  lru_cache C_date_last_updated (task_id self)
    (obj_attr self (fun o => bug_date_last_updated (lp_bug o))).

Definition importance (self : Task) : M pystr :=
  lru_cache C_importance (task_id self) (obj_attr self lp_importance).

Definition src (self : Task) : M pystr :=
  lru_cache C_src (task_id self)
    (t <- title self ;; lift (get_item (split_on SPACE t) 3)).

Definition assignee (self : Task) : M (option pystr) :=
  lru_cache C_assignee (task_id self)
    (link <- obj_attr self lp_assignee_link ;;
     if truthy_str link then
       name <- lift (get_item
                       (split_on TILDE (match link with Some l => l | None => [] end))
                       1) ;;
       ret (Some name)
     else ret None).

Definition status (self : Task) : M pystr :=
  lru_cache C_status (task_id self) (obj_attr self lp_status).

(** The dict literal of [short_title], looked up: [KeyError] as [None]. *)
Definition start_field (resource_type_link : pystr) : option nat :=
  if str_eqb resource_type_link DISTRIBUTION_RESOURCE_TYPE_LINK then Some 4
  else if str_eqb resource_type_link
            DISTRIBUTION_SOURCE_PACKAGE_RESOURCE_TYPE_LINK then Some 5
  else if str_eqb resource_type_link SOURCE_PACKAGE_RESOURCE_TYPE_LINK then Some 6
  else if str_eqb resource_type_link PROJECT_RESOURCE_TYPE_LINK then Some 7
  else None.

Definition short_title (self : Task) : M pystr :=
  lru_cache C_short_title (task_id self)
    (link <- obj_attr self lp_target_resource_type_link ;;
     match start_field link with
     | None => raise KeyError
     | Some start =>
         t <- title self ;;
         ret (remove_char QUOTE (join SPACE (skipn start (split_on SPACE t))))
     end).

(** The loop of [_is_in_unapproved] over the uploads of the queue. *)
Fixpoint scan_uploads (env : Env) (self : Task) (uploads : list Upload)
  : M (option bool) :=
  match uploads with
  | [] => ret (Some false)
  | upload :: rest =>
      urls <- except_RuntimeError (get_upload_source_urls upload) ;;
      match urls with
      | None => scan_uploads env self rest
      | Some _ =>
          if negb (truthy_str (changes_file_url upload)) then
            scan_uploads env self rest
          else
            bug_numbers <- find_changes_bugs env
                             (match changes_file_url upload with
                              | Some u => u
                              | None => []
                              end) ;;
            n <- number self ;;
            if str_in n bug_numbers then ret (Some true)
            else scan_uploads env self rest
      end
  end.

(** [None], [True] or [False]. *)
Definition _is_in_unapproved (env : Env) (self : Task) : M (option bool) :=
  match LP env with
  | None => raise AttributeError
  | Some lp =>
      emit (EvDistributions (lit "ubuntu")) ;;
      if negb (truthy_str (series self))
         || match series self with
            | Some s => str_eqb s (lit "-devel")
            | None => false
            end
      then ret None
      else
        let s := match series self with Some s => s | None => [] end in
        emit (EvGetSeries s) ;;
        name <- src self ;;
        emit (EvGetPackageUploads s name) ;;
        scan_uploads env self (unapproved_uploads lp s name)
  end.

(** The loop of [_sibling_tasks]. *)
Fixpoint sibling_loop (self : Task) (bug_tasks : list BugTaskEntry)
  (siblings : pydict BugTaskEntry) : M (pydict BugTaskEntry) :=
  match bug_tasks with
  | [] => ret siblings
  | lp_task :: rest =>
      let task_elements := split_on SLASH (entry_link lp_task) in
      e4 <- lift (get_item task_elements 4) ;;
      if negb (str_eqb e4 (lit "ubuntu")) then sibling_loop self rest siblings
      else
        e3 <- lift (get_item_from_end task_elements 3) ;;
        s <- src self ;;
        if negb (str_eqb e3 s) then sibling_loop self rest siblings
        else
          e5 <- lift (get_item task_elements 5) ;;
          let series := if str_eqb e5 (lit "+source") then lit "-devel" else e5 in
          sibling_loop self rest (dict_set series lp_task siblings)
  end.

Definition _sibling_tasks (self : Task) : M (pydict BugTaskEntry) :=
  tasks <- obj_attr self (fun o => bug_tasks (lp_bug o)) ;;
  sibling_loop self tasks [].

(** The loop of [to_dict] over [self._sibling_tasks.items()]. *)
Fixpoint sibling_task_status_loop (env : Env) (self : Task)
  (items : list (pystr * BugTaskEntry)) (sibling_task_status : pydict pystr)
  : M (pydict pystr) :=
  match items with
  | [] => ret sibling_task_status
  | (series, lp_task) :: rest =>
      if str_in (entry_status lp_task) (NOWORK_BUG_STATUSES env) then
        sibling_task_status_loop env self rest
          (dict_set series (lit "closed") sibling_task_status)
      else
        u <- _is_in_unapproved env self ;;
        if truthy u then
          sibling_task_status_loop env self rest
            (dict_set series (lit "unapproved") sibling_task_status)
        else if str_in (entry_status lp_task) (OPEN_BUG_STATUSES env) then
          sibling_task_status_loop env self rest
            (dict_set series (lit "open") sibling_task_status)
        else
          sibling_task_status_loop env self rest
            (dict_set series (lit "pending") sibling_task_status)
  end.

Definition _is_updated (env : Env) (self : Task) : M (option bool) :=
  match AGE env with
  | None => ret None
  | Some age => d <- date_last_updated self ;; ret (Some (d >? age)%Z)
  end.

Definition _is_old (env : Env) (self : Task) : M (option bool) :=
  match OLD env with
  | None => ret None
  | Some old => d <- date_last_updated self ;; ret (Some (d <? old)%Z)
  end.

Definition _is_verification_needed (self : Task) : M bool :=
  tgs <- tags self ;;
  ret (existsb (substring_in (lit "verification-needed-")) tgs).

Definition _is_verification_done (self : Task) : M bool :=
  tgs <- tags self ;;
  ret (existsb (substring_in (lit "verification-done-")) tgs).

Definition to_dict (env : Env) (self : Task) : M TaskDict :=
  lru_cache C_to_dict (task_id self)
    (siblings <- _sibling_tasks self ;;
     sibling_task_status <- sibling_task_status_loop env self siblings [] ;;
     v_url <- url self ;;
     v_shortlink <- shortlink self ;;
     v_number <- number self ;;
     v_title <- title self ;;
     v_short_title <- short_title self ;;
     v_src <- src self ;;
     v_importance <- importance self ;;
     v_status <- status self ;;
     v_tags <- tags self ;;
     v_assignee <- assignee self ;;
     v_updated <- _is_updated env self ;;
     v_old <- _is_old env self ;;
     v_needed <- _is_verification_needed self ;;
     v_done <- _is_verification_done self ;;
     ret {| d_url := v_url;
            d_shortlink := v_shortlink;
            d_number := v_number;
            d_title := v_title;
            d_short_title := v_short_title;
            d_distro := distro self;
            d_source_package := v_src;
            d_source_package_name := source_package_name self;
            d_series := series self;
            d_importance := v_importance;
            d_status := v_status;
            d_tags := v_tags;
            d_assignee := v_assignee;
            d_is_maintainer_subscribed := subscribed self;
            d_is_last_activity_by_maintainer := last_activity_ours self;
            d_is_updated_recently := v_updated;
            d_is_old := v_old;
            d_is_verification_needed := v_needed;
            d_is_verification_done := v_done;
            d_sibling_task_status := sibling_task_status |}).

(** The loop of [get_releases] over [self._sibling_tasks.items()]. *)
Fixpoint release_loop (env : Env) (self : Task)
  (items : list (pystr * BugTaskEntry)) (release_info : pystr) : M pystr :=
  match items with
  | [] => ret release_info
  | (series, lp_task) :: rest =>
      c <- lift (get_item series 0) ;;
      let release_char := if N.eqb c DASH then lit "D" else upper env c in
      if str_in (entry_status lp_task) (NOWORK_BUG_STATUSES env) then
        release_loop env self rest (release_info ++ mark release_char COLOR_GREEN)
      else
        u <- _is_in_unapproved env self ;;
        if truthy u then
          release_loop env self rest (release_info ++ mark release_char COLOR_CYAN)
        else if str_in (entry_status lp_task) (OPEN_BUG_STATUSES env) then
          release_loop env self rest (release_info ++ mark release_char COLOR_YELLOW)
        else
          release_loop env self rest (release_info ++ release_char)
  end.

(** [re.sub('[^A-Z]+', '', s, 0)]. *)
Definition printable_of (s : pystr) : pystr := filter is_upper s.

Definition get_releases (env : Env) (self : Task) (length : Z) : M pystr :=
  siblings <- _sibling_tasks self ;;
  release_info <- release_loop env self siblings [] ;;
  let printable := printable_of release_info in
  let p_len := len printable in
  let p_need := (length - p_len)%Z in
  if (p_need >? 0)%Z then ret (release_info ++ repeat SPACE (Z.to_nat p_need))
  else ret release_info.

Definition get_flags (env : Env) (self : Task) (newbug : bool) : M pystr :=
  let verification_needed := mark (lit "v") COLOR_CYAN in
  let verification_done := mark (lit "V") COLOR_GREEN in
  let flags := [] in
  let flags := flags ++ (if truthy (subscribed self) then lit "*" else lit " ") in
  let flags := flags ++ (if truthy (last_activity_ours self) then lit "+" else lit " ") in
  updated <- _is_updated env self ;;
  age_flag <- (if truthy updated then ret (lit "U")
               else
                 old <- _is_old env self ;;
                 ret (if truthy old then lit "O" else lit " ")) ;;
  let flags := flags ++ age_flag in
  let flags := flags ++ (if newbug then lit "N" else lit " ") in
  needed <- _is_verification_needed self ;;
  let flags := flags ++ (if needed then verification_needed else lit " ") in
  done <- _is_verification_done self ;;
  let flags := flags ++ (if done then verification_done else lit " ") in
  ret flags.

Definition sort_key (self : Task) : M (bool * pystr * pystr) :=
  n <- number self ;;
  s <- src self ;;
  ret (negb (truthy (last_activity_ours self)), n, s).

Definition sort_date (self : Task) : M Z := date_last_updated self.

(** A run from a fresh interpreter: the result and the calls logged. *)
Definition run {A} (m : M A) : Res A * list Event :=
  let (r, s) := m init_state in (r, log s).

(** ** Vocabulary of the statements *)

(** The decorated method behind each cache. *)
Definition method (env : Env) (c : Cached) (self : Task) : M (CacheVal c) :=
  match c with
  | C_to_dict => to_dict env self
  | C_number => number self
  | C_tags => tags self
  | C_date_last_updated => date_last_updated self
  | C_importance => importance self
  | C_src => src self
  | C_title => title self
  | C_assignee => assignee self
  | C_status => status self
  | C_short_title => short_title self
  end.

(** The caches of the properties hold, for [self], only values that the
    property computes for it: the state of a run in which [self.obj] and
    the identity of [self] did not change. [to_dict] is left out: its
    body calls Launchpad. *)
Definition coherent (env : Env) (self : Task) (s : State) : Prop :=
  forall c v,
    c <> C_to_dict ->
    lru_find (task_id self) (entries (caches s c)) = Some v ->
    fst (run (method env c self)) = Ok v.

(** From every coherent state [m] ends with the result [r], having
    logged the calls [evs], in a coherent state. *)
Definition returns {A} (env : Env) (self : Task) (m : M A) (r : Res A)
  (evs : list Event) : Prop :=
  forall s,
    coherent env self s ->
    exists s', m s = (r, s') /\ coherent env self s' /\ log s' = log s ++ evs.

Definition determinate {A} (env : Env) (self : Task) (m : M A) : Prop :=
  exists r evs, returns env self m r evs.

(** From every coherent state [m] ends with the result [r]. *)
Definition ends {A} (env : Env) (self : Task) (m : M A) (r : Res A) : Prop :=
  exists evs, returns env self m r evs.

(** [self.obj.<attribute>] as a value. *)
Definition obj_res {A} (self : Task) (f : LpTask -> A) : Res A :=
  match obj self with
  | Some o => Ok (f o)
  | None => Raise AttributeError
  end.

(** The values of [number] and [src] for a title. *)
Definition number_of_title (t : pystr) : Res pystr :=
  tok <-- get_item (split_on SPACE t) 1 ;; Ok (remove_char HASH tok).

Definition src_of_title (t : pystr) : Res pystr :=
  get_item (split_on SPACE t) 3.

Definition is_digit (c : N) : bool := (48 <=? c)%N && (c <=? 57)%N.

(** The state after [number] was read on each record of a list, in
    order, whatever each access gave. *)
Definition read_numbers (others : list Task) (s : State) : State :=
  fold_left (fun s' t => snd (number t s')) others s.

(** [k] is among the [n] most recently used entries, with value [v]. *)
Definition recent {V} (n : nat) (k : ObjId) (v : V) (c : Lru V) : Prop :=
  lru_find k (firstn n (entries c)) = Some v.

(** ** Example records *)

Definition example_bug (tasks : list BugTaskEntry) : LpBug :=
  {| bug_tags := []; bug_date_last_updated := 0; bug_tasks := tasks |}.

Definition example_lp_task (title_ type_link : pystr) (tasks : list BugTaskEntry)
  : LpTask :=
  {| lp_link := lit "https://api.launchpad.net/devel/ubuntu/focal/+source/pkg/+bug/1";
     lp_title := title_;
     lp_status := lit "New";
     lp_importance := lit "Undecided";
     lp_assignee_link := None;
     lp_target_resource_type_link := type_link;
     lp_bug := example_bug tasks |}.

Definition example_task (id : ObjId) (series_ : pystr) (o : LpTask) : Task :=
  {| task_id := id;
     subscribed := None;
     last_activity_ours := None;
     distro := Some (lit "ubuntu");
     source_package_name := Some (lit "pkg");
     series := Some series_;
     obj := Some o |}.

(** A record per object identity [i < 1000], with its own bug number. *)
Definition numbered_task (i : N) : Task :=
  example_task i (lit "focal")
    (example_lp_task
       (lit "Bug #" ++ [48 + i / 100; 48 + (i / 10) mod 10; 48 + i mod 10]%N
          ++ lit " in pkg (Ubuntu): summary")
       DISTRIBUTION_SOURCE_PACKAGE_RESOURCE_TYPE_LINK []).

(** The object identities [1 .. n]. *)
Definition ids_upto (n : nat) : list N := map N.of_nat (seq 1 n).

(** A session whose queues are empty, and class attributes around a
    session. *)
Definition no_uploads : Launchpad := {| unapproved_uploads := fun _ _ => [] |}.

Definition example_env (lp : option Launchpad) : Env :=
  {| AGE := None;
     OLD := None;
     LP := lp;
     NOWORK_BUG_STATUSES := [lit "Fix Released"; lit "Invalid"];
     OPEN_BUG_STATUSES := [lit "New"; lit "Confirmed"];
     changes_bugs_fixed := fun _ => Ok None;
     unicode_upper := fun c => [c] |}.

(** ** The unapproved-queue scan, upload by upload *)

(** How [get_upload_source_urls] ends on an upload. *)
Definition resolution (upload : Upload) : Res (list pystr) :=
  if contains_source upload then Ok (source_file_urls upload)
  else if contains_copy upload then
    match copy_source_archive_probe upload with
    | Some ValueError =>
        Raise (RuntimeError (lit "EPERM: " ++ upload_str upload
                               ++ lit " copy_source_archive attribute"))
    | Some e => Raise e
    | None =>
        match published_sources upload with
        | [] => Raise StopIteration
        | urls :: _ => Ok urls
        end
    end
  else Raise (RuntimeError (lit "Cannot find source for " ++ upload_str upload)).

(** The resolution ends with the [RuntimeError] that the scan catches. *)
Definition resolution_fails (upload : Upload) : bool :=
  match resolution upload with
  | Raise (RuntimeError _) => true
  | _ => false
  end.

(** The resolution ends with an exception that the scan does not catch. *)
Definition resolution_escapes (upload : Upload) : bool :=
  match resolution upload with
  | Raise (RuntimeError _) => false
  | Raise _ => true
  | Ok _ => false
  end.

Definition skipped (upload : Upload) : bool :=
  resolution_fails upload || negb (truthy_str (changes_file_url upload)).

(** The changes file of the upload loads and lists the bug [n] as fixed. *)
Definition lists_bug (env : Env) (n : pystr) (upload : Upload) : bool :=
  match changes_file_url upload with
  | Some u =>
      match changes_bugs_fixed env u with
      | Ok (Some bugs_str) => str_in n (split_ws bugs_str)
      | _ => false
      end
  | None => false
  end.

(** Opening or parsing the changes file of the upload raises. *)
Definition changes_unreadable (env : Env) (upload : Upload) : bool :=
  match changes_file_url upload with
  | Some u =>
      match changes_bugs_fixed env u with
      | Raise _ => true
      | Ok _ => false
      end
  | None => false
  end.

(** The scan ends on the upload with an exception: one of the resolution
    that is no [RuntimeError], or one of the changes file of an upload
    that is not skipped. *)
Definition scan_escapes (env : Env) (upload : Upload) : bool :=
  resolution_escapes upload
  || (negb (skipped upload) && changes_unreadable env upload).

(** ** An example queue *)

Definition example_upload (name : string) (source copy : bool)
  (probe : option PyExn) (changes : option pystr) : Upload :=
  {| upload_str := lit name;
     contains_source := source;
     contains_copy := copy;
     source_file_urls := [lit "https://launchpad.net/pkg_1.dsc"];
     copy_source_archive_probe := probe;
     published_sources := [[lit "https://launchpad.net/pkg_1.dsc"]];
     changes_file_url := changes;
     package_name := lit "pkg";
     package_version := lit "1" |}.

(** An upload that is neither a source nor a copy, a copy whose archive
    refuses access, a source upload without changes file, and a source
    upload whose changes file is at "changes". *)
Definition example_queue : list Upload :=
  [ example_upload "neither" false false None (Some (lit "changes"));
    example_upload "denied" false true (Some ValueError) (Some (lit "changes"));
    example_upload "nochanges" true false None None;
    example_upload "source" true false None (Some (lit "changes")) ].

Definition example_session : Launchpad :=
  {| unapproved_uploads := fun _ _ => example_queue |}.

(** Class attributes with the session above; the changes file at
    "changes" fixes the bugs 11 and 12. *)
Definition example_queue_env : Env :=
  {| AGE := None;
     OLD := None;
     LP := Some example_session;
     NOWORK_BUG_STATUSES := [lit "Fix Released"; lit "Invalid"];
     OPEN_BUG_STATUSES := [lit "New"; lit "Confirmed"];
     changes_bugs_fixed := fun u =>
       if str_eqb u (lit "changes") then Ok (Some (lit "11 12")) else Ok None;
     unicode_upper := fun c => [c] |}.

(** A copy upload whose archive has no published source of its name and
    version, a source upload whose changes file is at "changes", and a
    source upload whose changes file is at "broken". *)
Definition example_unpublished_copy : Upload :=
  {| upload_str := lit "copy";
     contains_source := false;
     contains_copy := true;
     source_file_urls := [];
     copy_source_archive_probe := None;
     published_sources := [];
     changes_file_url := Some (lit "changes");
     package_name := lit "pkg";
     package_version := lit "1" |}.

Definition example_matching_upload : Upload :=
  example_upload "source" true false None (Some (lit "changes")).

Definition example_unreadable_upload : Upload :=
  example_upload "unreadable" true false None (Some (lit "broken")).

(** Class attributes around a session whose queues all hold [queue]. The
    changes file at "changes" fixes the bugs 11 and 12; "broken" cannot
    be opened: [urlopen] raises [ValueError] for a URL without scheme. *)
Definition example_env_of (queue : list Upload) : Env :=
  {| AGE := None;
     OLD := None;
     LP := Some {| unapproved_uploads := fun _ _ => queue |};
     NOWORK_BUG_STATUSES := [lit "Fix Released"; lit "Invalid"];
     OPEN_BUG_STATUSES := [lit "New"; lit "Confirmed"];
     changes_bugs_fixed := fun u =>
       if str_eqb u (lit "changes") then Ok (Some (lit "11 12"))
       else if str_eqb u (lit "broken") then Raise ValueError
       else Ok None;
     unicode_upper := fun c => [c] |}.

(** ** Siblings, in the words of the specification *)

Definition path_elements (e : BugTaskEntry) : list pystr :=
  split_on SLASH (entry_link e).

(** The distro segment of the path is "ubuntu" and its source package
    segment is [name]. *)
Definition is_sibling (name : pystr) (e : BugTaskEntry) : bool :=
  match index (path_elements e) 4, index_from_end (path_elements e) 3 with
  | Some d, Some p => str_eqb d (lit "ubuntu") && str_eqb p name
  | _, _ => false
  end.

(** The series segment of the path, "+source" read as "-devel". *)
Definition sibling_series (e : BugTaskEntry) : pystr :=
  match index (path_elements e) 5 with
  | Some s => if str_eqb s (lit "+source") then lit "-devel" else s
  | None => []
  end.

(** The keys of a list in the order of their first occurrence, the keys
    of [seen] left out. *)
Fixpoint first_occurrences (seen l : list pystr) : list pystr :=
  match l with
  | [] => []
  | x :: l' =>
      if str_in x seen then first_occurrences seen l'
      else x :: first_occurrences (seen ++ [x]) l'
  end.

(** The last element of a list that satisfies [p]. *)
Definition find_last {A} (p : A -> bool) (l : list A) : option A :=
  find p (rev l).

Definition insert_sibling (d : pydict BugTaskEntry) (e : BugTaskEntry)
  : pydict BugTaskEntry :=
  dict_set (sibling_series e) e d.

(** ** An example bug *)

Definition example_entry (path status_ : string) : BugTaskEntry :=
  {| entry_link := lit "https://api.launchpad.net/devel/" ++ lit path;
     entry_status := lit status_ |}.

(** Tasks of one bug: pkg in focal, pkg in the devel series, pkg in
    debian, another package in jammy, and pkg in focal again. *)
Definition example_bug_tasks : list BugTaskEntry :=
  [ example_entry "ubuntu/focal/+source/pkg/+bug/12" "New";
    example_entry "ubuntu/+source/pkg/+bug/12" "Fix Released";
    example_entry "debian/+source/pkg/+bug/12" "New";
    example_entry "ubuntu/jammy/+source/other/+bug/12" "New";
    example_entry "ubuntu/focal/+source/pkg/+bug/12" "Incomplete" ].

Definition example_record : Task :=
  example_task 1%N (lit "focal")
    (example_lp_task (lit "Bug #12 in pkg (Ubuntu): summary")
       DISTRIBUTION_SOURCE_PACKAGE_RESOURCE_TYPE_LINK example_bug_tasks).

(** ** The classification of a sibling, in the words of the specification *)

(** Closed before unapproved before open; [u] is what the
    unapproved-queue check returned. *)
Definition classify (env : Env) (u : option bool) (status_ : pystr) : pystr :=
  if str_in status_ (NOWORK_BUG_STATUSES env) then lit "closed"
  else if truthy u then lit "unapproved"
  else if str_in status_ (OPEN_BUG_STATUSES env) then lit "open"
  else lit "pending".

(** The decoration of a release character, by the same precedence. *)
Definition decorate (env : Env) (u : option bool) (status_ : pystr)
  (release_char : pystr) : pystr :=
  if str_in status_ (NOWORK_BUG_STATUSES env) then mark release_char COLOR_GREEN
  else if truthy u then mark release_char COLOR_CYAN
  else if str_in status_ (OPEN_BUG_STATUSES env) then mark release_char COLOR_YELLOW
  else release_char.

(** The release character of a series: "D" for a series that starts
    with '-', else the first character in upper case, which is one
    character for ASCII and can be several outside. *)
Definition release_char (env : Env) (series_ : pystr) : pystr :=
  match series_ with
  | c :: _ => if N.eqb c DASH then lit "D" else upper env c
  | [] => []
  end.

(** The text a terminal shows: the colour sequences, from ESC to 'm',
    left out. *)
Fixpoint strip_markers_from (inside : bool) (s : pystr) : pystr :=
  match s with
  | [] => []
  | c :: s' =>
      if inside then strip_markers_from (negb (N.eqb c 109%N)) s'
      else if N.eqb c ESC then strip_markers_from true s'
      else c :: strip_markers_from false s'
  end.

Definition strip_markers (s : pystr) : pystr := strip_markers_from false s.

(** The siblings on which the test chain reaches the unapproved-queue
    check: those whose status is not a no-work status. *)
Definition reaches_check (env : Env) (item : pystr * BugTaskEntry) : bool :=
  negb (str_in (entry_status (snd item)) (NOWORK_BUG_STATUSES env)).

(** The calls logged by a loop over the siblings when each check logs
    [evs]. *)
Definition checks_log (env : Env) (evs : list Event)
  (items : list (pystr * BugTaskEntry)) : list Event :=
  List.concat (map (fun item => if reaches_check env item then evs else []) items).

(** The number of times a log shows the check start: each call of
    [_is_in_unapproved] with a session begins with the lookup of the
    ubuntu distribution. *)
Definition is_check_start (e : Event) : bool :=
  match e with
  | EvDistributions _ => true
  | _ => false
  end.

Definition count_checks (evs : list Event) : nat :=
  List.length (filter is_check_start evs).

(** Either no sibling reaches the check, or the check returns [u] and
    logs [evs]. *)
Definition check_known (env : Env) (self : Task) (u : option bool)
  (evs : list Event) (items : list (pystr * BugTaskEntry)) : Prop :=
  Forall (fun item => reaches_check env item = false) items \/
  returns env self (_is_in_unapproved env self) (Ok u) evs.

(** The release characters of the siblings, decorated. *)
Definition decorated (env : Env) (u : option bool)
  (items : list (pystr * BugTaskEntry)) : pystr :=
  List.concat
    (map (fun item =>
            decorate env u (entry_status (snd item)) (release_char env (fst item)))
       items).

(** The check as the statements assume it: no sibling reaches it, or a
    run of it returns [u] and logs [evs]. *)
Definition check_returns (env : Env) (self : Task) (u : option bool)
  (evs : list Event) (items : list (pystr * BugTaskEntry)) : Prop :=
  Forall (fun item => reaches_check env item = false) items \/
  run (_is_in_unapproved env self) = (Ok u, evs).

(** [m] logs nothing and, when it returns a value, the value satisfies [P]. *)
Definition quiet {A} (env : Env) (self : Task) (m : M A) (P : A -> Prop) : Prop :=
  exists r, returns env self m r [] /\ forall a, r = Ok a -> P a.

(** The sibling statuses of [to_dict]. *)
Definition classified (env : Env) (u : option bool)
  (items : list (pystr * BugTaskEntry)) : pydict pystr :=
  map (fun item => (fst item, classify env u (entry_status (snd item)))) items.

(** A record of pkg whose bug has a task in trusty and one in the devel
    series, both open. *)
Definition example_open_record : Task :=
  example_task 2%N (lit "trusty")
    (example_lp_task (lit "Bug #12 in pkg (Ubuntu): summary")
       DISTRIBUTION_SOURCE_PACKAGE_RESOURCE_TYPE_LINK
       [ example_entry "ubuntu/trusty/+source/pkg/+bug/12" "New";
         example_entry "ubuntu/+source/pkg/+bug/12" "Confirmed" ]).

(** A record of pkg whose bug has a task in eight series. *)
Definition example_wide_record : Task :=
  example_task 3%N (lit "focal")
    (example_lp_task (lit "Bug #12 in pkg (Ubuntu): summary")
       DISTRIBUTION_SOURCE_PACKAGE_RESOURCE_TYPE_LINK
       [ example_entry "ubuntu/trusty/+source/pkg/+bug/12" "Fix Released";
         example_entry "ubuntu/xenial/+source/pkg/+bug/12" "Fix Released";
         example_entry "ubuntu/bionic/+source/pkg/+bug/12" "Fix Released";
         example_entry "ubuntu/focal/+source/pkg/+bug/12" "New";
         example_entry "ubuntu/jammy/+source/pkg/+bug/12" "New";
         example_entry "ubuntu/noble/+source/pkg/+bug/12" "Incomplete";
         example_entry "ubuntu/oracular/+source/pkg/+bug/12" "Incomplete";
         example_entry "ubuntu/+source/pkg/+bug/12" "Confirmed" ]).

(** The calls the check makes after the lookup of the distribution. *)
Definition inner_event (e : Event) : bool := negb (is_check_start e).

(** [m] is determinate and logs inner calls only. *)
Definition logs_inner {A} (env : Env) (self : Task) (m : M A) : Prop :=
  exists r evs, returns env self m r evs /\ forallb inner_event evs = true.

(** ** More vocabulary *)

(** No character of [s] is [c]. *)
Definition free_of (c : N) (s : pystr) : bool :=
  forallb (fun x => negb (N.eqb x c)) s.

(** A record whose title has a second token with several '#', one whose
    target is no known resource type, and one with an assignee. *)
Definition example_hash_record : Task :=
  example_task 1%N (lit "focal")
    (example_lp_task (lit "Bug ##12#3 in pkg")
       DISTRIBUTION_SOURCE_PACKAGE_RESOURCE_TYPE_LINK []).

Definition example_team_record : Task :=
  example_task 1%N (lit "focal")
    (example_lp_task (lit "Bug #12 in pkg") (lit "team") []).

Definition example_assigned_task : LpTask :=
  {| lp_link := lit "https://api.launchpad.net/devel/ubuntu/focal/+source/pkg/+bug/1";
     lp_title := lit "Bug #1 in pkg (Ubuntu): summary";
     lp_status := lit "New";
     lp_importance := lit "High";
     lp_assignee_link := Some (lit "https://api.launchpad.net/devel/~ahasenack");
     lp_target_resource_type_link := DISTRIBUTION_SOURCE_PACKAGE_RESOURCE_TYPE_LINK;
     lp_bug := {| bug_tags := [lit "verification-needed-focal"; lit "patch"];
                  bug_date_last_updated := 50;
                  bug_tasks := [] |} |}.

Definition example_assigned_record : Task :=
  example_task 1%N (lit "focal") example_assigned_task.

(** What [_is_updated] and [_is_old] say of a bug last updated at [d],
    read as a truth value. *)
Definition is_recent (env : Env) (d : Z) : bool :=
  match AGE env with Some age => (d >? age)%Z | None => false end.

Definition is_stale (env : Env) (d : Z) : bool :=
  match OLD env with Some old => (d <? old)%Z | None => false end.

(** [hay] holds [needle]: [hay = pre ++ needle ++ post]. *)
Definition holds (needle hay : pystr) : Prop :=
  exists pre post, hay = pre ++ needle ++ post.

(** A token of a white-space separated list: not empty, no white space. *)
Definition is_token (tok : pystr) : bool :=
  match tok with
  | [] => false
  | _ => forallb (fun c => negb (is_space c)) tok
  end.

(** The scan passes the upload without a match for the bug [n]: it
    skips it, or its changes file loads and does not list [n]. *)
Definition passes (env : Env) (n : pystr) (upload : Upload) : bool :=
  negb (scan_escapes env upload)
  && (skipped upload || negb (lists_bug env n upload)).

(** ** Fields of tokens *)

(** Only white space. *)
Definition is_blank (s : pystr) : bool := forallb is_space s.

(** Tokens, each with the white space written after it: no token is
    empty or holds white space, and only the last may have nothing
    after it. *)
Fixpoint well_spaced (toks : list (pystr * pystr)) : bool :=
  match toks with
  | [] => true
  | (tok, gap) :: rest =>
      is_token tok && is_blank gap
      && match rest with [] => true | _ => negb (str_eqb gap []) end
      && well_spaced rest
  end.

(** The field written with [lead] before the first token. *)
Definition spaced (lead : pystr) (toks : list (pystr * pystr)) : pystr :=
  lead ++ List.concat (map (fun tg => fst tg ++ snd tg) toks).

(** The series name starts with an ASCII letter or with '-'. *)
Definition named_series (series_ : pystr) : bool :=
  match series_ with
  | c :: _ => is_lower c || is_upper c || N.eqb c DASH
  | [] => false
  end.

(** The characters of the siblings, undecorated. *)
Definition release_chars (env : Env) (items : list (pystr * BugTaskEntry)) : pystr :=
  List.concat (map (fun item => release_char env (fst item)) items).

(** Class attributes of an interpreter whose tables turn U+00DF into
    "SS", and a record of pkg whose bug has one closed task, in a series
    whose name starts with U+00DF. *)
Definition example_unicode_env : Env :=
  {| AGE := None;
     OLD := None;
     LP := None;
     NOWORK_BUG_STATUSES := [lit "Fix Released"; lit "Invalid"];
     OPEN_BUG_STATUSES := [lit "New"; lit "Confirmed"];
     changes_bugs_fixed := fun _ => Ok None;
     unicode_upper := fun c => if N.eqb c 223 then lit "SS" else [c] |}.

Definition example_eszett_record : Task :=
  example_task 4%N (lit "focal")
    (example_lp_task (lit "Bug #12 in pkg (Ubuntu): summary")
       DISTRIBUTION_SOURCE_PACKAGE_RESOURCE_TYPE_LINK
       [ {| entry_link := lit "https://api.launchpad.net/devel/ubuntu/"
                            ++ 223%N :: lit "x/+source/pkg/+bug/12";
            entry_status := lit "Fix Released" |} ]).

(** [t] is [s] with every character [c] left out. *)
Inductive without (c : N) : pystr -> pystr -> Prop :=
| without_nil : without c [] []
| without_drop s t : without c s t -> without c (c :: s) t
| without_keep x s t : x <> c -> without c s t -> without c (x :: s) (x :: t).

(** A title as Launchpad writes it, the summary of the bug in double
    quotes, and a title with two spaces after its first word. *)
Definition example_quoted_title : pystr :=
  lit "Bug #12 in pkg (Ubuntu): " ++ QUOTE :: lit "some words" ++ [QUOTE].

Definition example_spaced_title : pystr := lit "A  B C D E F".

(** ** The caches along a run *)

(** Every method moves the state along [R]. *)
Definition steps {A} (R : State -> State -> Prop) (m : M A) : Prop :=
  forall s, R s (snd (m s)).

(** A cache within its size, with one entry per instance at most. *)
Definition lru_ok {V} (c : Lru V) : Prop :=
  (List.length (entries c) <= maxsize)%nat /\ NoDup (map fst (entries c)).

Definition caches_ok (s : State) : Prop := forall c, lru_ok (caches s c).

(** [m] ends in one way from every coherent state, and a value it
    returns satisfies [P]. *)
Definition settles {A} (env : Env) (self : Task) (m : M A) (P : A -> Prop) : Prop :=
  exists r evs, returns env self m r evs /\ forall a, r = Ok a -> P a.


Definition keeps_caches_ok (s s' : State) : Prop :=
  caches_ok s -> caches_ok s'.

(** ** Printing a record: [__str__], [get_header], [compose_pretty] and
    [compose_dup] *)

(** [%-<width>s] and [%<width>s] of the printf-style formatting of a
    [str]: spaces are added on the right or on the left up to the width,
    and a longer text is not cut. *)
Definition ljust (width : Z) (s : pystr) : pystr :=
  s ++ repeat SPACE (Z.to_nat (width - len s)).

Definition rjust (width : Z) (s : pystr) : pystr :=
  repeat SPACE (Z.to_nat (width - len s)) ++ s.

(** [format(value, spec)] of an f-string field for a [str] value and a
    spec made of a width and a presentation type: type [d] is for
    integers, and a [str] has no such format. *)
Inductive FormatType : Type :=
| Fmt_d
| Fmt_s.

Definition format_str (value : pystr) (width : Z) (ty : FormatType) : Res pystr :=
  match ty with
  | Fmt_d => Raise ValueError
  | Fmt_s => Ok (ljust width value)
  end.

(** The fields of the f-string are read and formatted from left to
    right. *)
Definition __str__ (self : Task) : M pystr :=
  v_number <- number self ;;
  f_number <- lift (format_str v_number 8 Fmt_d) ;;
  v_status <- status self ;;
  f_status <- lift (format_str v_status 12 Fmt_s) ;;
  v_title <- title self ;;
  ret (lit "LP #" ++ f_number ++ lit " " ++ f_status ++ lit " " ++ v_title).

Definition get_header (extended : bool) : pystr :=
  let text :=
    ljust 12 (lit "Bug") ++ lit " | " ++ ljust 6 (lit "Flags") ++ lit " | "
      ++ ljust 7 (lit "Release") ++ lit " | " ++ ljust 13 (lit "Status")
      ++ lit " | " ++ ljust 19 (lit "Package") ++ lit " |" in
  let text :=
    if extended then
      text ++ lit " " ++ ljust 8 (lit "Last Upd") ++ lit " | "
        ++ ljust 10 (lit "Prio") ++ lit " | " ++ ljust 13 (lit "Assignee")
        ++ lit " |"
    else text in
  text ++ lit " " ++ ljust 60 (lit "Title") ++ lit " |".

(** [str(self.assignee)]: the name, or [False] for no assignee. *)
Definition str_of_assignee (a : option pystr) : pystr :=
  match a with
  | Some name => name
  | None => lit "False"
  end.

Section Printing.

(** [date.strftime('%d.%m.%y')] on the date Launchpad returns. *)
Variable strftime_dmy : Z -> pystr.

Definition compose_pretty (env : Env) (self : Task)
  (shortlinks extended newbug : bool) : M pystr :=
  bug_url <- (if shortlinks then
                v <- shortlink self ;;
                ret (ljust (BUG_NUMBER_LENGTH + len SHORTLINK_ROOT) v)
              else
                v <- url self ;;
                ret (ljust (BUG_NUMBER_LENGTH + len LONG_URL_ROOT) v)) ;;
  flags <- get_flags env self newbug ;;
  releases <- get_releases env self 7 ;;
  v_status <- status self ;;
  v_src <- src self ;;
  let text :=
    ljust 12 bug_url ++ lit " | " ++ rjust 6 flags ++ lit " | "
      ++ ljust 7 releases ++ lit " | " ++ ljust 13 v_status ++ lit " | "
      ++ ljust 19 (truncate_string v_src 19) ++ lit " |" in
  text <- (if extended then
             date <- date_last_updated self ;;
             v_importance <- importance self ;;
             a <- assignee self ;;
             v_assignee <- (if negb (truthy_str a) then ret []
                            else
                              a' <- assignee self ;;
                              ret (truncate_string (str_of_assignee a') 12)) ;;
             ret (text ++ lit " " ++ rjust 8 (strftime_dmy date) ++ lit " | "
                    ++ ljust 10 v_importance ++ lit " | "
                    ++ ljust 13 v_assignee ++ lit " |")
           else ret text) ;;
  v_short_title <- short_title self ;;
  ret (text ++ lit " " ++ rjust 60 (truncate_string v_short_title 60) ++ lit " |").

End Printing.

Definition compose_dup (self : Task) (extended : bool) : M pystr :=
  v_status <- status self ;;
  v_src <- src self ;;
  let text := v_status ++ lit "," ++ truncate_string v_src 16 in
  with_assignee <- (if extended then
                      a <- assignee self ;; ret (truthy_str a)
                    else ret false) ;;
  if with_assignee then
    a <- assignee self ;;
    ret (text ++ lit "," ++ truncate_string (str_of_assignee a) 9)
  else ret text.

(** A line of columns, each followed by its separator. *)
Fixpoint columns (cs : list pystr) : pystr :=
  match cs with
  | [] => []
  | c :: cs' =>
      c ++ match cs' with
           | [] => lit " |"
           | _ :: _ => lit " | " ++ columns cs'
           end
  end.

(** The columns of the header. *)
Definition header_columns (extended : bool) : list (Z * pystr) :=
  [(12, lit "Bug"); (6, lit "Flags"); (7, lit "Release"); (13, lit "Status");
   (19, lit "Package")]%Z
    ++ (if extended
        then [(8, lit "Last Upd"); (10, lit "Prio"); (13, lit "Assignee")]%Z
        else [])
    ++ [(60, lit "Title")]%Z.

(** A clock for the examples: every date prints as the first day of 1970. *)
Definition example_strftime (d : Z) : pystr := lit "01.01.70".

(** * Properties *)

(** ** Strings *)

Lemma str_eqb_spec a b : reflect (a = b) (str_eqb a b).
Proof. unfold str_eqb. destruct (pystr_eq_dec a b); constructor; assumption. Qed.

Lemma str_eqb_refl a : str_eqb a a = true.
Proof. destruct (str_eqb_spec a a); congruence. Qed.

Lemma str_eqb_eq a b : str_eqb a b = true <-> a = b.
Proof. destruct (str_eqb_spec a b); split; congruence. Qed.

Lemma str_in_In x l : str_in x l = true <-> In x l.
Proof.
  unfold str_in. rewrite existsb_exists. split.
  - intros [y [Hy E]]. apply str_eqb_eq in E. subst. assumption.
  - intros H. exists x. split; [assumption | apply str_eqb_refl].
Qed.

(** ** The caches *)

Lemma caches_set_same c v s : caches (set_cache c v s) c = v.
Proof.
  unfold set_cache. simpl. destruct (Cached_eq_dec c c) as [e | n].
  - rewrite (UIP_dec Cached_eq_dec e eq_refl). reflexivity.
  - congruence.
Qed.

Lemma caches_set_other c c' v s :
  c <> c' -> caches (set_cache c v s) c' = caches s c'.
Proof.
  intros H. unfold set_cache. simpl.
  destruct (Cached_eq_dec c c'); [congruence | reflexivity].
Qed.

Lemma log_set_cache c v s : log (set_cache c v s) = log s.
Proof. reflexivity. Qed.

Lemma lru_find_hit V k (v : V) c : lru_find k (entries (lru_hit k v c)) = Some v.
Proof. simpl. rewrite N.eqb_refl. reflexivity. Qed.

Lemma lru_find_store V k (v v' : V) c :
  lru_find k (entries (lru_store k v c)) = Some v' ->
  v' = v \/ lru_find k (entries c) = Some v'.
Proof.
  unfold lru_store. destruct (lru_find k (entries c)) eqn:E.
  - rewrite E. auto.
  - simpl. rewrite N.eqb_refl. intros H. left. congruence.
Qed.

Lemma coherent_init env self : coherent env self init_state.
Proof. intros c v _ H. discriminate H. Qed.

Lemma coherent_set env self c v s :
  coherent env self s ->
  (forall x, c <> C_to_dict -> lru_find (task_id self) (entries v) = Some x ->
             fst (run (method env c self)) = Ok x) ->
  coherent env self (set_cache c v s).
Proof.
  intros Hs Hv c' x Hc' Hx.
  destruct (Cached_eq_dec c c') as [<- | Hne].
  - rewrite caches_set_same in Hx. auto.
  - rewrite caches_set_other in Hx by assumption. eauto.
Qed.

(** ** The monad *)

Section Returns.

Variable env : Env.
Variable self : Task.

Lemma returns_ret A (a : A) : returns env self (ret a) (Ok a) [].
Proof.
  intros s Hs. exists s. rewrite app_nil_r. repeat split; assumption.
Qed.

Lemma returns_raise A e : returns env self (@raise A e) (Raise e) [].
Proof.
  intros s Hs. exists s. rewrite app_nil_r. repeat split; assumption.
Qed.

Lemma returns_lift A (r : Res A) : returns env self (lift r) r [].
Proof.
  intros s Hs. exists s. rewrite app_nil_r. repeat split; assumption.
Qed.

Lemma returns_emit e : returns env self (emit e) (Ok tt) [e].
Proof.
  intros s Hs. eexists. split; [reflexivity | split; [| reflexivity]].
  intros c v Hc Hv. exact (Hs c v Hc Hv).
Qed.

Lemma returns_bind A B (m : M A) (f : A -> M B) a r e1 e2 :
  returns env self m (Ok a) e1 ->
  returns env self (f a) r e2 ->
  returns env self (bind m f) r (e1 ++ e2).
Proof.
  intros Hm Hf s Hs. destruct (Hm s Hs) as [s1 [E1 [C1 L1]]].
  destruct (Hf s1 C1) as [s2 [E2 [C2 L2]]].
  exists s2. unfold bind. rewrite E1. split; [assumption | split; [assumption |]].
  rewrite L2, L1. symmetry. apply app_assoc.
Qed.

Lemma returns_bind_raise A B (m : M A) (f : A -> M B) e evs :
  returns env self m (Raise e) evs ->
  returns env self (bind m f) (Raise e) evs.
Proof.
  intros Hm s Hs. destruct (Hm s Hs) as [s1 [E1 [C1 L1]]].
  exists s1. unfold bind. rewrite E1. auto.
Qed.

(** Code that logs nothing composes like its results. *)
Lemma returns_bind_res A B (m : M A) (f : A -> M B) ra (g : A -> Res B) :
  returns env self m ra [] ->
  (forall a, ra = Ok a -> returns env self (f a) (g a) []) ->
  returns env self (bind m f) (bindR ra g) [].
Proof.
  intros Hm Hf. destruct ra as [a | e]; simpl.
  - change (@nil Event) with (@nil Event ++ []). eapply returns_bind; eauto.
  - apply returns_bind_raise. assumption.
Qed.

Lemma returns_run A (m : M A) r evs :
  returns env self m r evs -> run m = (r, evs).
Proof.
  intros H. destruct (H init_state (coherent_init env self)) as [s' [E [_ L]]].
  unfold run. rewrite E. simpl in L. congruence.
Qed.

Lemma determinate_run A (m : M A) r evs :
  determinate env self m -> run m = (r, evs) -> returns env self m r evs.
Proof.
  intros [r' [evs' H]] E. rewrite (returns_run H) in E.
  inversion E; subst. assumption.
Qed.

Lemma determinate_bind A B (m : M A) (f : A -> M B) :
  determinate env self m ->
  (forall a, determinate env self (f a)) ->
  determinate env self (bind m f).
Proof.
  intros [[a | e] [evs Hm]] Hf.
  - destruct (Hf a) as [r [evs' Hfa]]. exists r, (evs ++ evs').
    eapply returns_bind; eassumption.
  - exists (Raise e), evs. apply returns_bind_raise. assumption.
Qed.

(** [@lru_cache] on a property: the value of the body, from the cache or
    from the body. *)
Lemma returns_lru_cache c (body : M (CacheVal c)) r :
  c <> C_to_dict ->
  method env c self = lru_cache c (task_id self) body ->
  returns env self body r [] ->
  returns env self (lru_cache c (task_id self) body) r [].
Proof.
  intros Hc Hm Hbody.
  assert (Hrun : fst (run (method env c self)) = r).
  { rewrite Hm. unfold run, lru_cache. simpl.
    destruct (Hbody (set_cache c (lru_miss (caches init_state c)) init_state))
      as [s1 [E1 _]].
    - apply coherent_set; [apply coherent_init | discriminate].
    - simpl in E1. rewrite E1. destruct r; reflexivity. }
  intros s Hs. unfold lru_cache.
  destruct (lru_find (task_id self) (entries (caches s c))) as [v |] eqn:F.
  - pose proof (Hs c v Hc F) as Hv. rewrite Hrun in Hv. rewrite Hv in *.
    eexists. split; [reflexivity | split].
    + apply coherent_set; [assumption |].
      intros x _ Hx. rewrite lru_find_hit in Hx. inversion Hx; subst.
      assumption.
    + rewrite log_set_cache. symmetry. apply app_nil_r.
  - destruct (Hbody (set_cache c (lru_miss (caches s c)) s)) as [s1 [E1 [C1 L1]]].
    + apply coherent_set; [assumption |]. simpl. rewrite F. discriminate.
    + rewrite E1. destruct r as [v | e].
      * eexists. split; [reflexivity | split].
        -- apply coherent_set; [assumption |].
           intros x _ Hx. apply lru_find_store in Hx. destruct Hx as [-> | Hx].
           ++ exact Hrun.
           ++ exact (C1 c x Hc Hx).
        -- rewrite log_set_cache. assumption.
      * exists s1. auto.
Qed.

Lemma returns_obj_attr A (f : LpTask -> A) :
  returns env self (obj_attr self f) (obj_res self f) [].
Proof.
  unfold obj_attr, obj_res. destruct (obj self).
  - apply returns_ret.
  - apply returns_raise.
Qed.

End Returns.

(** ** Splitting and joining *)

Lemma split_on_nonempty sep s : split_on sep s <> [].
Proof.
  destruct s as [| c s]; simpl; [discriminate |].
  destruct (N.eqb c sep); [discriminate |].
  destruct (split_on sep s); discriminate.
Qed.

Lemma split_on_app sep a b :
  forallb (fun c => negb (N.eqb c sep)) a = true ->
  split_on sep (a ++ sep :: b) = a :: split_on sep b.
Proof.
  induction a as [| c a IH]; simpl; intros H.
  - rewrite N.eqb_refl. reflexivity.
  - apply andb_true_iff in H. destruct H as [Hc Ha].
    apply negb_true_iff in Hc. rewrite Hc, (IH Ha). reflexivity.
Qed.

Lemma remove_char_absent c s :
  forallb (fun x => negb (N.eqb x c)) s = true -> remove_char c s = s.
Proof.
  unfold remove_char. induction s as [| x s IH]; simpl; intros H; [reflexivity |].
  apply andb_true_iff in H. destruct H as [Hx Hs].
  rewrite Hx, (IH Hs). reflexivity.
Qed.

Lemma forallb_impl A (p q : A -> bool) l :
  (forall x, p x = true -> q x = true) ->
  forallb p l = true -> forallb q l = true.
Proof.
  intros H. rewrite !forallb_forall. auto.
Qed.

Lemma free_of_remove_char c s : free_of c (remove_char c s) = true.
Proof.
  unfold free_of, remove_char. apply forallb_forall. intros x Hx.
  apply filter_In in Hx. tauto.
Qed.

Lemma split_on_free sep s : free_of sep s = true -> split_on sep s = [s].
Proof.
  unfold free_of. induction s as [| c s IH]; simpl; intros H; [reflexivity |].
  apply andb_true_iff in H. destruct H as [Hc Hs].
  apply negb_true_iff in Hc. rewrite Hc, (IH Hs). reflexivity.
Qed.

Lemma split_ws_from_tokens : forall s cur,
  forallb (fun c => negb (is_space c)) cur = true ->
  Forall (fun tok => is_token tok = true) (split_ws_from cur s).
Proof.
  assert (Hrev : forall cur,
             cur <> [] ->
             forallb (fun c => negb (is_space c)) cur = true ->
             is_token (rev cur) = true).
  { intros cur Hne H. unfold is_token.
    destruct (rev cur) eqn:E.
    - apply (f_equal (@rev N)) in E. rewrite rev_involutive in E. contradiction.
    - rewrite <- E. apply forallb_forall. intros x Hx.
      apply in_rev in Hx. rewrite forallb_forall in H. auto. }
  induction s as [| c s IH]; intros cur Hcur; cbn [split_ws_from].
  - destruct cur as [| a cur]; [constructor |].
    constructor; [apply Hrev; [discriminate | exact Hcur] | constructor].
  - destruct (is_space c) eqn:Hc.
    + destruct cur as [| a cur]; [apply IH; reflexivity |].
      constructor; [apply Hrev; [discriminate | exact Hcur] | apply IH; reflexivity].
    + apply IH. cbn [forallb]. rewrite Hc. exact Hcur.
Qed.

Lemma split_ws_from_app tok : forall cur s,
  forallb (fun c => negb (is_space c)) tok = true ->
  split_ws_from cur (tok ++ s) = split_ws_from (rev tok ++ cur) s.
Proof.
  induction tok as [| c tok IH]; intros cur s H; [reflexivity |].
  cbn [forallb] in H. apply andb_true_iff in H. destruct H as [Hc Ht].
  apply negb_true_iff in Hc. cbn [app split_ws_from]. rewrite Hc.
  rewrite (IH _ _ Ht). cbn [rev]. rewrite <- app_assoc. reflexivity.
Qed.

Lemma is_token_free tok :
  is_token tok = true ->
  tok <> [] /\ forallb (fun c => negb (is_space c)) tok = true.
Proof.
  destruct tok; [discriminate |]. intros H. split; [discriminate | exact H].
Qed.

Lemma split_ws_join toks :
  Forall (fun tok => is_token tok = true) toks ->
  split_ws (join SPACE toks) = toks.
Proof.
  unfold split_ws. induction toks as [| tok toks IH]; intros H; [reflexivity |].
  inversion H as [| ? ? Htok Hrest]; subst.
  apply is_token_free in Htok. destruct Htok as [Hne Hfree].
  assert (Hr : rev tok <> []).
  { intros E. apply (f_equal (@rev N)) in E. rewrite rev_involutive in E.
    contradiction. }
  destruct toks as [| tok' toks'].
  - cbn [join]. rewrite <- (app_nil_r tok) at 1.
    rewrite split_ws_from_app by exact Hfree. rewrite app_nil_r.
    cbn [split_ws_from]. destruct (rev tok) eqn:E; [contradiction |].
    rewrite <- E, rev_involutive. reflexivity.
  - change (join SPACE (tok :: tok' :: toks'))
      with (tok ++ SPACE :: join SPACE (tok' :: toks')).
    rewrite split_ws_from_app by exact Hfree. rewrite app_nil_r.
    cbn [split_ws_from].
    change (is_space SPACE) with true. cbv iota.
    destruct (rev tok) eqn:E; [contradiction |].
    rewrite <- E, rev_involutive, (IH Hrest). reflexivity.
Qed.

(** ** The memoised properties *)

Section Properties.

Variable env : Env.
Variable self : Task.

Lemma title_returns : returns env self (title self) (obj_res self lp_title) [].
Proof.
  unfold title. apply returns_lru_cache with (c := C_title); [discriminate | reflexivity | apply returns_obj_attr].
Qed.

Lemma number_returns :
  returns env self (number self)
    (t <-- obj_res self lp_title ;; number_of_title t) [].
Proof.
  unfold number. apply returns_lru_cache with (c := C_number); [discriminate | reflexivity |].
  apply returns_bind_res; [apply title_returns |].
  intros t _. unfold number_of_title.
  apply returns_bind_res; [apply returns_lift |].
  intros tok _. apply returns_ret.
Qed.

Lemma src_returns :
  returns env self (src self) (t <-- obj_res self lp_title ;; src_of_title t) [].
Proof.
  unfold src. apply returns_lru_cache with (c := C_src); [discriminate | reflexivity |].
  apply returns_bind_res; [apply title_returns |].
  intros t _. apply returns_lift.
Qed.

Lemma tags_returns :
  returns env self (tags self) (obj_res self (fun o => bug_tags (lp_bug o))) [].
Proof.
  unfold tags. apply returns_lru_cache with (c := C_tags); [discriminate | reflexivity | apply returns_obj_attr].
Qed.

Lemma date_last_updated_returns :
  returns env self (date_last_updated self)
    (obj_res self (fun o => bug_date_last_updated (lp_bug o))) [].
Proof.
  unfold date_last_updated. apply returns_lru_cache with (c := C_date_last_updated); [discriminate | reflexivity | apply returns_obj_attr].
Qed.

Lemma short_title_returns :
  returns env self (short_title self)
    (link <-- obj_res self lp_target_resource_type_link ;;
     match start_field link with
     | None => Raise KeyError
     | Some start =>
         t <-- obj_res self lp_title ;;
         Ok (remove_char QUOTE (join SPACE (skipn start (split_on SPACE t))))
     end) [].
Proof.
  unfold short_title. apply returns_lru_cache with (c := C_short_title); [discriminate | reflexivity |].
  apply returns_bind_res; [apply returns_obj_attr |].
  intros link _. destruct (start_field link) as [start |].
  - apply returns_bind_res; [apply title_returns |].
    intros t _. apply returns_ret.
  - apply returns_raise.
Qed.

End Properties.

(** ** truncate_string *)

Lemma slice_to_nonneg s n : (0 <= n)%Z -> slice_to s n = firstn (Z.to_nat n) s.
Proof.
  intros H. unfold slice_to. destruct (Z.ltb_spec n 0); [lia | reflexivity].
Qed.

Lemma truncate_string_short s n :
  (0 <= n)%Z -> (len s <= n)%Z -> truncate_string s n = s.
Proof.
  intros H0 H. unfold truncate_string. cbv zeta.
  rewrite (@slice_to_nonneg s n H0).
  destruct (Z.gtb_spec (len s) n); [lia |].
  apply firstn_all2. unfold len in H. lia.
Qed.

Lemma truncate_string_long s n :
  (1 <= n)%Z -> (n < len s)%Z ->
  truncate_string s n = firstn (Z.to_nat (n - 1)) s ++ [ELLIPSIS].
Proof.
  intros H1 H. unfold truncate_string. cbv zeta.
  rewrite (@slice_to_nonneg s n) by lia.
  destruct (Z.gtb_spec (len s) n); [| lia].
  unfold slice_to. simpl (_ <? _)%Z. cbv iota.
  assert (L : len (firstn (Z.to_nat n) s) = n).
  { unfold len in *. rewrite length_firstn. lia. }
  rewrite L, firstn_firstn.
  replace (Init.Nat.min (Z.to_nat (n + -1)) (Z.to_nat n)) with (Z.to_nat (n - 1)) by lia.
  reflexivity.
Qed.

(** C7, counterexample. With length 0 a non-empty string is not cut to
    0 characters: [truncate_string("abc", 0)] is the one-character
    string made of the ellipsis. *)
Lemma truncate_string_length_zero :
  (0 < len (lit "abc"))%Z /\
  truncate_string (lit "abc") 0 = [ELLIPSIS] /\
  len (truncate_string (lit "abc") 0) <> 0%Z.
Proof.
  split; [reflexivity | split; [reflexivity | discriminate]].
Qed.

(** C7, amended. For every string [s] and every length [n >= 1]:
    [truncate_string s n] is [s] when [s] has at most [n] characters;
    otherwise it has exactly [n] characters, the last one is the
    ellipsis and the first [n - 1] are those of [s]. In particular
    [truncate_string("abcdefghij", 5) = "abcd…"] and
    [truncate_string("abc", 5) = "abc"]. *)
Theorem truncate_string_spec (s : pystr) (n : Z) :
  (1 <= n)%Z ->
  ((len s <= n)%Z -> truncate_string s n = s) /\
  ((n < len s)%Z ->
     len (truncate_string s n) = n /\
     last (truncate_string s n) 0%N = ELLIPSIS /\
     firstn (Z.to_nat (n - 1)) (truncate_string s n) = firstn (Z.to_nat (n - 1)) s) /\
  truncate_string (lit "abcdefghij") 5 = lit "abcd" ++ [ELLIPSIS] /\
  truncate_string (lit "abc") 5 = lit "abc".
Proof.
  intros Hn. split; [| split; [| split; reflexivity]].
  - intros H. apply truncate_string_short; lia.
  - intros H. rewrite truncate_string_long by assumption.
    assert (L : List.length (firstn (Z.to_nat (n - 1)) s) = Z.to_nat (n - 1)).
    { rewrite length_firstn. unfold len in H. lia. }
    split; [| split].
    + unfold len. rewrite length_app, L. simpl. lia.
    + apply last_last.
    + rewrite firstn_app, L, Nat.sub_diag, firstn_firstn, Nat.min_id.
      simpl. apply app_nil_r.
Qed.

Lemma truncate_string_spec_witness :
  len (truncate_string (lit "abcdefghij") 5) = 5%Z /\
  truncate_string (lit "abc") 5 = lit "abc".
Proof.
  destruct (@truncate_string_spec (lit "abcdefghij") 5 ltac:(lia)) as [_ [H _]].
  destruct (@truncate_string_spec (lit "abc") 5 ltac:(lia)) as [H' _].
  split.
  - apply H. reflexivity.
  - apply H'. vm_compute. discriminate.
Defined.

(** ** short_title *)

Lemma join_split_on sep s : join sep (split_on sep s) = s.
Proof.
  induction s as [| c s IH]; [reflexivity |].
  simpl. destruct (N.eqb_spec c sep) as [-> | Hne].
  - pose proof (split_on_nonempty sep s) as Hs.
    destruct (split_on sep s) as [| tok toks]; [congruence |].
    simpl in *. rewrite IH. reflexivity.
  - pose proof (split_on_nonempty sep s) as Hs.
    destruct (split_on sep s) as [| tok toks]; [congruence |].
    destruct toks; simpl in *; rewrite <- IH; reflexivity.
Qed.

Lemma split_on_join sep fields :
  fields <> [] ->
  Forall (fun f => free_of sep f = true) fields ->
  split_on sep (join sep fields) = fields.
Proof.
  induction fields as [| f fields IH]; intros Hne Hall; [congruence |].
  inversion Hall as [| ? ? Hf Hrest]; subst.
  destruct fields as [| f' fields'].
  - cbn [join]. apply split_on_free. exact Hf.
  - change (join sep (f :: f' :: fields'))
      with (f ++ sep :: join sep (f' :: fields')).
    rewrite split_on_app by exact Hf.
    rewrite IH; [reflexivity | discriminate | exact Hrest].
Qed.

Lemma split_on_fields sep : forall s,
  Forall (fun f => free_of sep f = true) (split_on sep s).
Proof.
  induction s as [| c s IH]; [repeat constructor |].
  cbn [split_on]. destruct (N.eqb c sep) eqn:Hc.
  - constructor; [reflexivity | exact IH].
  - pose proof (split_on_nonempty sep s) as Hs.
    destruct (split_on sep s) as [| tok toks]; [congruence |].
    inversion IH as [| ? ? Htok Htoks]; subst.
    constructor; [| exact Htoks].
    unfold free_of in *. cbn [forallb]. rewrite Hc, Htok. reflexivity.
Qed.

Lemma without_remove_char c s : without c s (remove_char c s).
Proof.
  unfold remove_char. induction s as [| x s IH]; [constructor |].
  cbn [filter]. destruct (N.eqb_spec x c) as [-> | Hne]; cbn [negb].
  - apply without_drop. exact IH.
  - apply without_keep; assumption.
Qed.

(** C8, counterexample. The tokens [short_title] drops are the fields
    that [split(' ')] makes, and two adjacent spaces delimit an empty
    field: with the title "A  B C D E F" (two spaces after "A") and a
    distribution source package, five fields are dropped, "A", "", "B",
    "C" and "D", and the result is "E F"; the title without its first
    five white-space delimited tokens is "F". On a task that targets
    none of the four resource types [short_title] raises [KeyError], and
    on a record without task it raises [AttributeError]. *)
Lemma short_title_counts_empty_fields :
  run (short_title
         (example_task 1%N (lit "focal")
            (example_lp_task example_spaced_title
               DISTRIBUTION_SOURCE_PACKAGE_RESOURCE_TYPE_LINK [])))
  = (Ok (lit "E F"), []) /\
  split_ws example_spaced_title
  = [lit "A"; lit "B"; lit "C"; lit "D"; lit "E"; lit "F"] /\
  join SPACE (skipn 5 (split_ws example_spaced_title)) = lit "F" /\
  lit "E F" <> lit "F" /\
  run (short_title example_team_record) = (Raise KeyError, []) /\
  (exists t, Task_init 1%N None = Ok t /\
             run (short_title t) = (Raise AttributeError, [])).
Proof.
  split; [vm_compute; reflexivity |].
  split; [vm_compute; reflexivity |].
  split; [vm_compute; reflexivity |].
  split; [discriminate |].
  split; [vm_compute; reflexivity |].
  eexists. split; [reflexivity | vm_compute; reflexivity].
Qed.

(** C8, amended. On a record whose task targets one of the four resource
    types, [short_title] is the title without its leading fields and
    without double quotes: the fields are those that [split(' ')] makes,
    separated by single spaces, so that they are the white-space
    delimited tokens of a title whose words are separated by single
    spaces; what is left is joined by single spaces again. 4 fields are
    dropped for a distribution, 5 for a distribution source package, 6
    for a source package and 7 for a project. With the title
    "A B C D E F" the result is "F" for a distribution source package and
    "E F" for a distribution. Every title is made of such fields. *)
Theorem short_title_drops_leading_tokens (env : Env) (self : Task) (o : LpTask)
  (start : nat) (fields : list pystr) :
  obj self = Some o ->
  start_field (lp_target_resource_type_link o) = Some start ->
  fields <> [] ->
  Forall (fun f => free_of SPACE f = true) fields ->
  lp_title o = join SPACE fields ->
  (exists v,
      returns env self (short_title self) (Ok v) [] /\
      without QUOTE (join SPACE (skipn start fields)) v /\
      free_of QUOTE v = true) /\
  (Forall (fun f => is_token f = true) fields ->
   split_ws (lp_title o) = fields) /\
  (forall t, exists fs,
      fs <> [] /\ Forall (fun f => free_of SPACE f = true) fs /\
      t = join SPACE fs) /\
  start_field DISTRIBUTION_RESOURCE_TYPE_LINK = Some 4 /\
  start_field DISTRIBUTION_SOURCE_PACKAGE_RESOURCE_TYPE_LINK = Some 5 /\
  start_field SOURCE_PACKAGE_RESOURCE_TYPE_LINK = Some 6 /\
  start_field PROJECT_RESOURCE_TYPE_LINK = Some 7 /\
  run (short_title
         (example_task 1%N (lit "focal")
            (example_lp_task (lit "A B C D E F")
               DISTRIBUTION_SOURCE_PACKAGE_RESOURCE_TYPE_LINK [])))
  = (Ok (lit "F"), []) /\
  run (short_title
         (example_task 1%N (lit "focal")
            (example_lp_task (lit "A B C D E F")
               DISTRIBUTION_RESOURCE_TYPE_LINK [])))
  = (Ok (lit "E F"), []) /\
  run (short_title
         (example_task 1%N (lit "focal")
            (example_lp_task example_quoted_title
               DISTRIBUTION_SOURCE_PACKAGE_RESOURCE_TYPE_LINK [])))
  = (Ok (lit "some words"), []).
Proof.
  intros Hobj Hstart Hne Hfree Htitle.
  split; [| split; [| split; [| repeat split; reflexivity]]].
  - pose proof (@short_title_returns env self) as H.
    unfold obj_res in H. rewrite Hobj in H. cbn [bindR] in H.
    rewrite Hstart in H. cbn [bindR] in H. rewrite Htitle in H.
    rewrite split_on_join in H by assumption.
    eexists. split; [exact H |]. split.
    + apply without_remove_char.
    + apply free_of_remove_char.
  - intros Htok. rewrite Htitle. apply split_ws_join. exact Htok.
  - intros t. exists (split_on SPACE t).
    split; [apply split_on_nonempty |].
    split; [apply split_on_fields | symmetry; apply join_split_on].
Qed.

Lemma short_title_drops_leading_tokens_witness :
  exists v,
    run (short_title
           (example_task 1%N (lit "focal")
              (example_lp_task example_quoted_title
                 DISTRIBUTION_SOURCE_PACKAGE_RESOURCE_TYPE_LINK [])))
    = (Ok v, []) /\
    without QUOTE (QUOTE :: lit "some words" ++ [QUOTE]) v /\
    free_of QUOTE v = true.
Proof.
  destruct (@short_title_drops_leading_tokens (example_env None)
              (example_task 1%N (lit "focal")
                 (example_lp_task example_quoted_title
                    DISTRIBUTION_SOURCE_PACKAGE_RESOURCE_TYPE_LINK []))
              (example_lp_task example_quoted_title
                 DISTRIBUTION_SOURCE_PACKAGE_RESOURCE_TYPE_LINK [])
              5%nat
              [lit "Bug"; lit "#12"; lit "in"; lit "pkg"; lit "(Ubuntu):";
               QUOTE :: lit "some"; lit "words" ++ [QUOTE]]
              eq_refl eq_refl ltac:(discriminate))
    as [[v [Hr [Hw Hf]]] _].
  - repeat (apply Forall_cons; [reflexivity |]). apply Forall_nil.
  - reflexivity.
  - exists v. split; [| split; [exact Hw | exact Hf]].
    apply returns_run in Hr. exact Hr.
Defined.

(** ** number *)

Lemma title_frame self s r s' :
  title self s = (r, s') ->
  log s' = log s /\ forall c, c <> C_title -> caches s' c = caches s c.
Proof.
  unfold title, lru_cache, obj_attr, ret, raise.
  destruct (lru_find (task_id self) (entries (caches s C_title))) as [t |].
  - intros E. inversion E; subst. split; [reflexivity |].
    intros c Hc. apply caches_set_other. congruence.
  - destruct (obj self) as [o |]; intros E; inversion E; subst;
      (split; [reflexivity |]);
      intros c Hc; repeat rewrite caches_set_other by congruence; reflexivity.
Qed.

(** What an access to [number] does to the cache of [number]. *)
Lemma number_cache_after self s :
  caches (snd (number self s)) C_number =
  match lru_find (task_id self) (entries (caches s C_number)) with
  | Some v => lru_hit (task_id self) v (caches s C_number)
  | None =>
      match fst (number self s) with
      | Ok v => lru_store (task_id self) v (lru_miss (caches s C_number))
      | Raise _ => lru_miss (caches s C_number)
      end
  end.
Proof.
  unfold number, lru_cache.
  destruct (lru_find (task_id self) (entries (caches s C_number))) as [v |].
  - reflexivity.
  - unfold bind at 1 3.
    destruct (title self (set_cache C_number (lru_miss (caches s C_number)) s))
      as [[t | e] s1] eqn:E; apply title_frame in E; destruct E as [_ E];
      specialize (E C_number ltac:(discriminate)); simpl in E.
    + unfold bind, lift, ret.
      destruct (get_item (split_on SPACE t) 1); simpl; rewrite E; reflexivity.
    + simpl. exact E.
Qed.

Lemma number_hit self s v :
  lru_find (task_id self) (entries (caches s C_number)) = Some v ->
  number self s =
  (Ok v, set_cache C_number (lru_hit (task_id self) v (caches s C_number)) s).
Proof.
  intros H. unfold number, lru_cache. rewrite H. reflexivity.
Qed.

Lemma recent_find V n k (v : V) c :
  recent n k v c -> lru_find k (entries c) = Some v.
Proof.
  unfold recent. generalize (entries c). intros l. revert n.
  induction l as [| [k' v'] l IH]; intros [| n]; simpl; try discriminate.
  destruct (N.eqb k k'); [auto | apply IH].
Qed.

Lemma recent_S V n k (v : V) c : recent n k v c -> recent (S n) k v c.
Proof.
  unfold recent. generalize (entries c). intros l. revert n.
  induction l as [| [k' v'] l IH]; intros [| n]; simpl; try discriminate.
  destruct (N.eqb k k'); [auto | apply IH].
Qed.

Lemma lru_find_remove V n k k' (v : V) l :
  k <> k' ->
  lru_find k (firstn n l) = Some v ->
  lru_find k (firstn n (lru_remove k' l)) = Some v.
Proof.
  intros Hk. revert n.
  induction l as [| [a va] l IH]; intros [| n]; simpl; try discriminate.
  destruct (N.eqb_spec k a) as [-> | Hka].
  - intros H. destruct (N.eqb_spec k' a) as [-> | _]; [congruence |].
    simpl. rewrite N.eqb_refl. assumption.
  - intros H. destruct (N.eqb_spec k' a) as [-> | Hk'a]; simpl.
    + apply IH in H. revert H. generalize (lru_remove a l). intros l'.
      generalize n. clear. induction l' as [| [b vb] l' IH]; intros [| n];
        simpl; try discriminate.
      destruct (N.eqb k b); [auto | apply IH].
    + destruct (N.eqb_spec k a); [congruence |]. apply IH. assumption.
Qed.

Lemma recent_hit V n k k' (v v' : V) c :
  k <> k' -> recent n k v c -> recent (S n) k v (lru_hit k' v' c).
Proof.
  intros Hk H. unfold recent, lru_hit. cbn [entries].
  rewrite firstn_cons. cbn [lru_find].
  destruct (N.eqb_spec k k'); [congruence |].
  apply lru_find_remove; assumption.
Qed.

Lemma recent_store V n k k' (v v' : V) c :
  k <> k' -> (n <= 127)%nat ->
  recent n k v c -> recent (S n) k v (lru_store k' v' (lru_miss c)).
Proof.
  intros Hk Hn H. unfold lru_store.
  destruct (lru_find k' (entries (lru_miss c))).
  - apply recent_S. exact H.
  - unfold recent. cbn [entries lru_miss].
    rewrite firstn_cons. cbn [lru_find].
    destruct (N.eqb_spec k k'); [congruence |].
    rewrite firstn_firstn.
    replace (Init.Nat.min n (maxsize - 1)) with n by (unfold maxsize; lia).
    exact H.
Qed.

(** An access on another record moves the entry one place down the
    recency order at most; the 128 most recent entries are kept. *)
Lemma recent_after_other self other s n v :
  task_id other <> task_id self ->
  (n <= 127)%nat ->
  recent n (task_id self) v (caches s C_number) ->
  recent (S n) (task_id self) v (caches (snd (number other s)) C_number).
Proof.
  intros Hid Hn H. rewrite number_cache_after.
  destruct (lru_find (task_id other) (entries (caches s C_number))) as [v' |].
  - apply recent_hit; [congruence | assumption].
  - destruct (fst (number other s)).
    + apply recent_store; [congruence | assumption | assumption].
    + apply recent_S. exact H.
Qed.

Lemma recent_after_others self others : forall s n v,
  Forall (fun other => task_id other <> task_id self) others ->
  (n + List.length others <= 128)%nat ->
  recent n (task_id self) v (caches s C_number) ->
  recent (n + List.length others) (task_id self) v
    (caches (read_numbers others s) C_number).
Proof.
  induction others as [| other others IH]; intros s n v Hall Hlen H; simpl.
  - rewrite Nat.add_0_r. assumption.
  - inversion Hall; subst. simpl in Hlen.
    replace (n + S (List.length others))%nat with (S n + List.length others)%nat
      by lia.
    apply IH; [assumption | lia |].
    apply recent_after_other; [assumption | lia | assumption].
Qed.

Lemma recent_hit_same V k (v : V) c : recent 1 k v (lru_hit k v c).
Proof.
  unfold recent, lru_hit. cbn [entries]. rewrite firstn_cons. cbn [lru_find].
  rewrite N.eqb_refl. reflexivity.
Qed.

Lemma recent_store_same V k (v : V) c :
  lru_find k (entries c) = None -> recent 1 k v (lru_store k v (lru_miss c)).
Proof.
  intros F. unfold recent, lru_store. cbn [entries lru_miss]. rewrite F.
  cbn [entries]. rewrite firstn_cons. cbn [lru_find].
  rewrite N.eqb_refl. reflexivity.
Qed.

Lemma recent_after_number self s v s1 :
  number self s = (Ok v, s1) -> recent 1 (task_id self) v (caches s1 C_number).
Proof.
  intros E. pose proof (number_cache_after self s) as H.
  rewrite E in H. cbn [fst snd] in H. rewrite H.
  destruct (lru_find (task_id self) (entries (caches s C_number))) as [v' |] eqn:F.
  - pose proof (number_hit self s F) as E'. rewrite E' in E.
    inversion E; subst. apply recent_hit_same.
  - apply recent_store_same. exact F.
Qed.

Lemma number_of_bug_title digits rest :
  forallb is_digit digits = true ->
  number_of_title (lit "Bug #" ++ digits ++ SPACE :: rest) = Ok digits.
Proof.
  intros Hd. unfold number_of_title.
  change (lit "Bug #" ++ digits ++ SPACE :: rest)
    with (lit "Bug" ++ SPACE :: (HASH :: digits) ++ SPACE :: rest).
  rewrite split_on_app by reflexivity.
  rewrite split_on_app.
  - simpl. rewrite remove_char_absent; [reflexivity |].
    revert Hd. apply forallb_impl. intros x. unfold is_digit, HASH.
    rewrite andb_true_iff, !N.leb_le, negb_true_iff, N.eqb_neq. lia.
  - simpl. revert Hd. apply forallb_impl. intros x. unfold is_digit, SPACE.
    rewrite andb_true_iff, !N.leb_le, negb_true_iff, N.eqb_neq. lia.
Qed.

(** C9, counterexample. The cache of [number] is an LRU cache of 128
    entries shared by all records: after [number] was read on 128 other
    records, the entry of the first record is gone and its next access
    runs the body again (one more miss), with the same value. *)
Lemma number_recomputed_after_eviction :
  let self := numbered_task 0 in
  let others := map numbered_task (ids_upto 128) in
  let s1 := snd (number self init_state) in
  let s2 := read_numbers others s1 in
  fst (number self init_state) = Ok (lit "000") /\
  lru_find (task_id self) (entries (caches s1 C_number)) = Some (lit "000") /\
  lru_find (task_id self) (entries (caches s2 C_number)) = None /\
  fst (number self s2) = Ok (lit "000") /\
  misses (caches (snd (number self s2)) C_number)
  = (misses (caches s2 C_number) + 1)%N.
Proof.
  cbv zeta. vm_compute. repeat split; reflexivity.
Qed.

(** C9, amended. For a record whose title is "Bug #<N> in <pkg> ...",
    [number] is the digits [N] that follow '#' (the second token of the
    title without '#'), from every state of the caches. After an access
    that returned [v], an access made after at most 127 accesses to
    [number] on other records returns [v] from the cache: the body does
    not run (the state changes by a cache hit only, no miss is counted). *)
Theorem number_from_title_cached (env : Env) (self : Task) :
  (forall o digits rest,
      obj self = Some o ->
      lp_title o = lit "Bug #" ++ digits ++ SPACE :: rest ->
      forallb is_digit digits = true ->
      returns env self (number self) (Ok digits) []) /\
  (forall s v s1 others,
      number self s = (Ok v, s1) ->
      Forall (fun other => task_id other <> task_id self) others ->
      (List.length others <= 127)%nat ->
      let s2 := read_numbers others s1 in
      number self s2
      = (Ok v, set_cache C_number (lru_hit (task_id self) v (caches s2 C_number)) s2) /\
      misses (caches (snd (number self s2)) C_number) = misses (caches s2 C_number)).
Proof.
  split.
  - intros o digits rest Hobj Htitle Hd.
    pose proof (@number_returns env self) as H.
    unfold obj_res in H. rewrite Hobj in H. cbn [bindR] in H.
    rewrite Htitle, (@number_of_bug_title digits rest Hd) in H. exact H.
  - intros s v s1 others E Hall Hlen s2.
    assert (F : lru_find (task_id self) (entries (caches s2 C_number)) = Some v).
    { apply recent_find with (n := (1 + List.length others)%nat).
      apply recent_after_others; [assumption | lia |].
      apply recent_after_number with (s := s). assumption. }
    rewrite (number_hit self s2 F). split; reflexivity.
Qed.

Lemma number_from_title_cached_witness :
  run (number (numbered_task 7)) = (Ok (lit "007"), []) /\
  fst (number (numbered_task 7)
         (read_numbers [numbered_task 8]
            (snd (number (numbered_task 7) init_state))))
  = Ok (lit "007").
Proof.
  pose (env0 := {| AGE := None; OLD := None; LP := None;
                   NOWORK_BUG_STATUSES := []; OPEN_BUG_STATUSES := [];
                   changes_bugs_fixed := fun _ => Ok None;
                   unicode_upper := fun c => [c] |}).
  destruct (number_from_title_cached env0 (numbered_task 7)) as [H1 H2].
  split.
  - apply (@returns_run env0 (numbered_task 7)).
    apply (H1 (example_lp_task
                 (lit "Bug #007 in pkg (Ubuntu): summary")
                 DISTRIBUTION_SOURCE_PACKAGE_RESOURCE_TYPE_LINK [])
              (lit "007") (lit "in pkg (Ubuntu): summary"));
      reflexivity.
  - destruct (H2 init_state (lit "007")
                (snd (number (numbered_task 7) init_state))
                [numbered_task 8]) as [E _].
    + reflexivity.
    + repeat constructor. discriminate.
    + simpl. lia.
    + cbv zeta in E. rewrite E. reflexivity.
Defined.

(** ** _is_in_unapproved *)

Section Unapproved.

Variable env : Env.
Variable self : Task.

Lemma returns_except_caught A (m : M A) msg evs :
  returns env self m (Raise (RuntimeError msg)) evs ->
  returns env self (except_RuntimeError m) (Ok None) evs.
Proof.
  intros H s Hs. destruct (H s Hs) as [s' [E HH]].
  exists s'. unfold except_RuntimeError. rewrite E. exact (conj eq_refl HH).
Qed.

Lemma returns_except_ok A (m : M A) a evs :
  returns env self m (Ok a) evs ->
  returns env self (except_RuntimeError m) (Ok (Some a)) evs.
Proof.
  intros H s Hs. destruct (H s Hs) as [s' [E HH]].
  exists s'. unfold except_RuntimeError. rewrite E. exact (conj eq_refl HH).
Qed.

Lemma returns_emit_then A (m : M A) e r evs :
  returns env self m r evs ->
  returns env self (emit e ;; m) r (e :: evs).
Proof.
  intros H. change (e :: evs) with ([e] ++ evs).
  eapply returns_bind; [apply returns_emit | exact H].
Qed.

Lemma get_upload_source_urls_returns upload :
  exists evs, returns env self (get_upload_source_urls upload) (resolution upload) evs.
Proof.
  unfold get_upload_source_urls, resolution.
  destruct (contains_source upload).
  { eexists. apply returns_emit_then, returns_ret. }
  destruct (contains_copy upload).
  2: { eexists. apply returns_raise. }
  destruct (copy_source_archive_probe upload) as [e |].
  - eexists. apply returns_emit_then. destruct e; apply returns_raise.
  - destruct (published_sources upload).
    + eexists. apply returns_emit_then, returns_emit_then, returns_raise.
    + eexists. apply returns_emit_then, returns_emit_then, returns_emit_then,
        returns_ret.
Qed.

Lemma find_changes_bugs_returns u :
  returns env self (find_changes_bugs env u)
    (changes <-- changes_bugs_fixed env u ;;
     Ok (match changes with
         | Some bugs_str => split_ws bugs_str
         | None => []
         end)) [EvUrlopen u].
Proof.
  unfold find_changes_bugs. apply returns_emit_then.
  destruct (changes_bugs_fixed env u) as [[bugs_str |] | e]; cbn [bindR].
  - change (@nil Event) with (@nil Event ++ []).
    eapply returns_bind; [apply returns_lift | apply returns_ret].
  - change (@nil Event) with (@nil Event ++ []).
    eapply returns_bind; [apply returns_lift | apply returns_ret].
  - apply returns_bind_raise, returns_lift.
Qed.

Lemma get_upload_source_urls_result upload s :
  fst (get_upload_source_urls upload s) = resolution upload.
Proof.
  unfold get_upload_source_urls, resolution, bind, emit, ret, raise.
  destruct (contains_source upload); [reflexivity |].
  destruct (contains_copy upload); [| reflexivity].
  destruct (copy_source_archive_probe upload) as [[] |]; try reflexivity.
  destruct (published_sources upload); reflexivity.
Qed.

(** The scan goes on after an upload it skips. *)
Lemma scan_uploads_skip upload rest s :
  skipped upload = true ->
  resolution_escapes upload = false ->
  scan_uploads env self (upload :: rest) s
  = scan_uploads env self rest (snd (get_upload_source_urls upload s)).
Proof.
  intros Hskip Hesc.
  pose proof (get_upload_source_urls_result upload s) as R.
  cbn [scan_uploads]. unfold bind at 1, except_RuntimeError.
  unfold skipped, resolution_fails in Hskip. unfold resolution_escapes in Hesc.
  destruct (get_upload_source_urls upload s) as [r s'].
  cbn [fst snd] in *. rewrite <- R in Hskip, Hesc.
  destruct r as [urls | []]; try discriminate; try reflexivity.
  simpl in Hskip. rewrite Hskip. reflexivity.
Qed.

Lemma lists_bug_url num upload changes :
  truthy_str (changes_file_url upload) = true ->
  changes_bugs_fixed env
    (match changes_file_url upload with Some u => u | None => [] end)
  = Ok changes ->
  lists_bug env num upload
  = str_in num
      (match changes with
       | Some bugs_str => split_ws bugs_str
       | None => []
       end).
Proof.
  unfold lists_bug. destruct (changes_file_url upload) as [u |]; [| discriminate].
  intros _ E. rewrite E. destruct changes; reflexivity.
Qed.

(** An upload on which the scan does not end with an exception: its
    resolution returns or raises [RuntimeError], and its changes file
    loads when the scan opens it. *)
Lemma scan_escapes_false upload :
  scan_escapes env upload = false ->
  resolution_escapes upload = false /\
  (skipped upload = false ->
   exists changes,
     changes_bugs_fixed env
       (match changes_file_url upload with Some u => u | None => [] end)
     = Ok changes).
Proof.
  unfold scan_escapes. intros H. apply orb_false_iff in H. destruct H as [H1 H2].
  split; [exact H1 |]. intros Hskip. rewrite Hskip in H2. cbn [negb andb] in H2.
  unfold changes_unreadable in H2. unfold skipped in Hskip.
  apply orb_false_iff in Hskip. destruct Hskip as [_ Hurl].
  destruct (changes_file_url upload) as [u |]; [| discriminate Hurl].
  destruct (changes_bugs_fixed env u) as [changes | e]; [| discriminate H2].
  exists changes. reflexivity.
Qed.

Lemma scan_uploads_returns num : forall uploads,
  returns env self (number self) (Ok num) [] ->
  Forall (fun upload => scan_escapes env upload = false) uploads ->
  exists evs,
    returns env self (scan_uploads env self uploads)
      (Ok (Some (existsb (lists_bug env num)
                   (filter (fun upload => negb (skipped upload)) uploads))))
      evs.
Proof.
  intros uploads Hnum. induction uploads as [| upload rest IH]; intros Hall.
  - eexists. apply returns_ret.
  - inversion Hall as [| ? ? Hesc0 Hrest]; subst.
    destruct (scan_escapes_false upload Hesc0) as [Hesc Hload].
    destruct (IH Hrest) as [evs_rest Hscan].
    destruct (get_upload_source_urls_returns upload) as [evs_u Hres].
    cbn [scan_uploads filter]. unfold skipped in Hload |- *.
    unfold resolution_fails in Hload |- *.
    unfold resolution_escapes in Hesc.
    destruct (resolution upload) as [urls | e].
    + apply returns_except_ok in Hres. cbn [orb] in Hload |- *.
      destruct (truthy_str (changes_file_url upload)) eqn:Hurl;
        cbn [negb] in Hload |- *.
      * cbn [existsb]. destruct (Hload eq_refl) as [changes Hchanges].
        rewrite (lists_bug_url num upload Hurl Hchanges).
        pose proof (find_changes_bugs_returns
                      (match changes_file_url upload with
                       | Some u => u
                       | None => []
                       end)) as Hbugs.
        rewrite Hchanges in Hbugs. cbn [bindR] in Hbugs.
        destruct (str_in num _) eqn:Hin.
        -- eexists. eapply returns_bind; [exact Hres |]. cbn beta iota.
           eapply returns_bind; [exact Hbugs |].
           eapply returns_bind; [exact Hnum |]. cbn beta. rewrite Hin.
           apply returns_ret.
        -- eexists. eapply returns_bind; [exact Hres |]. cbn beta iota.
           eapply returns_bind; [exact Hbugs |].
           eapply returns_bind; [exact Hnum |]. cbn beta. rewrite Hin.
           exact Hscan.
      * eexists. eapply returns_bind; [exact Hres |]. exact Hscan.
    + destruct e; try discriminate.
      apply returns_except_caught in Hres. cbn [orb negb].
      eexists. eapply returns_bind; [exact Hres |]. exact Hscan.
Qed.

Lemma is_in_unapproved_guard lp s :
  LP env = Some lp ->
  truthy_str (series self) = false \/ series self = Some (lit "-devel") ->
  _is_in_unapproved env self s
  = (Ok None,
     {| caches := caches s; log := log s ++ [EvDistributions (lit "ubuntu")] |}).
Proof.
  intros Hlp Hguard. unfold _is_in_unapproved. rewrite Hlp.
  unfold bind at 1, emit. 
  destruct Hguard as [H | H]; rewrite H; reflexivity.
Qed.

Lemma is_in_unapproved_returns lp o sname name num :
  LP env = Some lp ->
  obj self = Some o ->
  series self = Some sname ->
  sname <> [] ->
  sname <> lit "-devel" ->
  src_of_title (lp_title o) = Ok name ->
  number_of_title (lp_title o) = Ok num ->
  Forall (fun upload => scan_escapes env upload = false)
    (unapproved_uploads lp sname name) ->
  exists evs,
    returns env self (_is_in_unapproved env self)
      (Ok (Some (existsb (lists_bug env num)
                   (filter (fun upload => negb (skipped upload))
                      (unapproved_uploads lp sname name)))))
      evs.
Proof.
  intros Hlp Hobj Hseries Hne Hdevel Hsrc Hnum Hall.
  assert (Hn : returns env self (number self) (Ok num) []).
  { pose proof (@number_returns env self) as H. unfold obj_res in H.
    rewrite Hobj in H. cbn [bindR] in H. rewrite Hnum in H. exact H. }
  assert (Hs : returns env self (src self) (Ok name) []).
  { pose proof (@src_returns env self) as H. unfold obj_res in H.
    rewrite Hobj in H. cbn [bindR] in H. rewrite Hsrc in H. exact H. }
  destruct (@scan_uploads_returns num (unapproved_uploads lp sname name) Hn Hall)
    as [evs Hscan].
  unfold _is_in_unapproved. rewrite Hlp, Hseries.
  destruct sname as [| c sname']; [congruence |].
  cbn [truthy_str negb orb].
  destruct (str_eqb_spec (c :: sname') (lit "-devel")) as [E | _]; [congruence |].
  eexists. apply returns_emit_then, returns_emit_then.
  eapply returns_bind; [exact Hs |]. apply returns_emit_then. exact Hscan.
Qed.

End Unapproved.

(** C2, counterexample. On a record of the devel series the check
    returns [None], but only after it looked the ubuntu distribution up
    on the session, which is the first statement of the method: the log
    of calls is not empty. Without a session the method raises
    [AttributeError] there. *)
Lemma is_in_unapproved_devel_uses_session :
  let self := example_task 1%N (lit "-devel")
                (example_lp_task (lit "Bug #12 in pkg (Ubuntu): summary")
                   DISTRIBUTION_SOURCE_PACKAGE_RESOURCE_TYPE_LINK []) in
  run (_is_in_unapproved (example_env (Some no_uploads)) self)
  = (Ok None, [EvDistributions (lit "ubuntu")]) /\
  snd (run (_is_in_unapproved (example_env (Some no_uploads)) self)) <> [] /\
  run (_is_in_unapproved (example_env None) self) = (Raise AttributeError, []).
Proof.
  cbv zeta. split; [reflexivity | split; [discriminate | reflexivity]].
Qed.

(** C2, amended. With a session set, on a record whose series is empty,
    absent or "-devel", [_is_in_unapproved] returns [None] (not [False])
    after one access to the session, the lookup of the ubuntu
    distribution: it looks no series up, queries no upload queue, opens
    no changes file and reads no cache. *)
Theorem is_in_unapproved_devel_is_none (env : Env) (self : Task)
  (lp : Launchpad) (s : State) :
  LP env = Some lp ->
  truthy_str (series self) = false \/ series self = Some (lit "-devel") ->
  _is_in_unapproved env self s
  = (Ok None,
     {| caches := caches s; log := log s ++ [EvDistributions (lit "ubuntu")] |}) /\
  @Ok (option bool) None <> Ok (Some false).
Proof.
  intros Hlp Hguard. split; [| discriminate].
  apply is_in_unapproved_guard with (lp := lp); assumption.
Qed.

Lemma is_in_unapproved_devel_is_none_witness :
  fst (_is_in_unapproved (example_env (Some no_uploads))
         (example_task 1%N (lit "-devel")
            (example_lp_task (lit "Bug #12 in pkg (Ubuntu): summary")
               DISTRIBUTION_SOURCE_PACKAGE_RESOURCE_TYPE_LINK []))
         init_state)
  = Ok None.
Proof.
  destruct (@is_in_unapproved_devel_is_none (example_env (Some no_uploads))
              (example_task 1%N (lit "-devel")
                 (example_lp_task (lit "Bug #12 in pkg (Ubuntu): summary")
                    DISTRIBUTION_SOURCE_PACKAGE_RESOURCE_TYPE_LINK []))
              no_uploads init_state eq_refl (or_intror eq_refl)) as [E _].
  rewrite E. reflexivity.
Defined.

(** C5, counterexample. The record is bug 12 of pkg in focal. In the
    first queue a copy upload whose archive has no published source of
    its name and version comes before a source upload whose changes file
    lists bug 12: the resolution of the copy ends with [StopIteration],
    which is not the [RuntimeError] the scan catches, so the method
    raises; it neither skips the copy nor returns [True], although an
    upload that is not skipped lists the number of the record. In the
    second queue the changes file of the first upload cannot be opened:
    the method raises what [urlopen] raised, with the same matching
    upload behind. *)
Lemma unapproved_scan_raises :
  number_of_title (lit "Bug #12 in pkg (Ubuntu): summary") = Ok (lit "12") /\
  skipped example_matching_upload = false /\
  (let env := example_env_of [example_unpublished_copy; example_matching_upload] in
   lists_bug env (lit "12") example_matching_upload = true /\
   fst (run (_is_in_unapproved env example_record)) = Raise StopIteration /\
   fst (run (_is_in_unapproved env example_record)) <> Ok (Some true)) /\
  (let env := example_env_of [example_unreadable_upload; example_matching_upload] in
   lists_bug env (lit "12") example_matching_upload = true /\
   fst (run (_is_in_unapproved env example_record)) = Raise ValueError /\
   fst (run (_is_in_unapproved env example_record)) <> Ok (Some true)).
Proof.
  cbv zeta.
  repeat split; try (vm_compute; reflexivity); vm_compute; discriminate.
Qed.

(** C5, amended. When the scan of the unapproved queue runs (a session
    is set, the series of the record is neither empty nor "-devel", and
    its title gives the package and the number), an upload is skipped,
    and the scan goes on with the uploads that follow, when
    [get_upload_source_urls] raises [RuntimeError] for it (it is neither
    a source nor a copy, or the probe of its copy source archive raises
    [ValueError]) or when, its source URLs resolved, it has no changes
    file URL. For a queue in which no resolution ends with another
    exception and the changes file of every upload that is not skipped
    loads, [_is_in_unapproved] returns [True] if and only if the changes
    file of some upload that was not skipped lists the number of the
    record, and [False] otherwise, all uploads seen. *)
Theorem unapproved_scan_skips_and_matches (env : Env) (self : Task)
  (lp : Launchpad) (o : LpTask) (sname name num : pystr) :
  LP env = Some lp ->
  obj self = Some o ->
  series self = Some sname ->
  sname <> [] ->
  sname <> lit "-devel" ->
  src_of_title (lp_title o) = Ok name ->
  number_of_title (lp_title o) = Ok num ->
  (forall upload,
      contains_source upload = false ->
      contains_copy upload = false \/
      copy_source_archive_probe upload = Some ValueError ->
      resolution_fails upload = true /\ skipped upload = true /\
      resolution_escapes upload = false) /\
  (forall upload,
      truthy_str (changes_file_url upload) = false -> skipped upload = true) /\
  (forall upload rest s,
      skipped upload = true ->
      resolution_escapes upload = false ->
      scan_uploads env self (upload :: rest) s
      = scan_uploads env self rest (snd (get_upload_source_urls upload s))) /\
  (Forall (fun upload => scan_escapes env upload = false)
     (unapproved_uploads lp sname name) ->
   exists b evs,
     returns env self (_is_in_unapproved env self) (Ok (Some b)) evs /\
     (b = true <->
      exists upload,
        In upload (unapproved_uploads lp sname name) /\
        skipped upload = false /\ lists_bug env num upload = true)).
Proof.
  intros Hlp Hobj Hseries Hne Hdevel Hsrc Hnum.
  split; [| split; [| split]].
  - intros upload Hsource Hcase.
    unfold skipped, resolution_fails, resolution_escapes, resolution.
    rewrite Hsource.
    destruct Hcase as [Hcopy | Hprobe].
    + rewrite Hcopy. auto.
    + rewrite Hprobe. destruct (contains_copy upload); auto.
  - intros upload H. unfold skipped. rewrite H. apply orb_true_r.
  - intros upload rest s. apply scan_uploads_skip.
  - intros Hall.
    destruct (@is_in_unapproved_returns env self lp o sname name num
                Hlp Hobj Hseries Hne Hdevel Hsrc Hnum Hall) as [evs H].
    eexists. exists evs. split; [exact H |].
    rewrite existsb_exists. split.
    + intros [upload [Hin Hbug]]. apply filter_In in Hin.
      destruct Hin as [Hin Hskip]. apply negb_true_iff in Hskip.
      exists upload. auto.
    + intros [upload [Hin [Hskip Hbug]]]. exists upload.
      split; [| assumption]. apply filter_In. rewrite Hskip. auto.
Qed.

Lemma unapproved_scan_skips_and_matches_witness :
  fst (run (_is_in_unapproved example_queue_env
              (example_task 1%N (lit "focal")
                 (example_lp_task (lit "Bug #12 in pkg (Ubuntu): summary")
                    DISTRIBUTION_SOURCE_PACKAGE_RESOURCE_TYPE_LINK []))))
  = Ok (Some true).
Proof.
  pose (self := example_task 1%N (lit "focal")
                  (example_lp_task (lit "Bug #12 in pkg (Ubuntu): summary")
                     DISTRIBUTION_SOURCE_PACKAGE_RESOURCE_TYPE_LINK [])).
  destruct (@unapproved_scan_skips_and_matches example_queue_env self
              example_session
              (example_lp_task (lit "Bug #12 in pkg (Ubuntu): summary")
                 DISTRIBUTION_SOURCE_PACKAGE_RESOURCE_TYPE_LINK [])
              (lit "focal") (lit "pkg") (lit "12")
              eq_refl eq_refl eq_refl ltac:(discriminate) ltac:(discriminate)
              eq_refl eq_refl) as [_ [_ [_ H]]].
  destruct H as [b [evs [H Hb]]].
  - repeat (apply Forall_cons; [reflexivity |]). apply Forall_nil.
  - apply returns_run in H. fold self. rewrite H. cbn [fst].
    replace b with true; [reflexivity |]. symmetry. apply Hb.
    exists (example_upload "source" true false None (Some (lit "changes"))).
    split; [| split; reflexivity].
    right. right. right. left. reflexivity.
Defined.

(** ** Dicts *)

Lemma dict_get_set_same V k (v : V) d : dict_get k (dict_set k v d) = Some v.
Proof.
  induction d as [| [k' v'] d IH]; simpl.
  - rewrite str_eqb_refl. reflexivity.
  - destruct (str_eqb k k') eqn:E; simpl; rewrite E; [reflexivity | exact IH].
Qed.

Lemma dict_get_set_other V k k' (v : V) d :
  k <> k' -> dict_get k (dict_set k' v d) = dict_get k d.
Proof.
  intros Hk. induction d as [| [k'' v''] d IH]; simpl.
  - destruct (str_eqb_spec k k'); [congruence | reflexivity].
  - destruct (str_eqb_spec k' k'') as [<- | Hne]; simpl.
    + destruct (str_eqb_spec k k'); [congruence | reflexivity].
    + destruct (str_eqb k k''); [reflexivity | exact IH].
Qed.

Lemma dict_keys_set V k (v : V) d :
  dict_keys (dict_set k v d)
  = if str_in k (dict_keys d) then dict_keys d else dict_keys d ++ [k].
Proof.
  unfold dict_keys, str_in. induction d as [| [k' v'] d IH]; simpl; [reflexivity |].
  destruct (str_eqb k k'); simpl; [reflexivity |].
  rewrite IH. destruct (existsb (str_eqb k) (map fst d)); reflexivity.
Qed.

Lemma find_last_cons A (p : A -> bool) x l :
  find_last p (x :: l)
  = match find_last p l with
    | Some y => Some y
    | None => if p x then Some x else None
    end.
Proof.
  unfold find_last. simpl. generalize (rev l). intros r.
  induction r as [| y r IH]; simpl; [reflexivity |].
  destruct (p y); [reflexivity | exact IH].
Qed.

(** After a run of assignments a key holds the last value assigned to
    it, and the keys stand in the order of their first assignment. *)
Lemma dict_get_fold_insert k : forall l d,
  dict_get k (fold_left insert_sibling l d)
  = match find_last (fun e => str_eqb (sibling_series e) k) l with
    | Some e => Some e
    | None => dict_get k d
    end.
Proof.
  induction l as [| e l IH]; intros d; [reflexivity |].
  simpl. rewrite IH, find_last_cons.
  destruct (find_last (fun e0 => str_eqb (sibling_series e0) k) l); [reflexivity |].
  unfold insert_sibling.
  destruct (str_eqb_spec (sibling_series e) k) as [<- | Hne].
  - apply dict_get_set_same.
  - apply dict_get_set_other. congruence.
Qed.

Lemma dict_keys_fold_insert : forall l d,
  dict_keys (fold_left insert_sibling l d)
  = dict_keys d ++ first_occurrences (dict_keys d) (map sibling_series l).
Proof.
  induction l as [| e l IH]; intros d; simpl.
  - symmetry. apply app_nil_r.
  - rewrite IH. unfold insert_sibling. rewrite dict_keys_set.
    destruct (str_in (sibling_series e) (dict_keys d)); [reflexivity |].
    rewrite <- app_assoc. reflexivity.
Qed.

(** ** _sibling_tasks *)

Section Siblings.

Variable env : Env.
Variable self : Task.
Variable name : pystr.
Hypothesis src_name : returns env self (src self) (Ok name) [].

Lemma sibling_loop_returns : forall tasks d,
  Forall (fun e => (6 <= List.length (path_elements e))%nat) tasks ->
  returns env self (sibling_loop self tasks d)
    (Ok (fold_left insert_sibling (filter (is_sibling name) tasks) d)) [].
Proof.
  induction tasks as [| e tasks IH]; intros d Hall.
  - apply returns_ret.
  - inversion Hall as [| ? ? Hlen Hrest]; subst.
    cbn [sibling_loop filter]. unfold is_sibling, insert_sibling, sibling_series.
    fold (path_elements e).
    destruct (index (path_elements e) 4) as [e4 |] eqn:E4.
    2: { apply nth_error_None in E4. lia. }
    destruct (index (path_elements e) 5) as [e5 |] eqn:E5.
    2: { apply nth_error_None in E5. lia. }
    destruct (index_from_end (path_elements e) 3) as [e3 |] eqn:E3.
    2: { unfold index_from_end in E3.
         destruct (Nat.ltb_spec (List.length (path_elements e)) 3); [lia |].
         apply nth_error_None in E3. lia. }
    change (@nil Event) with (@nil Event ++ []).
    eapply returns_bind.
    { unfold get_item. rewrite E4. apply returns_lift. }
    destruct (str_eqb e4 (lit "ubuntu")); cbn [negb andb].
    2: { apply IH. assumption. }
    change (@nil Event) with (@nil Event ++ []).
    eapply returns_bind.
    { unfold get_item_from_end. rewrite E3. apply returns_lift. }
    change (@nil Event) with (@nil Event ++ []).
    eapply returns_bind; [exact src_name |].
    destruct (str_eqb e3 name); cbn [negb].
    2: { apply IH. assumption. }
    change (@nil Event) with (@nil Event ++ []).
    eapply returns_bind.
    { unfold get_item. rewrite E5. apply returns_lift. }
    cbn [fold_left]. unfold insert_sibling, sibling_series.
    fold (path_elements e). rewrite E5. apply IH. assumption.
Qed.

End Siblings.

Lemma find_last_some A (p : A -> bool) l x :
  find_last p l = Some x -> In x l /\ p x = true.
Proof.
  unfold find_last. intros H. apply find_some in H.
  destruct H as [Hin Hp]. apply in_rev in Hin. auto.
Qed.

Lemma find_last_none A (p : A -> bool) l x :
  find_last p l = None -> In x l -> p x = false.
Proof.
  unfold find_last. intros H Hin. apply (find_none _ _ H). apply in_rev in Hin.
  exact Hin.
Qed.

(** C6. [_sibling_tasks] keeps exactly the tasks of the bug whose path
    has "ubuntu" as distro segment and the source package of the record
    ([src]) as source package segment, whatever else belongs to the bug.
    The series are keys in the order they were first met, "+source"
    read as "-devel", and a series met again keeps the last task met. *)
Theorem sibling_tasks_spec (env : Env) (self : Task) (o : LpTask) (name : pystr) :
  obj self = Some o ->
  src_of_title (lp_title o) = Ok name ->
  Forall (fun e => (6 <= List.length (path_elements e))%nat)
    (bug_tasks (lp_bug o)) ->
  let kept := filter (is_sibling name) (bug_tasks (lp_bug o)) in
  exists siblings,
    returns env self (_sibling_tasks self) (Ok siblings) [] /\
    (forall series_,
        dict_get series_ siblings
        = find_last (fun e => str_eqb (sibling_series e) series_) kept) /\
    dict_keys siblings = first_occurrences [] (map sibling_series kept) /\
    (forall series_ e,
        dict_get series_ siblings = Some e ->
        In e (bug_tasks (lp_bug o)) /\ is_sibling name e = true /\
        sibling_series e = series_) /\
    (forall e,
        In e (bug_tasks (lp_bug o)) ->
        is_sibling name e = true ->
        exists e', dict_get (sibling_series e) siblings = Some e').
Proof.
  intros Hobj Hsrc Hall kept.
  assert (Hs : returns env self (src self) (Ok name) []).
  { pose proof (@src_returns env self) as H. unfold obj_res in H.
    rewrite Hobj in H. cbn [bindR] in H. rewrite Hsrc in H. exact H. }
  exists (fold_left insert_sibling kept []).
  assert (Hget : forall series_,
             dict_get series_ (fold_left insert_sibling kept [])
             = find_last (fun e => str_eqb (sibling_series e) series_) kept).
  { intros series_. rewrite dict_get_fold_insert.
    destruct (find_last _ kept); reflexivity. }
  split; [| split; [exact Hget | split; [| split]]].
  - unfold _sibling_tasks. change (@nil Event) with (@nil Event ++ []).
    eapply returns_bind.
    + pose proof (@returns_obj_attr env self _ (fun o => bug_tasks (lp_bug o))) as H.
      unfold obj_res in H. rewrite Hobj in H. exact H.
    + apply sibling_loop_returns; assumption.
  - apply (dict_keys_fold_insert kept []).
  - intros series_ e H. rewrite Hget in H. apply find_last_some in H.
    destruct H as [Hin Hp]. apply filter_In in Hin.
    apply str_eqb_eq in Hp. tauto.
  - intros e Hin Hsib. rewrite Hget.
    destruct (find_last (fun e0 => str_eqb (sibling_series e0) (sibling_series e)) kept)
      as [e' |] eqn:F; [exists e'; reflexivity |].
    apply find_last_none with (x := e) in F.
    + rewrite str_eqb_refl in F. discriminate.
    + apply filter_In. auto.
Qed.

Lemma sibling_tasks_spec_witness :
  exists siblings,
    run (_sibling_tasks example_record) = (Ok siblings, []) /\
    dict_keys siblings = [lit "focal"; lit "-devel"] /\
    dict_get (lit "focal") siblings
    = Some (example_entry "ubuntu/focal/+source/pkg/+bug/12" "Incomplete").
Proof.
  assert (Hsrc : src_of_title (lit "Bug #12 in pkg (Ubuntu): summary")
                 = Ok (lit "pkg")) by (vm_compute; reflexivity).
  assert (Hall : Forall (fun e => (6 <= List.length (path_elements e))%nat)
                   example_bug_tasks).
  { unfold example_bug_tasks.
    repeat (apply Forall_cons; [apply Nat.leb_le; vm_compute; reflexivity |]).
    apply Forall_nil. }
  destruct (@sibling_tasks_spec (example_env None) example_record
              (example_lp_task (lit "Bug #12 in pkg (Ubuntu): summary")
                 DISTRIBUTION_SOURCE_PACKAGE_RESOURCE_TYPE_LINK example_bug_tasks)
              (lit "pkg") eq_refl Hsrc Hall)
    as [siblings [Hrun [Hget [Hkeys _]]]].
  exists siblings. split; [| split].
  - apply returns_run in Hrun. exact Hrun.
  - rewrite Hkeys. vm_compute. reflexivity.
  - rewrite Hget. vm_compute. reflexivity.
Defined.

(** ** Determinacy: the result and the calls do not depend on the caches *)

Section Determinate.

Variable env : Env.
Variable self : Task.

Lemma determinate_of A (m : M A) r evs :
  returns env self m r evs -> determinate env self m.
Proof. intros H. exists r, evs. exact H. Qed.

Lemma logs_inner_quiet A (m : M A) r :
  returns env self m r [] -> logs_inner env self m.
Proof. intros H. exists r, []. split; [exact H | reflexivity]. Qed.

Lemma logs_inner_emit e : inner_event e = true -> logs_inner env self (emit e).
Proof.
  intros H. exists (Ok tt), [e]. split; [apply returns_emit |].
  cbn [forallb]. rewrite H. reflexivity.
Qed.

Lemma logs_inner_bind A B (m : M A) (f : A -> M B) :
  logs_inner env self m ->
  (forall a, logs_inner env self (f a)) ->
  logs_inner env self (bind m f).
Proof.
  intros [[a | e] [evs [Hm Q]]] Hf.
  - destruct (Hf a) as [r [evs' [Hfa Q']]]. exists r, (evs ++ evs'). split.
    + eapply returns_bind; eassumption.
    + rewrite forallb_app, Q, Q'. reflexivity.
  - exists (Raise e), evs. split; [apply returns_bind_raise; exact Hm | exact Q].
Qed.

Lemma logs_inner_except A (m : M A) :
  logs_inner env self m -> logs_inner env self (except_RuntimeError m).
Proof.
  intros [r [evs [H Q]]].
  exists (match r with
          | Ok a => Ok (Some a)
          | Raise (RuntimeError _) => Ok None
          | Raise e => Raise e
          end), evs.
  split; [| exact Q].
  intros s Hs. destruct (H s Hs) as [s' [E HH]]. exists s'.
  unfold except_RuntimeError. rewrite E.
  destruct r as [a | []]; exact (conj eq_refl HH).
Qed.

Lemma get_upload_source_urls_logs upload :
  logs_inner env self (get_upload_source_urls upload).
Proof.
  unfold get_upload_source_urls.
  destruct (contains_source upload).
  { apply logs_inner_bind; [apply logs_inner_emit; reflexivity |].
    intros _. eapply logs_inner_quiet, returns_ret. }
  destruct (contains_copy upload).
  2: { eapply logs_inner_quiet, returns_raise. }
  apply logs_inner_bind; [apply logs_inner_emit; reflexivity |].
  intros _. destruct (copy_source_archive_probe upload) as [e |].
  { destruct e; eapply logs_inner_quiet, returns_raise. }
  apply logs_inner_bind; [apply logs_inner_emit; reflexivity |].
  intros _. destruct (published_sources upload).
  { eapply logs_inner_quiet, returns_raise. }
  apply logs_inner_bind; [apply logs_inner_emit; reflexivity |].
  intros _. eapply logs_inner_quiet, returns_ret.
Qed.

Lemma scan_uploads_logs uploads :
  logs_inner env self (scan_uploads env self uploads).
Proof.
  induction uploads as [| upload rest IH].
  - eapply logs_inner_quiet, returns_ret.
  - cbn [scan_uploads]. apply logs_inner_bind.
    + apply logs_inner_except, get_upload_source_urls_logs.
    + intros [urls |]; [| exact IH].
      destruct (negb (truthy_str (changes_file_url upload))); [exact IH |].
      apply logs_inner_bind.
      { unfold find_changes_bugs.
        apply logs_inner_bind; [apply logs_inner_emit; reflexivity |].
        intros _. apply logs_inner_bind; [eapply logs_inner_quiet, returns_lift |].
        intros [bugs_str |]; eapply logs_inner_quiet, returns_ret. }
      intros bugs. apply logs_inner_bind.
      { eapply logs_inner_quiet, number_returns. }
      intros n. destruct (str_in n bugs); [| exact IH].
      eapply logs_inner_quiet, returns_ret.
Qed.

(** With a session, a call of the check logs the lookup of the ubuntu
    distribution first, and then inner calls only. *)
Lemma is_in_unapproved_logs lp :
  LP env = Some lp ->
  exists r evs,
    returns env self (_is_in_unapproved env self) r
      (EvDistributions (lit "ubuntu") :: evs) /\
    forallb inner_event evs = true.
Proof.
  intros Hlp.
  assert (H : logs_inner env self
                (if negb (truthy_str (series self))
                    || match series self with
                       | Some s => str_eqb s (lit "-devel")
                       | None => false
                       end
                 then ret None
                 else
                   let s := match series self with Some s => s | None => [] end in
                   emit (EvGetSeries s) ;;
                   name <- src self ;;
                   emit (EvGetPackageUploads s name) ;;
                   scan_uploads env self (unapproved_uploads lp s name))).
  { destruct (_ || _).
    { eapply logs_inner_quiet, returns_ret. }
    cbv zeta.
    apply logs_inner_bind; [apply logs_inner_emit; reflexivity |].
    intros _. apply logs_inner_bind; [eapply logs_inner_quiet, src_returns |].
    intros name. apply logs_inner_bind; [apply logs_inner_emit; reflexivity |].
    intros _. apply scan_uploads_logs. }
  destruct H as [r [evs [H Q]]]. exists r, evs. split; [| exact Q].
  unfold _is_in_unapproved. rewrite Hlp.
  apply returns_emit_then. exact H.
Qed.

Lemma is_in_unapproved_determinate :
  determinate env self (_is_in_unapproved env self).
Proof.
  destruct (LP env) as [lp |] eqn:Hlp.
  - destruct (is_in_unapproved_logs Hlp) as [r [evs [H _]]].
    eapply determinate_of. exact H.
  - unfold _is_in_unapproved. rewrite Hlp.
    eapply determinate_of, returns_raise.
Qed.

Lemma sibling_loop_determinate tasks : forall d,
  determinate env self (sibling_loop self tasks d).
Proof.
  induction tasks as [| e tasks IH]; intros d.
  - eapply determinate_of, returns_ret.
  - cbn [sibling_loop]. apply determinate_bind.
    { eapply determinate_of, returns_lift. }
    intros e4. destruct (negb (str_eqb e4 (lit "ubuntu"))); [apply IH |].
    apply determinate_bind; [eapply determinate_of, returns_lift |].
    intros e3. apply determinate_bind; [eapply determinate_of, src_returns |].
    intros name. destruct (negb (str_eqb e3 name)); [apply IH |].
    apply determinate_bind; [eapply determinate_of, returns_lift |].
    intros e5. apply IH.
Qed.

Lemma sibling_tasks_determinate : determinate env self (_sibling_tasks self).
Proof.
  unfold _sibling_tasks. apply determinate_bind.
  - eapply determinate_of, returns_obj_attr.
  - intros tasks. apply sibling_loop_determinate.
Qed.

End Determinate.

(** ** The loops over the siblings *)

Section Loops.

Variable env : Env.
Variable self : Task.
Variable u : option bool.
Variable evs : list Event.

Lemma check_known_tail item items :
  check_known env self u evs (item :: items) -> check_known env self u evs items.
Proof.
  intros [H | H]; [left | right; exact H].
  inversion H; assumption.
Qed.

Lemma check_known_reached item items :
  check_known env self u evs (item :: items) ->
  reaches_check env item = true ->
  returns env self (_is_in_unapproved env self) (Ok u) evs.
Proof.
  intros [H | H] Hr; [| exact H].
  inversion H; congruence.
Qed.

Lemma sibling_task_status_loop_returns : forall items acc,
  check_known env self u evs items ->
  returns env self (sibling_task_status_loop env self items acc)
    (Ok (fold_left
           (fun d item =>
              dict_set (fst item) (classify env u (entry_status (snd item))) d)
           items acc))
    (checks_log env evs items).
Proof.
  induction items as [| [series_ e] items IH]; intros acc Hk.
  - apply returns_ret.
  - pose proof (check_known_tail Hk) as Hk'.
    pose proof (check_known_reached Hk) as Hu.
    cbn [sibling_task_status_loop fold_left fst snd].
    unfold checks_log. cbn [map List.concat]. fold (checks_log env evs items).
    unfold classify, reaches_check in *. cbn [snd] in *.
    destruct (str_in (entry_status e) (NOWORK_BUG_STATUSES env)).
    + apply IH. exact Hk'.
    + eapply returns_bind; [apply Hu; reflexivity |].
      destruct (truthy u); [apply IH; exact Hk' |].
      destruct (str_in (entry_status e) (OPEN_BUG_STATUSES env));
        apply IH; exact Hk'.
Qed.

Lemma release_loop_returns : forall items acc,
  check_known env self u evs items ->
  Forall (fun item => fst item <> []) items ->
  returns env self (release_loop env self items acc)
    (Ok (acc ++ List.concat
                  (map (fun item =>
                          decorate env u (entry_status (snd item))
                            (release_char env (fst item)))
                     items)))
    (checks_log env evs items).
Proof.
  induction items as [| [series_ e] items IH]; intros acc Hk Hne.
  - cbn [map List.concat]. rewrite app_nil_r. apply returns_ret.
  - pose proof (check_known_tail Hk) as Hk'.
    pose proof (check_known_reached Hk) as Hu.
    inversion Hne as [| ? ? Hs Hrest]; subst. cbn [fst] in Hs.
    destruct series_ as [| c series']; [congruence |].
    cbn [release_loop map List.concat fst snd release_char].
    unfold checks_log. cbn [map List.concat]. fold (checks_log env evs items).
    unfold get_item, index. cbn [nth_error].
    change (if reaches_check env (c :: series', e) then evs else [])
      with (@nil Event ++ (if reaches_check env (c :: series', e) then evs else [])).
    rewrite <- app_assoc.
    eapply returns_bind; [apply returns_lift |].
    rewrite app_assoc.
    unfold decorate, reaches_check in *. cbn [snd] in *.
    destruct (str_in (entry_status e) (NOWORK_BUG_STATUSES env)).
    + apply IH; assumption.
    + eapply returns_bind; [apply Hu; reflexivity |].
      destruct (truthy u); [apply IH; assumption |].
      destruct (str_in (entry_status e) (OPEN_BUG_STATUSES env));
        apply IH; assumption.
Qed.

Lemma get_releases_returns siblings length :
  returns env self (_sibling_tasks self) (Ok siblings) [] ->
  check_known env self u evs siblings ->
  Forall (fun item => fst item <> []) siblings ->
  let body := List.concat
                (map (fun item =>
                        decorate env u (entry_status (snd item))
                          (release_char env (fst item)))
                   siblings) in
  returns env self (get_releases env self length)
    (Ok (body ++ repeat SPACE (Z.to_nat (length - len (printable_of body)))))
    (checks_log env evs siblings).
Proof.
  intros Hsib Hk Hne body. unfold get_releases.
  change (checks_log env evs siblings) with ([] ++ checks_log env evs siblings).
  eapply returns_bind; [exact Hsib |].
  rewrite <- (app_nil_r (checks_log env evs siblings)).
  eapply returns_bind; [apply release_loop_returns; assumption |].
  cbn [app]. fold body. cbv zeta.
  destruct (Z.gtb_spec (length - len (printable_of body)) 0).
  - apply returns_ret.
  - replace (Z.to_nat (length - len (printable_of body))) with 0%nat by lia.
    cbn [repeat]. rewrite app_nil_r. apply returns_ret.
Qed.

End Loops.

(** ** The keys of the siblings are distinct *)

Lemma NoDup_dict_set V k (v : V) d :
  NoDup (dict_keys d) -> NoDup (dict_keys (dict_set k v d)).
Proof.
  intros H. rewrite dict_keys_set.
  destruct (str_in k (dict_keys d)) eqn:E; [exact H |].
  apply NoDup_app; [exact H | repeat constructor; intros [] |].
  intros x Hx [<- | []]. apply str_in_In in Hx. congruence.
Qed.

Lemma sibling_loop_keys self : forall tasks d s r s',
  sibling_loop self tasks d s = (Ok r, s') ->
  NoDup (dict_keys d) -> NoDup (dict_keys r).
Proof.
  induction tasks as [| e tasks IH]; intros d s r s' E Hd.
  - inversion E; subst. exact Hd.
  - cbn [sibling_loop] in E. unfold bind, lift in E.
    destruct (get_item (split_on SLASH (entry_link e)) 4) as [e4 |];
      [| discriminate].
    destruct (negb (str_eqb e4 (lit "ubuntu"))); [eapply IH; eassumption |].
    destruct (get_item_from_end (split_on SLASH (entry_link e)) 3) as [e3 |];
      [| discriminate].
    destruct (src self s) as [[name | ex] s1]; [| discriminate].
    destruct (negb (str_eqb e3 name)); [eapply IH; eassumption |].
    destruct (get_item (split_on SLASH (entry_link e)) 5) as [e5 |];
      [| discriminate].
    eapply IH; [eassumption |]. apply NoDup_dict_set. exact Hd.
Qed.

Lemma sibling_tasks_keys self siblings evs :
  run (_sibling_tasks self) = (Ok siblings, evs) -> NoDup (dict_keys siblings).
Proof.
  unfold run, _sibling_tasks, bind, obj_attr, ret, raise.
  destruct (obj self) as [o |].
  - destruct (sibling_loop self (bug_tasks (lp_bug o)) [] init_state)
      as [[r | e] s'] eqn:E; intros H; inversion H; subst.
    eapply sibling_loop_keys; [exact E | constructor].
  - intros H. inversion H.
Qed.

Lemma dict_set_fresh V k (v : V) d :
  str_in k (dict_keys d) = false -> dict_set k v d = d ++ [(k, v)].
Proof.
  unfold str_in, dict_keys. induction d as [| [k' v'] d IH]; simpl; [reflexivity |].
  intros H. apply orb_false_iff in H. destruct H as [Hk Hd].
  rewrite Hk, (IH Hd). reflexivity.
Qed.

(** Assignments to distinct new keys append, in order. *)
Lemma fold_dict_set_map K V (f : pystr * K -> V) : forall items acc,
  NoDup (dict_keys acc ++ map fst items) ->
  fold_left (fun d item => dict_set (fst item) (f item) d) items acc
  = acc ++ map (fun item => (fst item, f item)) items.
Proof.
  induction items as [| item items IH]; intros acc H; simpl.
  - symmetry. apply app_nil_r.
  - assert (Hfresh : str_in (fst item) (dict_keys acc) = false).
    { destruct (str_in (fst item) (dict_keys acc)) eqn:E; [| reflexivity].
      apply str_in_In in E. simpl in H. apply NoDup_remove_2 in H.
      exfalso. apply H. apply in_or_app. left. exact E. }
    rewrite (@dict_set_fresh _ _ (f item) _ Hfresh). rewrite IH.
    + rewrite <- app_assoc. reflexivity.
    + unfold dict_keys in *. rewrite map_app. simpl.
      rewrite <- app_assoc. exact H.
Qed.

(** ** Markers and printable characters *)

Lemma strip_spaces n : strip_markers (repeat SPACE n) = repeat SPACE n.
Proof.
  unfold strip_markers. induction n as [| n IH]; [reflexivity |].
  simpl. rewrite IH. reflexivity.
Qed.

Lemma check_returns_known env self u evs items :
  check_returns env self u evs items -> check_known env self u evs items.
Proof.
  intros [H | H]; [left; exact H | right].
  apply determinate_run; [apply is_in_unapproved_determinate | exact H].
Qed.

Lemma sibling_tasks_run_returns env self siblings evs :
  run (_sibling_tasks self) = (Ok siblings, evs) ->
  returns env self (_sibling_tasks self) (Ok siblings) evs.
Proof.
  apply determinate_run. apply sibling_tasks_determinate.
Qed.

Lemma count_checks_app a b : count_checks (a ++ b) = (count_checks a + count_checks b)%nat.
Proof. unfold count_checks. rewrite filter_app, length_app. reflexivity. Qed.

Lemma count_checks_log env evs : forall items,
  count_checks (checks_log env evs items)
  = (List.length (filter (reaches_check env) items) * count_checks evs)%nat.
Proof.
  induction items as [| item items IH]; [reflexivity |].
  unfold checks_log. cbn [map List.concat filter]. fold (checks_log env evs items).
  rewrite count_checks_app, IH.
  destruct (reaches_check env item); cbn [List.length]; [lia | reflexivity].
Qed.

(** ** get_releases *)

(** C3. The code at the input on which it leaves its layout: a bug with
    tasks of the package in eight series. [get_releases] pads when the
    text has fewer capital letters than [length] and never limits it, so
    [get_releases(7)] gives one character per sibling and no padding,
    eight printable columns and not the seven of its docstring ("This
    has to stay a fixed length string to maintain the layout"). *)
Lemma get_releases_wider_than_length :
  exists out,
    fst (run (get_releases (example_env (Some no_uploads)) example_wide_record 7))
    = Ok out /\
    strip_markers out = lit "TXBFJNOD" /\
    printable_of out = lit "TXBFJNOD" /\
    len (strip_markers out) = 8%Z /\
    len (strip_markers out) <> 7%Z.
Proof.
  eexists. split; [vm_compute; reflexivity |].
  repeat (split; [reflexivity |]). discriminate.
Qed.

(** ** to_dict *)

Section ToDict.

Variable env : Env.
Variable self : Task.

Lemma importance_returns :
  returns env self (importance self) (obj_res self lp_importance) [].
Proof.
  unfold importance. apply returns_lru_cache with (c := C_importance);
    [discriminate | reflexivity | apply returns_obj_attr].
Qed.

Lemma status_returns : returns env self (status self) (obj_res self lp_status) [].
Proof.
  unfold status. apply returns_lru_cache with (c := C_status);
    [discriminate | reflexivity | apply returns_obj_attr].
Qed.

Lemma quiet_of_returns A (m : M A) r :
  returns env self m r [] -> quiet env self m (fun _ => True).
Proof. intros H. exists r. auto. Qed.

Lemma quiet_ret A (a : A) (P : A -> Prop) : P a -> quiet env self (ret a) P.
Proof.
  intros H. exists (Ok a). split; [apply returns_ret |].
  intros a' E. inversion E; subst. exact H.
Qed.

Lemma quiet_lift A (r : Res A) : quiet env self (lift r) (fun _ => True).
Proof. exists r. split; [apply returns_lift | auto]. Qed.

Lemma quiet_bind A B (m : M A) (f : A -> M B) (Q : A -> Prop) (P : B -> Prop) :
  quiet env self m Q ->
  (forall a, quiet env self (f a) P) ->
  quiet env self (bind m f) P.
Proof.
  intros [[a | e] [Hm _]] Hf.
  - destruct (Hf a) as [r [Hr HP]]. exists r. split; [| exact HP].
    change (@nil Event) with (@nil Event ++ []).
    eapply returns_bind; eassumption.
  - exists (Raise e). split; [| discriminate].
    apply returns_bind_raise. exact Hm.
Qed.

Lemma quiet_lru_cache c (body : M (CacheVal c)) :
  c <> C_to_dict ->
  method env c self = lru_cache c (task_id self) body ->
  quiet env self body (fun _ => True) ->
  quiet env self (lru_cache c (task_id self) body) (fun _ => True).
Proof.
  intros Hc Hm [r [H _]]. exists r. split; [| auto].
  apply returns_lru_cache; assumption.
Qed.

Lemma assignee_quiet : quiet env self (assignee self) (fun _ => True).
Proof.
  unfold assignee. apply quiet_lru_cache with (c := C_assignee);
    [discriminate | reflexivity |].
  eapply quiet_bind; [eapply quiet_of_returns, returns_obj_attr |].
  intros link. destruct (truthy_str link); [| apply quiet_ret; exact I].
  eapply quiet_bind; [apply quiet_lift |].
  intros name. apply quiet_ret. exact I.
Qed.

Lemma is_updated_quiet : quiet env self (_is_updated env self) (fun _ => True).
Proof.
  unfold _is_updated. destruct (AGE env); [| apply quiet_ret; exact I].
  eapply quiet_bind; [eapply quiet_of_returns, date_last_updated_returns |].
  intros d. apply quiet_ret. exact I.
Qed.

Lemma is_old_quiet : quiet env self (_is_old env self) (fun _ => True).
Proof.
  unfold _is_old. destruct (OLD env); [| apply quiet_ret; exact I].
  eapply quiet_bind; [eapply quiet_of_returns, date_last_updated_returns |].
  intros d. apply quiet_ret. exact I.
Qed.

Lemma is_verification_needed_quiet :
  quiet env self (_is_verification_needed self) (fun _ => True).
Proof.
  unfold _is_verification_needed.
  eapply quiet_bind; [eapply quiet_of_returns, tags_returns |].
  intros t. apply quiet_ret. exact I.
Qed.

Lemma is_verification_done_quiet :
  quiet env self (_is_verification_done self) (fun _ => True).
Proof.
  unfold _is_verification_done.
  eapply quiet_bind; [eapply quiet_of_returns, tags_returns |].
  intros t. apply quiet_ret. exact I.
Qed.

Lemma url_quiet : quiet env self (url self) (fun _ => True).
Proof.
  unfold url. eapply quiet_bind; [eapply quiet_of_returns, number_returns |].
  intros n. apply quiet_ret. exact I.
Qed.

Lemma shortlink_quiet : quiet env self (shortlink self) (fun _ => True).
Proof.
  unfold shortlink. eapply quiet_bind; [eapply quiet_of_returns, number_returns |].
  intros n. apply quiet_ret. exact I.
Qed.

(** A call of [to_dict] that misses its cache runs the body. *)
Lemma lru_cache_miss (body : M TaskDict) r evs s :
  coherent env self s ->
  lru_find (task_id self) (entries (caches s C_to_dict)) = None ->
  returns env self body r evs ->
  exists s',
    lru_cache C_to_dict (task_id self) body s = (r, s') /\
    coherent env self s' /\ log s' = log s ++ evs.
Proof.
  intros Hs F Hbody. unfold lru_cache. rewrite F.
  destruct (Hbody (set_cache C_to_dict (lru_miss (caches s C_to_dict)) s))
    as [s1 [E1 [C1 L1]]].
  - apply coherent_set; [exact Hs | congruence].
  - rewrite E1. destruct r as [v | e]; eexists; (split; [reflexivity |]).
    + split; [apply coherent_set; [exact C1 | congruence] |].
      rewrite log_set_cache. exact L1.
    + split; [exact C1 | exact L1].
Qed.

(** [to_dict] when its cache has no entry for the record: the calls are
    those of the loop over the siblings, and a dict returned carries the
    classification of the siblings. *)
Lemma to_dict_miss siblings u evs s :
  coherent env self s ->
  lru_find (task_id self) (entries (caches s C_to_dict)) = None ->
  returns env self (_sibling_tasks self) (Ok siblings) [] ->
  check_known env self u evs siblings ->
  NoDup (dict_keys siblings) ->
  exists r s',
    to_dict env self s = (r, s') /\
    coherent env self s' /\
    log s' = log s ++ checks_log env evs siblings /\
    forall d, r = Ok d -> d_sibling_task_status d = classified env u siblings.
Proof.
  intros Hs F Hsib Hk Hnd. unfold to_dict.
  match goal with
  | |- context [lru_cache C_to_dict _ ?b] => set (body := b)
  end.
  assert (Hbody : exists r,
             returns env self body r (checks_log env evs siblings) /\
             forall d, r = Ok d -> d_sibling_task_status d = classified env u siblings).
  { pose proof (@sibling_task_status_loop_returns env self u evs siblings [] Hk)
      as Hloop.
    rewrite (@fold_dict_set_map BugTaskEntry pystr
               (fun item => classify env u (entry_status (snd item)))) in Hloop
      by exact Hnd.
    cbn [app] in Hloop. fold (classified env u siblings) in Hloop.
    assert (Hrest : quiet env self
              (v_url <- url self ;;
               v_shortlink <- shortlink self ;;
               v_number <- number self ;;
               v_title <- title self ;;
               v_short_title <- short_title self ;;
               v_src <- src self ;;
               v_importance <- importance self ;;
               v_status <- status self ;;
               v_tags <- tags self ;;
               v_assignee <- assignee self ;;
               v_updated <- _is_updated env self ;;
               v_old <- _is_old env self ;;
               v_needed <- _is_verification_needed self ;;
               v_done <- _is_verification_done self ;;
               ret {| d_url := v_url;
                      d_shortlink := v_shortlink;
                      d_number := v_number;
                      d_title := v_title;
                      d_short_title := v_short_title;
                      d_distro := distro self;
                      d_source_package := v_src;
                      d_source_package_name := source_package_name self;
                      d_series := series self;
                      d_importance := v_importance;
                      d_status := v_status;
                      d_tags := v_tags;
                      d_assignee := v_assignee;
                      d_is_maintainer_subscribed := subscribed self;
                      d_is_last_activity_by_maintainer := last_activity_ours self;
                      d_is_updated_recently := v_updated;
                      d_is_old := v_old;
                      d_is_verification_needed := v_needed;
                      d_is_verification_done := v_done;
                      d_sibling_task_status := classified env u siblings |})
              (fun d => d_sibling_task_status d = classified env u siblings)).
    { eapply quiet_bind; [apply url_quiet | intros ?].
      eapply quiet_bind; [apply shortlink_quiet | intros ?].
      eapply quiet_bind; [eapply quiet_of_returns, number_returns | intros ?].
      eapply quiet_bind; [eapply quiet_of_returns, title_returns | intros ?].
      eapply quiet_bind; [eapply quiet_of_returns, short_title_returns | intros ?].
      eapply quiet_bind; [eapply quiet_of_returns, src_returns | intros ?].
      eapply quiet_bind; [eapply quiet_of_returns, importance_returns | intros ?].
      eapply quiet_bind; [eapply quiet_of_returns, status_returns | intros ?].
      eapply quiet_bind; [eapply quiet_of_returns, tags_returns | intros ?].
      eapply quiet_bind; [apply assignee_quiet | intros ?].
      eapply quiet_bind; [apply is_updated_quiet | intros ?].
      eapply quiet_bind; [apply is_old_quiet | intros ?].
      eapply quiet_bind; [apply is_verification_needed_quiet | intros ?].
      eapply quiet_bind; [apply is_verification_done_quiet | intros ?].
      apply quiet_ret. reflexivity. }
    destruct Hrest as [r [Hr HP]]. exists r. split; [| exact HP].
    unfold body.
    change (checks_log env evs siblings) with ([] ++ checks_log env evs siblings).
    eapply returns_bind; [exact Hsib |].
    rewrite <- (app_nil_r (checks_log env evs siblings)).
    eapply returns_bind; [exact Hloop |]. exact Hr. }
  destruct Hbody as [r [Hr HP]].
  destruct (@lru_cache_miss body r _ s Hs F Hr) as [s' [E [C L]]].
  exists r, s'. auto.
Qed.

(** [to_dict] when its cache holds an entry for the record: no call. *)
Lemma to_dict_hit d s :
  lru_find (task_id self) (entries (caches s C_to_dict)) = Some d ->
  exists s', to_dict env self s = (Ok d, s') /\ log s' = log s.
Proof.
  intros F. unfold to_dict, lru_cache. rewrite F. eexists. split; reflexivity.
Qed.

End ToDict.

Ltac quiet_step :=
  change (@nil Event) with (@nil Event ++ []);
  eapply returns_bind.

(** ** The loops over the siblings when the check raises *)

Section Raising.

Variable env : Env.
Variable self : Task.
Variable e : PyExn.
Variable evs : list Event.
Hypothesis check_raises :
  returns env self (_is_in_unapproved env self) (Raise e) evs.

(** Both loops end with the exception of the check at the first sibling
    that reaches it, having logged the calls of that one run. *)
Lemma release_loop_raises : forall items acc,
  Forall (fun item => fst item <> []) items ->
  Exists (fun item => reaches_check env item = true) items ->
  returns env self (release_loop env self items acc) (Raise e) evs.
Proof.
  induction items as [| [series_ entry] items IH]; intros acc Hne Hex.
  - inversion Hex.
  - inversion Hne as [| ? ? Hs Hrest]; subst. cbn [fst] in Hs.
    destruct series_ as [| c series']; [congruence |].
    cbn [release_loop]. unfold get_item, index. cbn [nth_error].
    change evs with (@nil Event ++ evs).
    eapply returns_bind; [apply returns_lift |]. cbv zeta.
    unfold reaches_check in *.
    destruct (str_in (entry_status entry) (NOWORK_BUG_STATUSES env)) eqn:Hc.
    + apply IH; [exact Hrest |].
      inversion Hex as [? ? Hh | ? ? Ht]; subst; [| exact Ht].
      cbn [snd] in Hh. rewrite Hc in Hh. discriminate.
    + apply returns_bind_raise. exact check_raises.
Qed.

Lemma sibling_task_status_loop_raises : forall items acc,
  Exists (fun item => reaches_check env item = true) items ->
  returns env self (sibling_task_status_loop env self items acc) (Raise e) evs.
Proof.
  induction items as [| [series_ entry] items IH]; intros acc Hex.
  - inversion Hex.
  - cbn [sibling_task_status_loop]. unfold reaches_check in *.
    destruct (str_in (entry_status entry) (NOWORK_BUG_STATUSES env)) eqn:Hc.
    + apply IH. inversion Hex as [? ? Hh | ? ? Ht]; subst; [| exact Ht].
      cbn [snd] in Hh. rewrite Hc in Hh. discriminate.
    + apply returns_bind_raise. exact check_raises.
Qed.

Lemma get_releases_raises siblings length :
  returns env self (_sibling_tasks self) (Ok siblings) [] ->
  Forall (fun item => fst item <> []) siblings ->
  Exists (fun item => reaches_check env item = true) siblings ->
  returns env self (get_releases env self length) (Raise e) evs.
Proof.
  intros Hs Hne Hex. unfold get_releases.
  change evs with (@nil Event ++ evs).
  eapply returns_bind; [exact Hs |].
  apply returns_bind_raise. apply release_loop_raises; assumption.
Qed.

Lemma to_dict_raises siblings s :
  coherent env self s ->
  lru_find (task_id self) (entries (caches s C_to_dict)) = None ->
  returns env self (_sibling_tasks self) (Ok siblings) [] ->
  Exists (fun item => reaches_check env item = true) siblings ->
  exists s',
    to_dict env self s = (Raise e, s') /\
    coherent env self s' /\ log s' = log s ++ evs.
Proof.
  intros Hcoh F Hs Hex. unfold to_dict.
  match goal with
  | |- context [lru_cache C_to_dict _ ?b] => set (body := b)
  end.
  assert (Hbody : returns env self body (Raise e) evs).
  { unfold body. change evs with (@nil Event ++ evs).
    eapply returns_bind; [exact Hs |].
    apply returns_bind_raise.
    apply sibling_task_status_loop_raises; assumption. }
  exact (@lru_cache_miss env self body _ _ s Hcoh F Hbody).
Qed.

End Raising.

(** The siblings that reach the check, counted. *)
Lemma reaches_none env : forall items : list (pystr * BugTaskEntry),
  List.length (filter (reaches_check env) items) = 0%nat ->
  Forall (fun item => reaches_check env item = false) items.
Proof.
  induction items as [| item items IH]; intros H; [constructor |].
  cbn [filter] in H. destruct (reaches_check env item) eqn:E; [discriminate H |].
  constructor; [exact E | apply IH; exact H].
Qed.

Lemma reaches_some env : forall items : list (pystr * BugTaskEntry),
  List.length (filter (reaches_check env) items) <> 0%nat ->
  Exists (fun item => reaches_check env item = true) items.
Proof.
  induction items as [| item items IH]; intros H; [contradiction H; reflexivity |].
  cbn [filter] in H. destruct (reaches_check env item) eqn:E.
  - apply Exists_cons_hd. exact E.
  - apply Exists_cons_tl, IH. exact H.
Qed.

(** The calls of a loop in which the check returns: those of one run,
    once for every sibling that reaches it. *)
Lemma checks_log_repeat env evs : forall items,
  checks_log env evs items
  = List.concat (repeat evs (List.length (filter (reaches_check env) items))).
Proof.
  induction items as [| item items IH]; [reflexivity |].
  unfold checks_log in *. cbn [map List.concat filter]. rewrite IH.
  destruct (reaches_check env item); reflexivity.
Qed.

Lemma count_checks_repeat evs n :
  count_checks (List.concat (repeat evs n)) = (n * count_checks evs)%nat.
Proof.
  induction n as [| n IH]; [reflexivity |].
  cbn [repeat List.concat]. rewrite count_checks_app, IH. lia.
Qed.

(** A run of the check with a session looks the distribution up once,
    however it ends; without a session it raises before any call. *)
Lemma is_in_unapproved_starts env self r evs :
  run (_is_in_unapproved env self) = (r, evs) ->
  (LP env <> None -> count_checks evs = 1%nat) /\
  (LP env = None -> r = Raise AttributeError /\ evs = []).
Proof.
  intros Hrun. destruct (LP env) as [lp |] eqn:Hlp.
  - split; [intros _ | discriminate].
    destruct (@is_in_unapproved_logs env self lp Hlp) as [r' [evs' [H Q]]].
    apply returns_run in H. rewrite H in Hrun. inversion Hrun; subst.
    unfold count_checks. cbn [filter is_check_start List.length].
    f_equal. clear - Q. induction evs' as [| ev evs' IH]; [reflexivity |].
    cbn [forallb] in Q. apply andb_true_iff in Q. destruct Q as [Qe Q].
    unfold inner_event in Qe. apply negb_true_iff in Qe.
    cbn [filter]. rewrite Qe. apply IH. exact Q.
  - split; [intros H; contradiction H; reflexivity | intros _].
    unfold run, _is_in_unapproved in Hrun. rewrite Hlp in Hrun.
    inversion Hrun. split; reflexivity.
Qed.

(** ** The classification of the siblings *)

Lemma dict_get_classified env u k : forall items,
  dict_get k (classified env u items)
  = option_map (fun e => classify env u (entry_status e)) (dict_get k items).
Proof.
  induction items as [| [k' e] items IH]; [reflexivity |].
  cbn [classified map dict_get fst snd]. fold (classified env u items).
  destruct (str_eqb k k'); [reflexivity | exact IH].
Qed.

(** C4. The loop of [to_dict] gives every sibling series the class of
    its task: "closed" when the status is a no-work status; else
    "unapproved" when the unapproved-queue check is true; else "open"
    when the status is an open status; else "pending". A sibling whose
    status is a no-work status is "closed" whatever the check returns,
    and [get_releases] decorates by the same chain. *)
Theorem sibling_status_precedence (env : Env) (self : Task)
  (siblings : pydict BugTaskEntry) (u : option bool) (evs : list Event) :
  run (_sibling_tasks self) = (Ok siblings, []) ->
  check_returns env self u evs siblings ->
  returns env self (sibling_task_status_loop env self siblings [])
    (Ok (classified env u siblings)) (checks_log env evs siblings) /\
  (forall s,
      coherent env self s ->
      lru_find (task_id self) (entries (caches s C_to_dict)) = None ->
      exists r s',
        to_dict env self s = (r, s') /\
        forall d, r = Ok d -> d_sibling_task_status d = classified env u siblings) /\
  (forall series_ e,
      dict_get series_ siblings = Some e ->
      dict_get series_ (classified env u siblings)
      = Some (classify env u (entry_status e))) /\
  (forall st,
      (str_in st (NOWORK_BUG_STATUSES env) = true ->
       classify env u st = lit "closed") /\
      (str_in st (NOWORK_BUG_STATUSES env) = false ->
       truthy u = true -> classify env u st = lit "unapproved") /\
      (str_in st (NOWORK_BUG_STATUSES env) = false ->
       truthy u = false ->
       str_in st (OPEN_BUG_STATUSES env) = true ->
       classify env u st = lit "open") /\
      (str_in st (NOWORK_BUG_STATUSES env) = false ->
       truthy u = false ->
       str_in st (OPEN_BUG_STATUSES env) = false ->
       classify env u st = lit "pending")) /\
  (forall length,
      Forall (fun item => fst item <> []) siblings ->
      exists pad,
        returns env self (get_releases env self length)
          (Ok (decorated env u siblings ++ pad)) (checks_log env evs siblings)).
Proof.
  intros Hsib Hcheck.
  pose proof (@sibling_tasks_run_returns env self siblings [] Hsib) as Hs.
  pose proof (check_returns_known Hcheck) as Hk.
  pose proof (sibling_tasks_keys _ Hsib) as Hnd.
  split; [| split; [| split; [| split]]].
  - pose proof (@sibling_task_status_loop_returns env self u evs siblings [] Hk)
      as Hloop.
    rewrite (@fold_dict_set_map BugTaskEntry pystr
               (fun item => classify env u (entry_status (snd item)))) in Hloop
      by exact Hnd.
    exact Hloop.
  - intros s Hcoh F.
    destruct (@to_dict_miss env self siblings u evs s Hcoh F Hs Hk Hnd)
      as [r [s' [E [_ [_ HP]]]]].
    exists r, s'. auto.
  - intros series_ e H. rewrite dict_get_classified, H. reflexivity.
  - intros st. unfold classify. repeat split; intros; 
      repeat match goal with H : _ = _ |- _ => rewrite H end; reflexivity.
  - intros length Hne. eexists.
    apply (@get_releases_returns env self u evs siblings length Hs Hk Hne).
Qed.

Lemma sibling_status_precedence_witness :
  fst (run (sibling_task_status_loop example_queue_env example_record
              [(lit "focal",
                example_entry "ubuntu/focal/+source/pkg/+bug/12" "Incomplete");
               (lit "-devel",
                example_entry "ubuntu/+source/pkg/+bug/12" "Fix Released")]
              []))
  = Ok [(lit "focal", lit "unapproved"); (lit "-devel", lit "closed")].
Proof.
  assert (Hsib : run (_sibling_tasks example_record)
                 = (Ok [(lit "focal",
                         example_entry "ubuntu/focal/+source/pkg/+bug/12"
                           "Incomplete");
                        (lit "-devel",
                         example_entry "ubuntu/+source/pkg/+bug/12"
                           "Fix Released")],
                    [])) by (vm_compute; reflexivity).
  assert (Hcheck : run (_is_in_unapproved example_queue_env example_record)
                   = (Ok (Some true),
                      snd (run (_is_in_unapproved example_queue_env example_record))))
    by (vm_compute; reflexivity).
  destruct (@sibling_status_precedence example_queue_env example_record _ _ _
              Hsib (or_intror Hcheck)) as [Hloop _].
  apply returns_run in Hloop. rewrite Hloop. vm_compute. reflexivity.
Defined.

(** ** How often the unapproved-queue check runs *)

(** C1, counterexample. [_is_in_unapproved] is not memoised: on a record
    with two open siblings, [to_dict] followed by [get_releases(7)]
    starts the check four times, each time with its queries, and not once. *)
Lemma unapproved_check_runs_again :
  let env := example_env (Some no_uploads) in
  let calls := snd (run (to_dict env example_open_record ;;
                         get_releases env example_open_record 7)) in
  count_checks calls = 4%nat /\
  calls
  = [EvDistributions (lit "ubuntu"); EvGetSeries (lit "trusty");
     EvGetPackageUploads (lit "trusty") (lit "pkg");
     EvDistributions (lit "ubuntu"); EvGetSeries (lit "trusty");
     EvGetPackageUploads (lit "trusty") (lit "pkg");
     EvDistributions (lit "ubuntu"); EvGetSeries (lit "trusty");
     EvGetPackageUploads (lit "trusty") (lit "pkg");
     EvDistributions (lit "ubuntu"); EvGetSeries (lit "trusty");
     EvGetPackageUploads (lit "trusty") (lit "pkg")] /\
  ~ (count_checks calls <= 1)%nat.
Proof.
  cbv zeta.
  assert (E : count_checks
                (snd (run (to_dict (example_env (Some no_uploads)) example_open_record ;;
                           get_releases (example_env (Some no_uploads))
                             example_open_record 7)))
              = 4%nat) by (vm_compute; reflexivity).
  split; [exact E | split; [vm_compute; reflexivity |]].
  rewrite E. lia.
Qed.

(** C1, amended. Nothing memoises [_is_in_unapproved]. On a record whose
    siblings have series names that are not empty, [to_dict], when its
    own cache has no entry for the record, and [get_releases], at every
    call, each run the check once for every sibling whose status is not
    a no-work status, and never for the others, as long as the check
    returns; when the check raises, each of them ends with that
    exception at the first such sibling, having run the check once. A
    run of both makes the same calls twice. With a session every run of
    the check looks the distribution up once; without a session the
    check raises [AttributeError] before any call. Only a later
    [to_dict] that finds its entry in its cache makes no call. *)
Theorem unapproved_check_per_open_sibling (env : Env) (self : Task)
  (siblings : pydict BugTaskEntry) (rc : Res (option bool)) (evs : list Event)
  (length : Z) (s : State) :
  run (_sibling_tasks self) = (Ok siblings, []) ->
  run (_is_in_unapproved env self) = (rc, evs) ->
  Forall (fun item => fst item <> []) siblings ->
  coherent env self s ->
  lru_find (task_id self) (entries (caches s C_to_dict)) = None ->
  let k := List.length (filter (reaches_check env) siblings) in
  let runs := match rc with Ok _ => k | Raise _ => Nat.min 1 k end in
  let calls := List.concat (repeat evs runs) in
  (exists r s1 r' s2,
      to_dict env self s = (r, s1) /\
      log s1 = log s ++ calls /\
      get_releases env self length s1 = (r', s2) /\
      log s2 = log s1 ++ calls /\
      match rc with
      | Ok _ => exists out, r' = Ok out
      | Raise e =>
          (k = 0%nat -> exists out, r' = Ok out) /\
          (k <> 0%nat -> r = Raise e /\ r' = Raise e)
      end) /\
  (LP env <> None -> count_checks calls = runs) /\
  (LP env = None -> rc = Raise AttributeError /\ evs = []) /\
  (forall d s0,
      lru_find (task_id self) (entries (caches s0 C_to_dict)) = Some d ->
      exists s', to_dict env self s0 = (Ok d, s') /\ log s' = log s0).
Proof.
  intros Hsib Hrun Hne Hcoh F k runs calls.
  pose proof (@sibling_tasks_run_returns env self siblings [] Hsib) as Hs.
  pose proof (sibling_tasks_keys _ Hsib) as Hnd.
  pose proof (determinate_run (@is_in_unapproved_determinate env self) Hrun)
    as Hcheck.
  destruct (is_in_unapproved_starts _ _ Hrun) as [Hstart Hnone].
  split; [| split; [| split; [exact Hnone | intros d s0; apply to_dict_hit]]].
  - destruct rc as [u | e].
    + assert (Hk : check_known env self u evs siblings) by (right; exact Hcheck).
      destruct (@to_dict_miss env self siblings u evs s Hcoh F Hs Hk Hnd)
        as [r [s1 [E1 [C1 [L1 _]]]]].
      destruct (@get_releases_returns env self u evs siblings length Hs Hk Hne s1 C1)
        as [s2 [E2 [_ L2]]].
      rewrite checks_log_repeat in L1, L2.
      exists r, s1. eexists. exists s2.
      split; [exact E1 | split; [exact L1 | split; [exact E2 | split; [exact L2 |]]]].
      eexists. reflexivity.
    + destruct (Nat.eq_dec k 0) as [Hk0 | Hk0].
      * pose proof (reaches_none env siblings Hk0) as Hall.
        assert (Hk : check_known env self None evs siblings) by (left; exact Hall).
        destruct (@to_dict_miss env self siblings None evs s Hcoh F Hs Hk Hnd)
          as [r [s1 [E1 [C1 [L1 _]]]]].
        destruct (@get_releases_returns env self None evs siblings length
                    Hs Hk Hne s1 C1) as [s2 [E2 [_ L2]]].
        rewrite checks_log_repeat in L1, L2. fold k in L1, L2.
        assert (Ec : calls = List.concat (repeat evs k)).
        { unfold calls, runs. rewrite Hk0. reflexivity. }
        rewrite <- Ec in L1, L2.
        exists r, s1. eexists. exists s2.
        split; [exact E1 | split; [exact L1 | split; [exact E2 | split; [exact L2 |]]]].
        split; [intros _; eexists; reflexivity | intros H; contradiction].
      * pose proof (reaches_some env siblings Hk0) as Hex.
        destruct (@to_dict_raises env self e evs Hcheck siblings s Hcoh F Hs Hex)
          as [s1 [E1 [C1 L1]]].
        destruct (@get_releases_raises env self e evs Hcheck siblings length
                    Hs Hne Hex s1 C1) as [s2 [E2 [_ L2]]].
        assert (Ec : calls = evs).
        { unfold calls, runs. replace (Nat.min 1 k) with 1%nat by lia.
          cbn [repeat List.concat]. apply app_nil_r. }
        rewrite <- Ec in L1, L2.
        exists (Raise e), s1, (Raise e), s2.
        split; [exact E1 | split; [exact L1 | split; [exact E2 | split; [exact L2 |]]]].
        split; [intros H; contradiction | intros _; split; reflexivity].
  - intros Hlp. unfold calls. rewrite count_checks_repeat, (Hstart Hlp). lia.
Qed.

Lemma unapproved_check_per_open_sibling_witness :
  exists r s1 out s2 calls,
    to_dict (example_env (Some no_uploads)) example_open_record init_state
    = (r, s1) /\
    log s1 = calls /\
    get_releases (example_env (Some no_uploads)) example_open_record 7 s1
    = (Ok out, s2) /\
    log s2 = calls ++ calls /\
    count_checks calls = 2%nat.
Proof.
  assert (Hsib : run (_sibling_tasks example_open_record)
                 = (Ok [(lit "trusty",
                         example_entry "ubuntu/trusty/+source/pkg/+bug/12" "New");
                        (lit "-devel",
                         example_entry "ubuntu/+source/pkg/+bug/12" "Confirmed")],
                    [])) by (vm_compute; reflexivity).
  assert (Hcheck : run (_is_in_unapproved (example_env (Some no_uploads))
                          example_open_record)
                   = (Ok (Some false),
                      [EvDistributions (lit "ubuntu"); EvGetSeries (lit "trusty");
                       EvGetPackageUploads (lit "trusty") (lit "pkg")]))
    by (vm_compute; reflexivity).
  destruct (@unapproved_check_per_open_sibling (example_env (Some no_uploads))
              example_open_record _ _ _ 7%Z init_state Hsib Hcheck)
    as [[r [s1 [r' [s2 [E1 [L1 [E2 [L2 [out Hout]]]]]]]]] [Hc _]].
  - repeat (apply Forall_cons; [discriminate |]). apply Forall_nil.
  - apply coherent_init.
  - reflexivity.
  - subst r'. exists r, s1, out, s2. eexists.
    cbn [log init_state app] in L1.
    split; [exact E1 | split; [exact L1 | split; [exact E2 |]]].
    rewrite L1 in L2. split; [exact L2 |].
    apply Hc. discriminate.
Defined.

(** ** get_flags *)

(** C10, counterexample. [Task()], the [lp_task=None] default of
    [__init__], makes a record whose flags are [None]; with [AGE] and
    [OLD] unset [_is_updated] and [_is_old] return [None] on it, but
    [get_flags(newbug=False)] does not succeed: the verification flags
    read the tags of the bug through [self.obj], which is [None], and
    the call raises [AttributeError]. *)
Lemma get_flags_raises_without_task :
  exists t,
    Task_init 5%N None = Ok t /\
    subscribed t = None /\
    last_activity_ours t = None /\
    AGE (example_env None) = None /\
    OLD (example_env None) = None /\
    run (_is_updated (example_env None) t) = (Ok None, []) /\
    run (_is_old (example_env None) t) = (Ok None, []) /\
    run (get_flags (example_env None) t false) = (Raise AttributeError, []) /\
    forall out, fst (run (get_flags (example_env None) t false)) <> Ok out.
Proof.
  eexists. split; [reflexivity |].
  repeat (split; [reflexivity |]).
  intros out. vm_compute. discriminate.
Qed.

(** C10, amended. On a freshly constructed record, whose flags
    [subscribed] and [last_activity_ours] are still [None], with [AGE]
    and [OLD] unset: [_is_updated] and [_is_old] return [None] (not
    [False], and no error) and touch nothing. When the record wraps a
    task ([Task(lp_task)]), [get_flags(newbug=False)] returns a string
    that starts with four spaces: subscribed, last activity ours,
    updated or old, and new bug. When it wraps none ([Task()]),
    [get_flags] raises [AttributeError]. Both constructions leave the two
    flags [None]. *)
Theorem get_flags_fresh (env : Env) (self : Task) :
  subscribed self = None ->
  last_activity_ours self = None ->
  AGE env = None ->
  OLD env = None ->
  (forall s, _is_updated env self s = (Ok None, s)) /\
  (forall s, _is_old env self s = (Ok None, s)) /\
  @Ok (option bool) None <> Ok (Some false) /\
  (forall o,
      obj self = Some o ->
      ends env self (get_flags env self false)
        (Ok (lit "    "
               ++ (if existsb (substring_in (lit "verification-needed-"))
                        (bug_tags (lp_bug o))
                   then mark (lit "v") COLOR_CYAN else lit " ")
               ++ (if existsb (substring_in (lit "verification-done-"))
                        (bug_tags (lp_bug o))
                   then mark (lit "V") COLOR_GREEN else lit " ")))) /\
  (obj self = None ->
   ends env self (get_flags env self false) (Raise AttributeError)) /\
  (forall id lp_task t,
      Task_init id lp_task = Ok t ->
      obj t = lp_task /\ subscribed t = None /\ last_activity_ours t = None).
Proof.
  intros Hsub Hlast Hage Hold.
  assert (Hupd : forall s, _is_updated env self s = (Ok None, s)).
  { intros s. unfold _is_updated. rewrite Hage. reflexivity. }
  assert (Hisold : forall s, _is_old env self s = (Ok None, s)).
  { intros s. unfold _is_old. rewrite Hold. reflexivity. }
  pose proof (@tags_returns env self) as Htags. unfold obj_res in Htags.
  split; [exact Hupd | split; [exact Hisold | split; [discriminate |]]].
  split; [| split].
  - intros o Hobj. rewrite Hobj in Htags. exists [].
    unfold get_flags. cbv zeta. rewrite Hsub, Hlast. cbn [truthy].
    unfold _is_updated, _is_old. rewrite Hage, Hold.
    quiet_step; [apply returns_ret |]. cbn [truthy].
    quiet_step; [quiet_step; [apply returns_ret | apply returns_ret] |].
    unfold _is_verification_needed, _is_verification_done.
    quiet_step; [quiet_step; [exact Htags | apply returns_ret] |].
    quiet_step; [quiet_step; [exact Htags | apply returns_ret] |].
    cbn [truthy app].
    match goal with
    | |- returns _ _ (ret ?a) (Ok ?b) _ => replace b with a; [apply returns_ret |]
    end.
    cbn [app]. rewrite <- !app_assoc. reflexivity.
  - intros Hobj. rewrite Hobj in Htags. exists [].
    unfold get_flags. cbv zeta.
    unfold _is_updated, _is_old. rewrite Hage, Hold.
    quiet_step; [apply returns_ret |]. cbn [truthy].
    quiet_step; [quiet_step; [apply returns_ret | apply returns_ret] |].
    unfold _is_verification_needed.
    apply returns_bind_raise. apply returns_bind_raise. exact Htags.
  - intros id lp_task t. unfold Task_init, bindR.
    destruct lp_task as [o |].
    + destruct (get_item (split_on SLASH (lp_link o)) 4); [| discriminate].
      destruct (get_item_from_end (split_on SLASH (lp_link o)) 3);
        [| discriminate].
      destruct (get_item (split_on SLASH (lp_link o)) 5); [| discriminate].
      intros E. inversion E; subst. auto.
    + intros E. inversion E; subst. auto.
Qed.

Lemma get_flags_fresh_witness :
  exists t,
    Task_init 5%N
      (Some (example_lp_task (lit "Bug #12 in pkg (Ubuntu): summary")
               DISTRIBUTION_SOURCE_PACKAGE_RESOURCE_TYPE_LINK []))
    = Ok t /\
    fst (run (get_flags (example_env None) t false)) = Ok (lit "      ").
Proof.
  pose (o := example_lp_task (lit "Bug #12 in pkg (Ubuntu): summary")
               DISTRIBUTION_SOURCE_PACKAGE_RESOURCE_TYPE_LINK []).
  exists (example_task 5%N (lit "focal") o).
  split; [vm_compute; reflexivity |].
  destruct (proj1 (proj2 (proj2 (proj2
              (@get_flags_fresh (example_env None)
                 (example_task 5%N (lit "focal") o)
                 eq_refl eq_refl eq_refl eq_refl)))) o eq_refl) as [evs H].
  apply returns_run in H. rewrite H. reflexivity.
Defined.

(** * Further properties of the module *)

(** ** truncate_string, again *)

(** X1. For a length of at least 1 the result of [truncate_string] has
    at most that many characters, and truncating it again changes
    nothing. *)
Theorem truncate_string_idempotent (s : pystr) (n : Z) :
  (1 <= n)%Z ->
  (len (truncate_string s n) <= n)%Z /\
  truncate_string (truncate_string s n) n = truncate_string s n.
Proof.
  intros Hn.
  assert (Hlen : (len (truncate_string s n) <= n)%Z).
  { destruct (Z.le_gt_cases (len s) n) as [H | H].
    - rewrite truncate_string_short by lia. exact H.
    - rewrite truncate_string_long by lia.
      unfold len in *. rewrite length_app, length_firstn. simpl. lia. }
  split; [exact Hlen |].
  apply truncate_string_short; [lia | exact Hlen].
Qed.

Lemma truncate_string_idempotent_witness :
  truncate_string (truncate_string (lit "abcdefghij") 5) 5
  = truncate_string (lit "abcdefghij") 5.
Proof.
  exact (proj2 (@truncate_string_idempotent (lit "abcdefghij") 5 ltac:(lia))).
Defined.

(** ** Task(lp_task) *)

(** X2. [Task(lp_task)] raises [IndexError] when the path of the task
    has fewer than six '/'-separated elements. Otherwise it takes the
    distro from element 4, the source package name from the third
    element from the end and the series from element 5; the series of
    the record is never "+source", and it is "-devel" exactly when
    element 5 is "+source" or "-devel". *)
Theorem Task_init_elements (id : ObjId) (o : LpTask) :
  let elements := split_on SLASH (lp_link o) in
  ((List.length elements < 6)%nat -> Task_init id (Some o) = Raise IndexError) /\
  ((6 <= List.length elements)%nat ->
   exists t,
     Task_init id (Some o) = Ok t /\
     task_id t = id /\ obj t = Some o /\
     distro t = nth_error elements 4 /\
     source_package_name t = nth_error elements (List.length elements - 3) /\
     series t <> Some (lit "+source") /\
     (series t = Some (lit "-devel") <->
      nth_error elements 5 = Some (lit "+source") \/
      nth_error elements 5 = Some (lit "-devel")) /\
     (nth_error elements 5 <> Some (lit "+source") ->
      series t = nth_error elements 5)).
Proof.
  intros elements. unfold Task_init. fold elements.
  unfold get_item, get_item_from_end, index, index_from_end, bindR. split.
  - intros Hlen.
    destruct (nth_error elements 4) as [e4 |] eqn:E4; [| reflexivity].
    assert (H4 : (4 < List.length elements)%nat)
      by (apply nth_error_Some; congruence).
    destruct (Nat.ltb_spec (List.length elements) 3); [lia |].
    destruct (nth_error elements (List.length elements - 3)) as [e3 |] eqn:E3.
    2: { apply nth_error_None in E3. lia. }
    destruct (nth_error elements 5) as [e5 |] eqn:E5; [| reflexivity].
    assert (H5 : (5 < List.length elements)%nat)
      by (apply nth_error_Some; congruence).
    lia.
  - intros Hlen.
    destruct (nth_error elements 4) as [e4 |] eqn:E4.
    2: { apply nth_error_None in E4. lia. }
    destruct (Nat.ltb_spec (List.length elements) 3); [lia |].
    destruct (nth_error elements (List.length elements - 3)) as [e3 |] eqn:E3.
    2: { apply nth_error_None in E3. lia. }
    destruct (nth_error elements 5) as [e5 |] eqn:E5.
    2: { apply nth_error_None in E5. lia. }
    eexists. split; [reflexivity |]. cbn [task_id obj distro source_package_name series].
    repeat split; try reflexivity.
    + destruct (str_eqb_spec e5 (lit "+source")); [discriminate | congruence].
    + destruct (str_eqb_spec e5 (lit "+source")) as [-> | Hne]; [auto |].
      intros Hd. right. exact Hd.
    + intros [Hd | Hd]; inversion Hd; subst; reflexivity.
    + intros Hne. destruct (str_eqb_spec e5 (lit "+source")); congruence.
Qed.

Lemma Task_init_elements_witness :
  exists t,
    Task_init 9%N
      (Some (example_lp_task (lit "Bug #12 in pkg (Ubuntu): summary")
               DISTRIBUTION_SOURCE_PACKAGE_RESOURCE_TYPE_LINK []))
    = Ok t /\ series t = Some (lit "focal").
Proof.
  destruct (@Task_init_elements 9%N
              (example_lp_task (lit "Bug #12 in pkg (Ubuntu): summary")
                 DISTRIBUTION_SOURCE_PACKAGE_RESOURCE_TYPE_LINK []))
    as [_ H].
  destruct H as [t [E [_ [_ [_ [_ [_ [_ Hs]]]]]]]].
  - apply Nat.leb_le. vm_compute. reflexivity.
  - exists t. split; [exact E |]. rewrite Hs; [vm_compute; reflexivity |].
    vm_compute. discriminate.
Defined.

(** ** number, short_title and assignee, at their edges *)

(** X3. [number] is the second space-separated token of the title with
    every '#' removed, so it never holds a '#'. It raises
    [AttributeError] on a record without task and [IndexError] when the
    title has no space. *)
Theorem number_edges (env : Env) (self : Task) :
  (forall s v s',
      coherent env self s -> number self s = (Ok v, s') -> free_of HASH v = true) /\
  (forall o first tok rest,
      obj self = Some o ->
      lp_title o = first ++ SPACE :: tok ++ SPACE :: rest ->
      free_of SPACE first = true ->
      free_of SPACE tok = true ->
      returns env self (number self) (Ok (remove_char HASH tok)) []) /\
  (obj self = None -> returns env self (number self) (Raise AttributeError) []) /\
  (forall o,
      obj self = Some o ->
      free_of SPACE (lp_title o) = true ->
      returns env self (number self) (Raise IndexError) []).
Proof.
  pose proof (@number_returns env self) as H. unfold obj_res in H.
  split; [| split; [| split]].
  - intros s v s' Hs E. destruct (H s Hs) as [s'' [E' _]].
    rewrite E in E'. inversion E' as [[Hv Hs']].
    destruct (obj self) as [o |]; [| discriminate].
    cbn [bindR] in Hv. unfold number_of_title, bindR in Hv.
    destruct (get_item (split_on SPACE (lp_title o)) 1); [| discriminate].
    inversion Hv. apply free_of_remove_char.
  - intros o first tok rest Hobj Ht Hf Htok. rewrite Hobj in H. cbn [bindR] in H.
    rewrite Ht in H. unfold number_of_title in H.
    rewrite split_on_app, split_on_app in H by assumption.
    exact H.
  - intros Hobj. rewrite Hobj in H. exact H.
  - intros o Hobj Hfree. rewrite Hobj in H. cbn [bindR] in H.
    unfold number_of_title in H. rewrite (split_on_free _ _ Hfree) in H.
    exact H.
Qed.

Lemma number_edges_witness :
  run (number example_hash_record) = (Ok (lit "123"), []).
Proof.
  apply (@returns_run (example_env None) example_hash_record).
  exact (proj1 (proj2 (@number_edges (example_env None) example_hash_record))
           (example_lp_task (lit "Bug ##12#3 in pkg")
              DISTRIBUTION_SOURCE_PACKAGE_RESOURCE_TYPE_LINK [])
           (lit "Bug") (lit "##12#3") (lit "in pkg")
           eq_refl eq_refl eq_refl eq_refl).
Defined.

(** X4. [short_title] never holds a double quote. It raises [KeyError]
    when the target of the task is none of the four resource types,
    whatever the title, and it is the empty string when the title has no
    more tokens than are dropped. *)
Theorem short_title_edges (env : Env) (self : Task) :
  (forall s v s',
      coherent env self s -> short_title self s = (Ok v, s') ->
      free_of QUOTE v = true) /\
  (forall o,
      obj self = Some o ->
      start_field (lp_target_resource_type_link o) = None ->
      returns env self (short_title self) (Raise KeyError) []) /\
  (forall o start,
      obj self = Some o ->
      start_field (lp_target_resource_type_link o) = Some start ->
      (List.length (split_on SPACE (lp_title o)) <= start)%nat ->
      returns env self (short_title self) (Ok []) []).
Proof.
  pose proof (@short_title_returns env self) as H. unfold obj_res in H.
  split; [| split].
  - intros s v s' Hs E. destruct (H s Hs) as [s'' [E' _]].
    rewrite E in E'. inversion E' as [[Hv Hs']].
    destruct (obj self) as [o |]; [| discriminate].
    cbn [bindR] in Hv.
    destruct (start_field (lp_target_resource_type_link o)); [| discriminate].
    inversion Hv. apply free_of_remove_char.
  - intros o Hobj Hstart. rewrite Hobj in H. cbn [bindR] in H.
    rewrite Hstart in H. exact H.
  - intros o start Hobj Hstart Hlen. rewrite Hobj in H. cbn [bindR] in H.
    rewrite Hstart in H. rewrite skipn_all2 in H by exact Hlen. exact H.
Qed.

Lemma short_title_edges_witness :
  run (short_title example_team_record) = (Raise KeyError, []).
Proof.
  apply (@returns_run (example_env None) example_team_record).
  exact (proj1 (proj2 (@short_title_edges (example_env None) example_team_record))
           (example_lp_task (lit "Bug #12 in pkg") (lit "team") [])
           eq_refl eq_refl).
Defined.

Lemma assignee_returns env self :
  returns env self (assignee self)
    (link <-- obj_res self lp_assignee_link ;;
     if truthy_str link then
       name <-- get_item
                  (split_on TILDE (match link with Some l => l | None => [] end))
                  1 ;;
       Ok (Some name)
     else Ok None) [].
Proof.
  unfold assignee. apply returns_lru_cache with (c := C_assignee);
    [discriminate | reflexivity |].
  apply returns_bind_res; [apply returns_obj_attr |].
  intros link _. destruct (truthy_str link); [| apply returns_ret].
  apply returns_bind_res; [apply returns_lift |].
  intros name _. apply returns_ret.
Qed.

(** X5. [assignee] is the text between the first '~' of the assignee
    link and the next one, if any; it is the "no assignee" value when
    the link is [None] or empty, and raises [IndexError] on a link
    without '~'. *)
Theorem assignee_of_link (env : Env) (self : Task) (o : LpTask) :
  obj self = Some o ->
  (truthy_str (lp_assignee_link o) = false ->
   returns env self (assignee self) (Ok None) []) /\
  (forall prefix name,
      lp_assignee_link o = Some (prefix ++ TILDE :: name) ->
      free_of TILDE prefix = true ->
      free_of TILDE name = true ->
      returns env self (assignee self) (Ok (Some name)) []) /\
  (forall link,
      lp_assignee_link o = Some link ->
      link <> [] ->
      free_of TILDE link = true ->
      returns env self (assignee self) (Raise IndexError) []).
Proof.
  intros Hobj. pose proof (@assignee_returns env self) as H.
  unfold obj_res in H. rewrite Hobj in H. cbn [bindR] in H.
  split; [| split].
  - intros Hf. rewrite Hf in H. exact H.
  - intros prefix name Hl Hp Hn. rewrite Hl in H.
    assert (Ht : truthy_str (Some (prefix ++ TILDE :: name)) = true)
      by (destruct prefix; reflexivity).
    rewrite Ht in H. rewrite split_on_app in H by exact Hp.
    rewrite (split_on_free _ _ Hn) in H. exact H.
  - intros link Hl Hne Hf. rewrite Hl in H.
    assert (Ht : truthy_str (Some link) = true)
      by (destruct link; [congruence | reflexivity]).
    rewrite Ht in H. rewrite (split_on_free _ _ Hf) in H. exact H.
Qed.

Lemma assignee_of_link_witness :
  run (assignee example_assigned_record) = (Ok (Some (lit "ahasenack")), []).
Proof.
  apply (@returns_run (example_env None) example_assigned_record).
  exact (proj1 (proj2 (@assignee_of_link (example_env None)
                         example_assigned_record example_assigned_task eq_refl))
           (lit "https://api.launchpad.net/devel/") (lit "ahasenack")
           eq_refl eq_refl eq_refl).
Defined.

(** ** Verification tags and flags *)

Lemma starts_with_prefix p : forall s,
  starts_with p s = true <-> exists post, s = p ++ post.
Proof.
  induction p as [| a p IH]; intros s.
  - simpl. split; [intros _; exists s; reflexivity | reflexivity].
  - destruct s as [| b s]; simpl.
    + split; [discriminate | intros [post H]; discriminate].
    + rewrite andb_true_iff, N.eqb_eq, IH. split.
      * intros [-> [post ->]]. exists post. reflexivity.
      * intros [post H]. inversion H. split; [reflexivity | exists post; reflexivity].
Qed.

Lemma substring_in_holds needle : forall hay,
  substring_in needle hay = true <-> holds needle hay.
Proof.
  induction hay as [| c hay IH].
  - simpl. rewrite orb_false_r, starts_with_prefix. split.
    + intros [post H]. exists [], post. exact H.
    + intros [pre [post H]]. destruct pre; [exists post; exact H |].
      discriminate.
  - cbn [substring_in]. rewrite orb_true_iff, starts_with_prefix, IH. split.
    + intros [[post H] | [pre [post H]]].
      * exists [], post. exact H.
      * exists (c :: pre), post. rewrite H. reflexivity.
    + intros [pre [post H]]. destruct pre as [| c' pre].
      * left. exists post. exact H.
      * right. inversion H. exists pre, post. reflexivity.
Qed.

(** X6. On a record that wraps a task, [_is_verification_needed] is true
    exactly when some tag of the bug holds the text
    "verification-needed-" anywhere in it, and [_is_verification_done]
    likewise for "verification-done-". *)
Theorem verification_by_tags (env : Env) (self : Task) (o : LpTask) :
  obj self = Some o ->
  exists needed done,
    ends env self (_is_verification_needed self) (Ok needed) /\
    ends env self (_is_verification_done self) (Ok done) /\
    (needed = true <->
     exists tag, In tag (bug_tags (lp_bug o)) /\
                 holds (lit "verification-needed-") tag) /\
    (done = true <->
     exists tag, In tag (bug_tags (lp_bug o)) /\
                 holds (lit "verification-done-") tag).
Proof.
  intros Hobj. pose proof (@tags_returns env self) as Htags.
  unfold obj_res in Htags. rewrite Hobj in Htags.
  exists (existsb (substring_in (lit "verification-needed-")) (bug_tags (lp_bug o))),
    (existsb (substring_in (lit "verification-done-")) (bug_tags (lp_bug o))).
  split; [| split; [| split]].
  - exists []. unfold _is_verification_needed.
    quiet_step; [exact Htags | apply returns_ret].
  - exists []. unfold _is_verification_done.
    quiet_step; [exact Htags | apply returns_ret].
  - rewrite existsb_exists. split; intros [tag [Hin H]]; exists tag;
      (split; [exact Hin | apply substring_in_holds; exact H]).
  - rewrite existsb_exists. split; intros [tag [Hin H]]; exists tag;
      (split; [exact Hin | apply substring_in_holds; exact H]).
Qed.

Lemma verification_by_tags_witness :
  fst (run (_is_verification_needed example_assigned_record)) = Ok true.
Proof.
  destruct (@verification_by_tags (example_env None) example_assigned_record
              example_assigned_task eq_refl)
    as [needed [done [[evs Hn] [_ [Hiff _]]]]].
  apply returns_run in Hn. rewrite Hn. cbn [fst]. f_equal. apply Hiff.
  exists (lit "verification-needed-focal"). split; [left; reflexivity |].
  exists [], (lit "focal"). reflexivity.
Defined.

Lemma is_updated_returns env self o :
  obj self = Some o ->
  returns env self (_is_updated env self)
    (Ok (match AGE env with
         | Some age => Some (bug_date_last_updated (lp_bug o) >? age)%Z
         | None => None
         end)) [].
Proof.
  intros Hobj. unfold _is_updated. destruct (AGE env); [| apply returns_ret].
  pose proof (@date_last_updated_returns env self) as H.
  unfold obj_res in H. rewrite Hobj in H.
  quiet_step; [exact H | apply returns_ret].
Qed.

Lemma is_old_returns env self o :
  obj self = Some o ->
  returns env self (_is_old env self)
    (Ok (match OLD env with
         | Some old => Some (bug_date_last_updated (lp_bug o) <? old)%Z
         | None => None
         end)) [].
Proof.
  intros Hobj. unfold _is_old. destruct (OLD env); [| apply returns_ret].
  pose proof (@date_last_updated_returns env self) as H.
  unfold obj_res in H. rewrite Hobj in H.
  quiet_step; [exact H | apply returns_ret].
Qed.

Lemma get_flags_returns env self o newbug :
  obj self = Some o ->
  let d := bug_date_last_updated (lp_bug o) in
  returns env self (get_flags env self newbug)
    (Ok ((if truthy (subscribed self) then lit "*" else lit " ")
           ++ (if truthy (last_activity_ours self) then lit "+" else lit " ")
           ++ (if is_recent env d then lit "U"
               else if is_stale env d then lit "O" else lit " ")
           ++ (if newbug then lit "N" else lit " ")
           ++ (if existsb (substring_in (lit "verification-needed-"))
                    (bug_tags (lp_bug o))
               then mark (lit "v") COLOR_CYAN else lit " ")
           ++ (if existsb (substring_in (lit "verification-done-"))
                    (bug_tags (lp_bug o))
               then mark (lit "V") COLOR_GREEN else lit " "))) [].
Proof.
  intros Hobj d.
  pose proof (@tags_returns env self) as Htags.
  unfold obj_res in Htags. rewrite Hobj in Htags.
  pose proof (@is_updated_returns env self o Hobj) as Hu.
  pose proof (@is_old_returns env self o Hobj) as Ho.
  unfold get_flags. cbv zeta.
  quiet_step; [exact Hu |].
  quiet_step.
  { instantiate (1 := if is_recent env d then lit "U"
                      else if is_stale env d then lit "O" else lit " ").
    unfold is_recent, is_stale. fold d.
    destruct (AGE env) as [age |]; cbn [truthy].
    - destruct (d >? age)%Z; [apply returns_ret |].
      quiet_step; [exact Ho |]. fold d.
      destruct (OLD env) as [old |]; cbn [truthy]; apply returns_ret.
    - quiet_step; [exact Ho |]. fold d.
      destruct (OLD env) as [old |]; cbn [truthy]; apply returns_ret. }
  unfold _is_verification_needed, _is_verification_done.
  quiet_step; [quiet_step; [exact Htags | apply returns_ret] |].
  quiet_step; [quiet_step; [exact Htags | apply returns_ret] |].
  match goal with
  | |- returns _ _ (ret ?a) (Ok ?b) _ => replace b with a; [apply returns_ret |]
  end.
  cbn [app]. rewrite <- !app_assoc. reflexivity.
Qed.

(** X7. On a record that wraps a task [get_flags] always shows six
    characters, colour markers left out: '*' or space for subscribed,
    '+' or space for last activity ours, 'U' when the bug was updated
    after [AGE], else 'O' when it was updated before [OLD], else space,
    'N' or space for a new bug, 'v' or space and 'V' or space for the
    verification tags. On a record without task it raises
    [AttributeError]. *)
Theorem get_flags_visible (env : Env) (self : Task) (newbug : bool) :
  (forall o,
      obj self = Some o ->
      let d := bug_date_last_updated (lp_bug o) in
      exists flags,
        returns env self (get_flags env self newbug) (Ok flags) [] /\
        strip_markers flags
        = [ if truthy (subscribed self) then 42 else 32;
            if truthy (last_activity_ours self) then 43 else 32;
            if is_recent env d then 85 else if is_stale env d then 79 else 32;
            if newbug then 78 else 32;
            if existsb (substring_in (lit "verification-needed-"))
                 (bug_tags (lp_bug o)) then 118 else 32;
            if existsb (substring_in (lit "verification-done-"))
                 (bug_tags (lp_bug o)) then 86 else 32 ]%N) /\
  (obj self = None ->
   returns env self (get_flags env self newbug) (Raise AttributeError) []).
Proof.
  split.
  - intros o Hobj d. eexists. split; [apply (@get_flags_returns env self o newbug Hobj) |].
    fold d.
    destruct (truthy (subscribed self)), (truthy (last_activity_ours self)),
      (is_recent env d), (is_stale env d), newbug,
      (existsb (substring_in (lit "verification-needed-")) (bug_tags (lp_bug o))),
      (existsb (substring_in (lit "verification-done-")) (bug_tags (lp_bug o)));
      reflexivity.
  - intros Hobj.
    pose proof (@tags_returns env self) as Htags.
    pose proof (@date_last_updated_returns env self) as Hd.
    unfold obj_res in Htags, Hd. rewrite Hobj in Htags, Hd.
    unfold get_flags. cbv zeta.
    unfold _is_updated, _is_old, _is_verification_needed.
    destruct (AGE env) as [age |].
    + apply returns_bind_raise, returns_bind_raise. exact Hd.
    + quiet_step; [apply returns_ret |]. cbn [truthy].
      destruct (OLD env) as [old |].
      * apply returns_bind_raise, returns_bind_raise, returns_bind_raise. exact Hd.
      * quiet_step; [quiet_step; [apply returns_ret | apply returns_ret] |].
        apply returns_bind_raise, returns_bind_raise. exact Htags.
Qed.

Lemma get_flags_visible_witness :
  exists flags,
    run (get_flags (example_env None) example_assigned_record true) = (Ok flags, []) /\
    strip_markers flags = lit "   Nv ".
Proof.
  destruct (proj1 (@get_flags_visible (example_env None) example_assigned_record true)
              example_assigned_task eq_refl) as [flags [Hr Hs]].
  exists flags. split; [apply returns_run in Hr; exact Hr |].
  rewrite Hs. vm_compute. reflexivity.
Defined.

(** ** find_changes_bugs *)

Lemma split_ws_from_blank gap s :
  is_blank gap = true -> split_ws_from [] (gap ++ s) = split_ws_from [] s.
Proof.
  unfold is_blank. induction gap as [| c gap IH]; intros H; [reflexivity |].
  cbn [forallb] in H. apply andb_true_iff in H. destruct H as [Hc Hg].
  cbn [app split_ws_from]. rewrite Hc. apply IH. exact Hg.
Qed.

Lemma split_ws_from_token tok s :
  is_token tok = true ->
  split_ws_from [] (tok ++ s) = split_ws_from (rev tok) s /\ rev tok <> [].
Proof.
  intros H. apply is_token_free in H. destruct H as [Hne Hfree]. split.
  - rewrite split_ws_from_app by exact Hfree. rewrite app_nil_r. reflexivity.
  - intros E. apply (f_equal (@rev N)) in E. rewrite rev_involutive in E.
    contradiction.
Qed.

(** [str.split()] gives back the tokens of a field, however much white
    space is written around and between them. *)
Lemma split_ws_spaced lead toks :
  is_blank lead = true ->
  well_spaced toks = true ->
  split_ws (spaced lead toks) = map fst toks.
Proof.
  intros Hlead. unfold split_ws, spaced.
  rewrite split_ws_from_blank by exact Hlead. clear lead Hlead.
  induction toks as [| [tok gap] rest IH]; intros H; [reflexivity |].
  cbn [well_spaced] in H. rewrite !andb_true_iff in H.
  destruct H as [[[Htok Hgap] Hsep] Hrest].
  cbn [map List.concat fst snd]. rewrite <- app_assoc.
  destruct (@split_ws_from_token tok
              (gap ++ List.concat (map (fun tg => fst tg ++ snd tg) rest))
              Htok) as [E Hr].
  rewrite E. clear E.
  destruct gap as [| c gap].
  - destruct rest as [| tg rest]; [| discriminate Hsep].
    cbn [map List.concat app split_ws_from].
    destruct (rev tok) eqn:Er; [contradiction |].
    rewrite <- Er, rev_involutive. reflexivity.
  - unfold is_blank in Hgap. cbn [forallb] in Hgap.
    apply andb_true_iff in Hgap. destruct Hgap as [Hc Hgap].
    cbn [app split_ws_from]. rewrite Hc.
    destruct (rev tok) eqn:Er; [contradiction |].
    rewrite <- Er, rev_involutive.
    rewrite split_ws_from_blank by exact Hgap.
    rewrite (IH Hrest). reflexivity.
Qed.

(** X8. [find_changes_bugs] opens the changes file once. When opening or
    parsing it raises, the call ends with that exception: nothing in the
    function catches it. When the file loads, the call returns no bug if
    the file has no Launchpad-Bugs-Fixed field (the [KeyError] that is
    caught); otherwise it returns the tokens of the field, none empty and
    none with white space in it: exactly the tokens written in the field,
    whatever white space is around and between them. *)
Theorem find_changes_bugs_tokens (env : Env) (self : Task) (changes_url : pystr) :
  (forall e,
      changes_bugs_fixed env changes_url = Raise e ->
      returns env self (find_changes_bugs env changes_url) (Raise e)
        [EvUrlopen changes_url]) /\
  (forall changes,
      changes_bugs_fixed env changes_url = Ok changes ->
      exists bugs,
        returns env self (find_changes_bugs env changes_url) (Ok bugs)
          [EvUrlopen changes_url] /\
        (changes = None -> bugs = []) /\
        Forall (fun tok => is_token tok = true) bugs /\
        (forall lead toks,
            changes = Some (spaced lead toks) ->
            is_blank lead = true ->
            well_spaced toks = true ->
            bugs = map fst toks)).
Proof.
  pose proof (@find_changes_bugs_returns env self changes_url) as H.
  split.
  - intros e E. rewrite E in H. exact H.
  - intros changes E. rewrite E in H. cbn [bindR] in H.
    eexists. split; [exact H |].
    destruct changes as [bugs_str |].
    + split; [discriminate | split].
      * apply split_ws_from_tokens. reflexivity.
      * intros lead toks Ef Hlead Htoks. inversion Ef.
        apply split_ws_spaced; assumption.
    + split; [reflexivity | split; [constructor | discriminate]].
Qed.

Lemma find_changes_bugs_tokens_witness :
  run (find_changes_bugs example_queue_env (lit "changes"))
  = (Ok [lit "11"; lit "12"], [EvUrlopen (lit "changes")]) /\
  run (find_changes_bugs (example_env_of []) (lit "broken"))
  = (Raise ValueError, [EvUrlopen (lit "broken")]).
Proof.
  destruct (@find_changes_bugs_tokens example_queue_env example_record
              (lit "changes")) as [_ Hok].
  destruct (Hok (Some (lit "11 12")) eq_refl) as [bugs [Hr [_ [_ Hj]]]].
  destruct (@find_changes_bugs_tokens (example_env_of []) example_record
              (lit "broken")) as [Hraise _].
  split.
  - apply returns_run in Hr. rewrite Hr. f_equal. f_equal.
    apply (Hj [] [(lit "11", lit " "); (lit "12", [])]); reflexivity.
  - apply (@returns_run (example_env_of []) example_record).
    apply Hraise. reflexivity.
Defined.

(** ** The scan of the queue, upload by upload *)

Section Scan.

Variable env : Env.
Variable self : Task.
Variable num : pystr.
Hypothesis number_num : returns env self (number self) (Ok num) [].

(** An upload that passes without a match changes nothing to the result
    of the scan of what follows. *)
Lemma scan_uploads_passes upload :
  passes env num upload = true ->
  exists evs_u,
    forall rest r evs,
      returns env self (scan_uploads env self rest) r evs ->
      returns env self (scan_uploads env self (upload :: rest)) r (evs_u ++ evs).
Proof.
  unfold passes. intros Hp. apply andb_true_iff in Hp. destruct Hp as [Hesc Hp].
  apply negb_true_iff in Hesc.
  destruct (scan_escapes_false env upload Hesc) as [Hres_esc Hload].
  unfold skipped, resolution_fails in Hp, Hload.
  unfold resolution_escapes in Hres_esc.
  destruct (get_upload_source_urls_returns env self upload) as [evs_u Hres].
  destruct (resolution upload) as [urls | e].
  - apply returns_except_ok in Hres. cbn [negb orb andb] in Hp, Hload.
    destruct (truthy_str (changes_file_url upload)) eqn:Hurl;
      cbn [negb orb] in Hp, Hload.
    + destruct (Hload eq_refl) as [changes Hchanges].
      rewrite (lists_bug_url env num upload Hurl Hchanges) in Hp.
      apply negb_true_iff in Hp.
      pose proof (@find_changes_bugs_returns env self
                    (match changes_file_url upload with
                     | Some u => u
                     | None => []
                     end)) as Hbugs.
      rewrite Hchanges in Hbugs. cbn [bindR] in Hbugs.
      exists (evs_u ++ [EvUrlopen
                          (match changes_file_url upload with
                           | Some u => u
                           | None => []
                           end)]).
      intros rest r evs Hscan. cbn [scan_uploads]. rewrite <- app_assoc.
      eapply returns_bind; [exact Hres |]. cbn beta iota. rewrite Hurl. cbn [negb].
      eapply returns_bind; [exact Hbugs |].
      change evs with (@nil Event ++ evs).
      eapply returns_bind; [exact number_num |]. cbn beta. rewrite Hp. exact Hscan.
    + exists evs_u. intros rest r evs Hscan. cbn [scan_uploads].
      eapply returns_bind; [exact Hres |]. cbn beta iota. rewrite Hurl.
      exact Hscan.
  - destruct e; try discriminate.
    apply returns_except_caught in Hres. exists evs_u.
    intros rest r evs Hscan. cbn [scan_uploads].
    eapply returns_bind; [exact Hres |]. exact Hscan.
Qed.

Lemma scan_uploads_pass_all pre :
  Forall (fun upload => passes env num upload = true) pre ->
  exists evs_pre,
    forall rest r evs,
      returns env self (scan_uploads env self rest) r evs ->
      returns env self (scan_uploads env self (pre ++ rest)) r (evs_pre ++ evs).
Proof.
  induction pre as [| upload pre IH]; intros H.
  - exists []. intros rest r evs Hscan. exact Hscan.
  - inversion H as [| ? ? Hu Hpre]; subst.
    destruct (IH Hpre) as [evs_pre Hrest].
    destruct (scan_uploads_passes upload Hu) as [evs_u Hup].
    exists (evs_u ++ evs_pre). intros rest r evs Hscan.
    rewrite <- app_assoc. cbn [app]. apply Hup. apply Hrest. exact Hscan.
Qed.

(** An upload whose changes file lists the bug ends the scan. *)
Lemma scan_uploads_match upload :
  resolution_escapes upload = false ->
  skipped upload = false ->
  lists_bug env num upload = true ->
  exists evs_u,
    forall post,
      returns env self (scan_uploads env self (upload :: post)) (Ok (Some true)) evs_u.
Proof.
  unfold skipped, resolution_fails, resolution_escapes.
  intros Hesc Hskip Hbug.
  destruct (get_upload_source_urls_returns env self upload) as [evs_u Hres].
  apply orb_false_iff in Hskip. destruct Hskip as [Hfail Hurl].
  apply negb_false_iff in Hurl.
  destruct (resolution upload) as [urls | e]; [| destruct e; discriminate].
  apply returns_except_ok in Hres.
  pose proof (@find_changes_bugs_returns env self
                (match changes_file_url upload with
                 | Some u => u
                 | None => []
                 end)) as Hbugs.
  assert (Hchanges : exists changes,
             changes_bugs_fixed env
               (match changes_file_url upload with Some u => u | None => [] end)
             = Ok changes).
  { unfold lists_bug in Hbug.
    destruct (changes_file_url upload) as [u |]; [| discriminate Hbug].
    destruct (changes_bugs_fixed env u) as [changes | e]; [| discriminate Hbug].
    exists changes. reflexivity. }
  destruct Hchanges as [changes Hchanges].
  rewrite Hchanges in Hbugs. cbn [bindR] in Hbugs.
  rewrite (lists_bug_url env num upload Hurl Hchanges) in Hbug.
  eexists. intros post. cbn [scan_uploads].
  eapply returns_bind; [exact Hres |]. cbn beta iota. rewrite Hurl. cbn [negb].
  eapply returns_bind; [exact Hbugs |].
  eapply returns_bind; [exact number_num |]. cbn beta. rewrite Hbug. apply returns_ret.
Qed.

(** An upload whose resolution ends with another exception than
    [RuntimeError] ends the scan with that exception. *)
Lemma scan_uploads_escape upload e :
  resolution upload = Raise e ->
  resolution_escapes upload = true ->
  exists evs_u,
    forall post,
      returns env self (scan_uploads env self (upload :: post)) (Raise e) evs_u.
Proof.
  unfold resolution_escapes. intros Hres Hesc.
  destruct (get_upload_source_urls_returns env self upload) as [evs_u H].
  rewrite Hres in H, Hesc.
  exists evs_u. intros post. cbn [scan_uploads]. apply returns_bind_raise.
  intros s Hs. destruct (H s Hs) as [s' [E HH]]. exists s'.
  unfold except_RuntimeError. rewrite E.
  destruct e; try discriminate; exact (conj eq_refl HH).
Qed.

End Scan.

Lemma number_of_title_returns env self o num :
  obj self = Some o ->
  number_of_title (lp_title o) = Ok num ->
  returns env self (number self) (Ok num) [].
Proof.
  intros Hobj Hnum. pose proof (@number_returns env self) as H.
  unfold obj_res in H. rewrite Hobj in H. cbn [bindR] in H.
  rewrite Hnum in H. exact H.
Qed.

(** X9. The scan of the unapproved queue stops at the first upload whose
    changes file lists the bug: when the uploads before it pass without
    a match, the result is [True] and the calls made are the same
    whatever uploads follow, none of which is looked at. *)
Theorem unapproved_scan_stops_at_match (env : Env) (self : Task) (o : LpTask)
  (num : pystr) (pre : list Upload) (upload : Upload) :
  obj self = Some o ->
  number_of_title (lp_title o) = Ok num ->
  Forall (fun earlier => passes env num earlier = true) pre ->
  resolution_escapes upload = false ->
  skipped upload = false ->
  lists_bug env num upload = true ->
  exists evs,
    forall post,
      returns env self (scan_uploads env self (pre ++ upload :: post))
        (Ok (Some true)) evs.
Proof.
  intros Hobj Hnum Hpre Hesc Hskip Hbug.
  pose proof (@number_of_title_returns env self o num Hobj Hnum) as Hn.
  destruct (@scan_uploads_pass_all env self num Hn pre Hpre) as [evs_pre Hp].
  destruct (@scan_uploads_match env self num Hn upload Hesc Hskip Hbug)
    as [evs_u Hu].
  exists (evs_pre ++ evs_u). intros post. apply Hp. apply Hu.
Qed.

Lemma unapproved_scan_stops_at_match_witness :
  exists evs,
    forall post,
      run (scan_uploads example_queue_env example_record
             (firstn 3 example_queue
                ++ example_upload "source" true false None (Some (lit "changes"))
                :: post))
      = (Ok (Some true), evs).
Proof.
  assert (Hpre : Forall (fun earlier => passes example_queue_env (lit "12") earlier = true)
                   (firstn 3 example_queue)).
  { repeat (apply Forall_cons; [reflexivity |]). apply Forall_nil. }
  destruct (@unapproved_scan_stops_at_match example_queue_env example_record
              (example_lp_task (lit "Bug #12 in pkg (Ubuntu): summary")
                 DISTRIBUTION_SOURCE_PACKAGE_RESOURCE_TYPE_LINK example_bug_tasks)
              (lit "12") (firstn 3 example_queue)
              (example_upload "source" true false None (Some (lit "changes")))
              eq_refl eq_refl Hpre eq_refl eq_refl eq_refl) as [evs H].
  exists evs. intros post.
  apply returns_run with (env := example_queue_env) (self := example_record).
  apply H.
Defined.

(** X10. A copy upload whose source archive has no published source of
    its name and version makes the resolution raise [StopIteration],
    which the scan does not catch: when the uploads before it pass
    without a match, the scan ends with that exception, whatever uploads
    follow, instead of skipping the upload. So does any exception of the
    resolution other than [RuntimeError]. *)
Theorem unapproved_scan_ends_on_other_exception (env : Env) (self : Task)
  (o : LpTask) (num : pystr) (pre : list Upload) (upload : Upload) (e : PyExn) :
  obj self = Some o ->
  number_of_title (lp_title o) = Ok num ->
  Forall (fun earlier => passes env num earlier = true) pre ->
  resolution upload = Raise e ->
  resolution_escapes upload = true ->
  (exists evs,
      forall post,
        returns env self (scan_uploads env self (pre ++ upload :: post))
          (Raise e) evs) /\
  (forall copy,
      contains_source copy = false ->
      contains_copy copy = true ->
      copy_source_archive_probe copy = None ->
      published_sources copy = [] ->
      resolution copy = Raise StopIteration /\ resolution_escapes copy = true).
Proof.
  intros Hobj Hnum Hpre Hres Hesc.
  pose proof (@number_of_title_returns env self o num Hobj Hnum) as Hn.
  split.
  - destruct (@scan_uploads_pass_all env self num Hn pre Hpre) as [evs_pre Hp].
    destruct (@scan_uploads_escape env self upload e Hres Hesc) as [evs_u Hu].
    exists (evs_pre ++ evs_u). intros post. apply Hp. apply Hu.
  - intros copy H1 H2 H3 H4. unfold resolution_escapes, resolution.
    rewrite H1, H2, H3, H4. split; reflexivity.
Qed.

Lemma unapproved_scan_ends_on_other_exception_witness :
  fst (run (scan_uploads example_queue_env example_record
              [example_upload "neither" false false None (Some (lit "changes"));
               {| upload_str := lit "copy";
                  contains_source := false;
                  contains_copy := true;
                  source_file_urls := [];
                  copy_source_archive_probe := None;
                  published_sources := [];
                  changes_file_url := Some (lit "changes");
                  package_name := lit "pkg";
                  package_version := lit "1" |};
               example_upload "source" true false None (Some (lit "changes"))]))
  = Raise StopIteration.
Proof.
  assert (Hpre : Forall (fun earlier => passes example_queue_env (lit "12") earlier = true)
                   [example_upload "neither" false false None (Some (lit "changes"))]).
  { repeat (apply Forall_cons; [reflexivity |]). apply Forall_nil. }
  destruct (@unapproved_scan_ends_on_other_exception example_queue_env
              example_record
              (example_lp_task (lit "Bug #12 in pkg (Ubuntu): summary")
                 DISTRIBUTION_SOURCE_PACKAGE_RESOURCE_TYPE_LINK example_bug_tasks)
              (lit "12")
              [example_upload "neither" false false None (Some (lit "changes"))]
              {| upload_str := lit "copy";
                 contains_source := false;
                 contains_copy := true;
                 source_file_urls := [];
                 copy_source_archive_probe := None;
                 published_sources := [];
                 changes_file_url := Some (lit "changes");
                 package_name := lit "pkg";
                 package_version := lit "1" |}
              StopIteration eq_refl eq_refl Hpre eq_refl eq_refl) as [[evs H] _].
  specialize (H [example_upload "source" true false None (Some (lit "changes"))]).
  apply returns_run in H. cbn [app] in H. rewrite H. reflexivity.
Defined.

(** ** mark *)

Lemma strip_markers_plain text rest :
  free_of ESC text = true ->
  strip_markers (text ++ rest) = text ++ strip_markers rest.
Proof.
  unfold strip_markers, free_of.
  induction text as [| c text IH]; intros H; [reflexivity |].
  cbn [forallb] in H. apply andb_true_iff in H. destruct H as [Hc Ht].
  apply negb_true_iff in Hc. cbn [app strip_markers_from]. rewrite Hc.
  rewrite (IH Ht). reflexivity.
Qed.

Lemma strip_markers_mark text color rest :
  free_of ESC text = true ->
  In color [COLOR_CYAN; COLOR_GREEN; COLOR_YELLOW] ->
  strip_markers (mark text color ++ rest) = text ++ strip_markers rest.
Proof.
  intros Ht Hc. unfold mark.
  assert (Hreset : forall x, strip_markers (COLOR_RESET ++ x) = strip_markers x)
    by reflexivity.
  destruct Hc as [<- | [<- | [<- | []]]];
    rewrite <- !app_assoc;
    change (strip_markers (text ++ COLOR_RESET ++ rest)
            = text ++ strip_markers rest);
    rewrite (@strip_markers_plain text _ Ht), Hreset; reflexivity.
Qed.

Lemma printable_of_mark text color :
  In color [COLOR_CYAN; COLOR_GREEN; COLOR_YELLOW] ->
  printable_of (mark text color) = printable_of text.
Proof.
  intros Hc. unfold mark.
  assert (Hp : forall x, printable_of (x ++ COLOR_RESET) = printable_of x).
  { intros x. unfold printable_of. rewrite filter_app. apply app_nil_r. }
  destruct Hc as [<- | [<- | [<- | []]]];
    unfold printable_of at 1; rewrite filter_app;
    fold (printable_of (text ++ COLOR_RESET)); rewrite Hp; reflexivity.
Qed.

(** X11. A text marked with one of the three colours shows as the text
    itself: without the colour sequences, [mark(text, color)] followed
    by anything is [text] followed by the same, and the marking adds no
    capital letter to what [get_releases] counts as printable. *)
Theorem mark_is_invisible (text color rest : pystr) :
  free_of ESC text = true ->
  In color [COLOR_CYAN; COLOR_GREEN; COLOR_YELLOW] ->
  strip_markers (mark text color ++ rest) = text ++ strip_markers rest /\
  printable_of (mark text color) = printable_of text.
Proof.
  intros Ht Hc. split.
  - apply strip_markers_mark; assumption.
  - apply printable_of_mark. exact Hc.
Qed.

Lemma mark_is_invisible_witness :
  strip_markers (mark (lit "v") COLOR_CYAN ++ lit " ") = lit "v ".
Proof.
  exact (proj1 (@mark_is_invisible (lit "v") COLOR_CYAN (lit " ") eq_refl
                  (or_introl eq_refl))).
Defined.

(** ** get_releases, whatever the series names *)

Lemma strip_decorate_any env u status_ text rest :
  free_of ESC text = true ->
  strip_markers (decorate env u status_ text ++ rest) = text ++ strip_markers rest.
Proof.
  intros Ht. unfold decorate.
  destruct (str_in status_ (NOWORK_BUG_STATUSES env));
    [apply strip_markers_mark; [exact Ht | right; left; reflexivity] |].
  destruct (truthy u);
    [apply strip_markers_mark; [exact Ht | left; reflexivity] |].
  destruct (str_in status_ (OPEN_BUG_STATUSES env));
    [apply strip_markers_mark; [exact Ht | right; right; left; reflexivity] |].
  apply strip_markers_plain. exact Ht.
Qed.

Lemma printable_decorate_any env u status_ text :
  printable_of (decorate env u status_ text) = printable_of text.
Proof.
  unfold decorate.
  destruct (str_in status_ (NOWORK_BUG_STATUSES env));
    [apply printable_of_mark; right; left; reflexivity |].
  destruct (truthy u); [apply printable_of_mark; left; reflexivity |].
  destruct (str_in status_ (OPEN_BUG_STATUSES env));
    [apply printable_of_mark; right; right; left; reflexivity |].
  reflexivity.
Qed.

Lemma strip_decorated_any env u rest : forall items,
  Forall (fun item => free_of ESC (release_char env (fst item)) = true) items ->
  strip_markers (decorated env u items ++ rest)
  = release_chars env items ++ strip_markers rest.
Proof.
  induction items as [| item items IH]; intros H; [reflexivity |].
  inversion H as [| ? ? Hn Hrest]; subst.
  unfold decorated, release_chars. cbn [map List.concat].
  fold (decorated env u items). fold (release_chars env items).
  rewrite <- !app_assoc, strip_decorate_any by exact Hn.
  rewrite (IH Hrest). reflexivity.
Qed.

Lemma printable_decorated_any env u : forall items,
  printable_of (decorated env u items) = printable_of (release_chars env items).
Proof.
  induction items as [| item items IH]; [reflexivity |].
  unfold decorated, release_chars. cbn [map List.concat].
  fold (decorated env u items). fold (release_chars env items).
  unfold printable_of in *. rewrite !filter_app.
  fold (printable_of
          (decorate env u (entry_status (snd item)) (release_char env (fst item)))).
  rewrite printable_decorate_any, IH. reflexivity.
Qed.

(** The release character of a series whose name starts with an ASCII
    letter or with '-' is one capital letter. *)
Lemma release_char_named env series_ :
  named_series series_ = true ->
  exists c, release_char env series_ = [c] /\ is_upper c = true.
Proof.
  destruct series_ as [| c rest]; [discriminate |].
  unfold named_series, release_char, DASH.
  destruct (N.eqb_spec c 45) as [-> | Hc].
  { intros _. exists 68%N. split; reflexivity. }
  rewrite orb_false_r. intros H. unfold upper.
  assert (Hascii : (c <? 128)%N = true).
  { apply N.ltb_lt. unfold is_lower, is_upper in H.
    rewrite orb_true_iff, !andb_true_iff, !N.leb_le in H. lia. }
  rewrite Hascii. eexists. split; [reflexivity |].
  destruct (is_lower c) eqn:Hl; cbn [orb] in H; [| exact H].
  unfold is_lower in Hl. unfold is_upper.
  rewrite andb_true_iff, !N.leb_le in *. lia.
Qed.

Lemma release_chars_named env : forall items,
  Forall (fun item => named_series (fst item) = true) items ->
  printable_of (release_chars env items) = release_chars env items /\
  len (release_chars env items) = Z.of_nat (List.length items).
Proof.
  induction items as [| item items IH]; intros H; [split; reflexivity |].
  inversion H as [| ? ? Hn Hrest]; subst.
  destruct (IH Hrest) as [Hp Hl].
  destruct (release_char_named env _ Hn) as [c [Ec Hc]].
  unfold release_chars in *. cbn [map List.concat]. rewrite Ec.
  cbn [app]. unfold printable_of in *. cbn [filter]. rewrite Hc, Hp.
  split; [reflexivity |].
  unfold len in *. cbn [List.length]. lia.
Qed.

(** X12. Whatever the series names, not empty, and when the
    unapproved-queue check returns: [get_releases(length)] shows the
    release character of each sibling ("D" for a series that starts with
    '-', else [series[0].upper()], one character for ASCII and possibly
    several outside: U+00DF gives "SS") and then as many spaces as
    [length] exceeds the number of capital letters A to Z among these
    characters. A character that is no capital letter, such as a digit,
    takes a column that the padding does not count. When every series
    name starts with an ASCII letter or with '-', there is one capital
    letter per sibling, and the text is exactly [length] columns wide as
    long as there are no more than [length] siblings. *)
Theorem get_releases_visible_width (env : Env) (self : Task)
  (siblings : pydict BugTaskEntry) (u : option bool) (evs : list Event)
  (length : Z) :
  run (_sibling_tasks self) = (Ok siblings, []) ->
  check_returns env self u evs siblings ->
  Forall (fun item => fst item <> [] /\
                      free_of ESC (release_char env (fst item)) = true) siblings ->
  let chars := release_chars env siblings in
  let pad := Z.to_nat (length - len (printable_of chars)) in
  (exists out,
      returns env self (get_releases env self length) (Ok out)
        (checks_log env evs siblings) /\
      strip_markers out = chars ++ repeat SPACE pad /\
      len (strip_markers out) = (len chars + Z.of_nat pad)%Z /\
      (Forall (fun item => named_series (fst item) = true) siblings ->
       printable_of chars = chars /\
       len chars = Z.of_nat (List.length siblings) /\
       ((len chars <= length)%Z -> len (strip_markers out) = length))) /\
  (forall c rest,
      release_char env (c :: rest)
      = if N.eqb c DASH then lit "D"
        else if (c <? 128)%N then [if is_lower c then (c - 32)%N else c]
             else unicode_upper env c).
Proof.
  intros Hsib Hcheck Hall chars pad. split; [| reflexivity].
  assert (Hne : Forall (fun item : pystr * BugTaskEntry => fst item <> []) siblings).
  { eapply Forall_impl; [| exact Hall]. intros item [H _]. exact H. }
  assert (Hesc : Forall (fun item : pystr * BugTaskEntry =>
                           free_of ESC (release_char env (fst item)) = true)
                   siblings).
  { eapply Forall_impl; [| exact Hall]. intros item [_ H]. exact H. }
  pose proof (@get_releases_returns env self u evs siblings length
                (@sibling_tasks_run_returns env self siblings [] Hsib)
                (check_returns_known Hcheck) Hne) as H.
  cbv zeta in H. fold (decorated env u siblings) in H.
  rewrite printable_decorated_any in H. fold chars in H. fold pad in H.
  eexists. split; [exact H |].
  assert (Hstrip : strip_markers (decorated env u siblings ++ repeat SPACE pad)
                   = chars ++ repeat SPACE pad).
  { rewrite strip_decorated_any by exact Hesc. rewrite strip_spaces. reflexivity. }
  assert (Hlen : len (strip_markers (decorated env u siblings ++ repeat SPACE pad))
                 = (len chars + Z.of_nat pad)%Z).
  { rewrite Hstrip. unfold len. rewrite length_app, repeat_length. lia. }
  split; [exact Hstrip | split; [exact Hlen |]].
  intros Hnamed. destruct (release_chars_named env Hnamed) as [Hp Hl].
  fold chars in Hp, Hl. split; [exact Hp | split; [exact Hl |]].
  intros Hle. rewrite Hlen. unfold pad. rewrite Hp. lia.
Qed.

Lemma get_releases_visible_width_witness :
  exists out,
    fst (run (get_releases example_unicode_env example_eszett_record 7)) = Ok out /\
    strip_markers out = lit "SS     " /\
    len (strip_markers out) = 7%Z.
Proof.
  pose (item := ([223%N; 120%N],
                 {| entry_link := lit "https://api.launchpad.net/devel/ubuntu/"
                                    ++ 223%N :: lit "x/+source/pkg/+bug/12";
                    entry_status := lit "Fix Released" |})).
  assert (Hsib : run (_sibling_tasks example_eszett_record) = (Ok [item], []))
    by (vm_compute; reflexivity).
  assert (Hcheck : check_returns example_unicode_env example_eszett_record
                     None [] [item]).
  { left. repeat (apply Forall_cons; [reflexivity |]). apply Forall_nil. }
  destruct (@get_releases_visible_width example_unicode_env example_eszett_record
              _ None [] 7%Z Hsib Hcheck) as [[out [Hr [Hs [Hlen _]]]] _].
  - apply Forall_cons; [split; [discriminate | reflexivity] | apply Forall_nil].
  - exists out. split; [| split].
    + apply returns_run in Hr. rewrite Hr. reflexivity.
    + rewrite Hs. vm_compute. reflexivity.
    + rewrite Hlen. vm_compute. reflexivity.
Defined.

(** ** Without a session *)

Lemma is_in_unapproved_no_session env self :
  LP env = None ->
  returns env self (_is_in_unapproved env self) (Raise AttributeError) [].
Proof.
  intros no_session. unfold _is_in_unapproved. rewrite no_session.
  apply returns_raise.
Qed.

(** X13. Without a session ([Task.LP] unset), on a record whose siblings
    have series names that are not empty: [get_releases], and [to_dict]
    when its cache has no dict for the record, raise [AttributeError] as
    soon as one sibling has a status that is not a no-work status, and
    [get_releases] returns when every sibling is closed: the check is
    only reached on the other siblings. *)
Theorem no_session_needs_closed_siblings (env : Env) (self : Task)
  (siblings : pydict BugTaskEntry) (length : Z) :
  LP env = None ->
  run (_sibling_tasks self) = (Ok siblings, []) ->
  Forall (fun item => fst item <> []) siblings ->
  (Exists (fun item => reaches_check env item = true) siblings ->
   ends env self (get_releases env self length) (Raise AttributeError) /\
   forall s,
     coherent env self s ->
     lru_find (task_id self) (entries (caches s C_to_dict)) = None ->
     exists s', to_dict env self s = (Raise AttributeError, s')) /\
  (Forall (fun item => reaches_check env item = false) siblings ->
   exists out, ends env self (get_releases env self length) (Ok out)).
Proof.
  intros Hlp Hsib Hne.
  pose proof (@sibling_tasks_run_returns env self siblings [] Hsib) as Hs.
  pose proof (@is_in_unapproved_no_session env self Hlp) as Hcheck.
  split.
  - intros Hex. split.
    + exists []. apply (@get_releases_raises env self _ _ Hcheck siblings length);
        assumption.
    + intros s Hcoh F.
      destruct (@to_dict_raises env self _ _ Hcheck siblings s Hcoh F Hs Hex)
        as [s' [E _]].
      exists s'. exact E.
  - intros Hall.
    pose proof (@get_releases_returns env self None [] siblings length Hs
                  (or_introl Hall) Hne) as H.
    eexists. eexists. exact H.
Qed.

Lemma no_session_needs_closed_siblings_witness :
  fst (run (get_releases (example_env None) example_open_record 7))
  = Raise AttributeError.
Proof.
  assert (Hsib : run (_sibling_tasks example_open_record)
                 = (Ok [(lit "trusty",
                         example_entry "ubuntu/trusty/+source/pkg/+bug/12" "New");
                        (lit "-devel",
                         example_entry "ubuntu/+source/pkg/+bug/12" "Confirmed")],
                    [])) by (vm_compute; reflexivity).
  destruct (@no_session_needs_closed_siblings (example_env None)
              example_open_record _ 7%Z eq_refl Hsib) as [H _].
  - repeat (apply Forall_cons; [discriminate |]). apply Forall_nil.
  - destruct H as [[evs H] _]; [apply Exists_cons_hd; reflexivity |].
    apply returns_run in H. rewrite H. reflexivity.
Defined.

(** ** What the methods do to the caches *)

Section Steps.

Variable R : State -> State -> Prop.
Variable allowed : Cached -> Prop.
Hypothesis R_refl : forall s, R s s.
Hypothesis R_trans : forall s1 s2 s3, R s1 s2 -> R s2 s3 -> R s1 s3.
Hypothesis R_emit :
  forall s e, R s {| caches := caches s; log := log s ++ [e] |}.
Hypothesis R_hit :
  forall c k v s,
    allowed c ->
    lru_find k (entries (caches s c)) = Some v ->
    R s (set_cache c (lru_hit k v (caches s c)) s).
Hypothesis R_miss :
  forall c s, allowed c -> R s (set_cache c (lru_miss (caches s c)) s).
Hypothesis R_store :
  forall c k v s, allowed c -> R s (set_cache c (lru_store k v (caches s c)) s).
Hypothesis allowed_properties : forall c, c <> C_to_dict -> allowed c.

Lemma steps_ret A (a : A) : steps R (ret a).
Proof. intros s. apply R_refl. Qed.

Lemma steps_raise A e : steps R (@raise A e).
Proof. intros s. apply R_refl. Qed.

Lemma steps_lift A (r : Res A) : steps R (lift r).
Proof. intros s. apply R_refl. Qed.

Lemma steps_emit e : steps R (emit e).
Proof. intros s. apply R_emit. Qed.

Lemma steps_bind A B (m : M A) (f : A -> M B) :
  steps R m -> (forall a, steps R (f a)) -> steps R (bind m f).
Proof.
  intros Hm Hf s. unfold bind. specialize (Hm s).
  destruct (m s) as [[a | e] s1]; cbn [snd] in *.
  - eapply R_trans; [exact Hm | apply Hf].
  - exact Hm.
Qed.

Lemma steps_except A (m : M A) : steps R m -> steps R (except_RuntimeError m).
Proof.
  intros Hm s. unfold except_RuntimeError. specialize (Hm s).
  destruct (m s) as [[a | []] s1]; exact Hm.
Qed.

Lemma steps_lru_cache c k (body : M (CacheVal c)) :
  allowed c -> steps R body -> steps R (lru_cache c k body).
Proof.
  intros Hc Hbody s. unfold lru_cache.
  destruct (lru_find k (entries (caches s c))) as [v |] eqn:F.
  - apply R_hit; assumption.
  - specialize (Hbody (set_cache c (lru_miss (caches s c)) s)).
    destruct (body (set_cache c (lru_miss (caches s c)) s)) as [[v | e] s1];
      cbn [snd] in *.
    + eapply R_trans; [apply R_miss; exact Hc |].
      eapply R_trans; [exact Hbody | apply R_store; exact Hc].
    + eapply R_trans; [apply R_miss; exact Hc | exact Hbody].
Qed.

Ltac steps_simple :=
  repeat first
    [ apply steps_ret
    | apply steps_raise
    | apply steps_lift
    | apply steps_emit
    | match goal with
      | |- steps _ (lru_cache ?cc _ _) =>
          apply steps_lru_cache with (c := cc);
          [apply allowed_properties; discriminate |]
      end
    | apply steps_bind; [| intros ?]
    | match goal with
      | |- steps _ (obj_attr ?t ?f) => unfold obj_attr; destruct (obj t)
      | |- steps _ (if ?b then _ else _) => destruct b
      | |- steps _ (match ?x with _ => _ end) => destruct x
      end ].

Lemma steps_title self : steps R (title self).
Proof. unfold title. steps_simple. Qed.

Lemma steps_number self : steps R (number self).
Proof. unfold number. steps_simple. apply steps_title. Qed.

Lemma steps_src self : steps R (src self).
Proof. unfold src. steps_simple. apply steps_title. Qed.

Lemma steps_tags self : steps R (tags self).
Proof. unfold tags. steps_simple. Qed.

Lemma steps_date_last_updated self : steps R (date_last_updated self).
Proof. unfold date_last_updated. steps_simple. Qed.

Lemma steps_importance self : steps R (importance self).
Proof. unfold importance. steps_simple. Qed.

Lemma steps_status self : steps R (status self).
Proof. unfold status. steps_simple. Qed.

Lemma steps_assignee self : steps R (assignee self).
Proof. unfold assignee. steps_simple. Qed.

Lemma steps_short_title self : steps R (short_title self).
Proof. unfold short_title. steps_simple. apply steps_title. Qed.

Lemma steps_scan_uploads env self uploads : steps R (scan_uploads env self uploads).
Proof.
  induction uploads as [| upload rest IH]; cbn [scan_uploads].
  - apply steps_ret.
  - apply steps_bind.
    + apply steps_except. unfold get_upload_source_urls. steps_simple.
    + intros [urls |]; [| exact IH].
      destruct (negb (truthy_str (changes_file_url upload))); [exact IH |].
      apply steps_bind; [unfold find_changes_bugs; steps_simple |].
      intros bugs. apply steps_bind; [apply steps_number |].
      intros n. destruct (str_in n bugs); [apply steps_ret | exact IH].
Qed.

Lemma steps_is_in_unapproved env self : steps R (_is_in_unapproved env self).
Proof.
  unfold _is_in_unapproved. destruct (LP env); [| apply steps_raise].
  apply steps_bind; [apply steps_emit |]. intros _.
  destruct (_ || _); [apply steps_ret |]. cbv zeta.
  apply steps_bind; [apply steps_emit |]. intros _.
  apply steps_bind; [apply steps_src |]. intros name.
  apply steps_bind; [apply steps_emit |]. intros _.
  apply steps_scan_uploads.
Qed.

Lemma steps_sibling_tasks self : steps R (_sibling_tasks self).
Proof.
  unfold _sibling_tasks. apply steps_bind.
  { unfold obj_attr. destruct (obj self); [apply steps_ret | apply steps_raise]. }
  intros tasks. generalize (@nil (pystr * BugTaskEntry)).
  induction tasks as [| e tasks IH]; intros d; cbn [sibling_loop].
  - apply steps_ret.
  - apply steps_bind; [apply steps_lift |]. intros e4.
    destruct (negb (str_eqb e4 (lit "ubuntu"))); [apply IH |].
    apply steps_bind; [apply steps_lift |]. intros e3.
    apply steps_bind; [apply steps_src |]. intros name.
    destruct (negb (str_eqb e3 name)); [apply IH |].
    apply steps_bind; [apply steps_lift |]. intros e5. apply IH.
Qed.

Lemma steps_sibling_task_status_loop env self items :
  forall acc, steps R (sibling_task_status_loop env self items acc).
Proof.
  induction items as [| [series_ e] items IH]; intros acc;
    cbn [sibling_task_status_loop].
  - apply steps_ret.
  - destruct (str_in (entry_status e) (NOWORK_BUG_STATUSES env)); [apply IH |].
    apply steps_bind; [apply steps_is_in_unapproved |]. intros u.
    destruct (truthy u); [apply IH |].
    destruct (str_in (entry_status e) (OPEN_BUG_STATUSES env)); apply IH.
Qed.

Lemma steps_get_releases env self length : steps R (get_releases env self length).
Proof.
  unfold get_releases. apply steps_bind; [apply steps_sibling_tasks |].
  intros items. apply steps_bind.
  - generalize (@nil N).
    induction items as [| [series_ e] items IH]; intros acc; cbn [release_loop].
    + apply steps_ret.
    + apply steps_bind; [apply steps_lift |]. intros c. cbv zeta.
      destruct (str_in (entry_status e) (NOWORK_BUG_STATUSES env)); [apply IH |].
      apply steps_bind; [apply steps_is_in_unapproved |]. intros u.
      destruct (truthy u); [apply IH |].
      destruct (str_in (entry_status e) (OPEN_BUG_STATUSES env)); apply IH.
  - intros info. cbv zeta. destruct (_ >? _)%Z; apply steps_ret.
Qed.

Lemma steps_is_updated env self : steps R (_is_updated env self).
Proof.
  unfold _is_updated. destruct (AGE env); [| apply steps_ret].
  apply steps_bind; [apply steps_date_last_updated | intros d; apply steps_ret].
Qed.

Lemma steps_is_old env self : steps R (_is_old env self).
Proof.
  unfold _is_old. destruct (OLD env); [| apply steps_ret].
  apply steps_bind; [apply steps_date_last_updated | intros d; apply steps_ret].
Qed.

Lemma steps_get_flags env self newbug : steps R (get_flags env self newbug).
Proof.
  unfold get_flags, _is_verification_needed, _is_verification_done. cbv zeta.
  apply steps_bind; [apply steps_is_updated |]. intros updated.
  apply steps_bind.
  { destruct (truthy updated); [apply steps_ret |].
    apply steps_bind; [apply steps_is_old | intros old; apply steps_ret]. }
  intros flag.
  apply steps_bind.
  { apply steps_bind; [apply steps_tags | intros t; apply steps_ret]. }
  intros needed. apply steps_bind.
  { apply steps_bind; [apply steps_tags | intros t; apply steps_ret]. }
  intros done. apply steps_ret.
Qed.

(** [to_dict] is its cache around a body that moves along [R]. *)
Lemma steps_to_dict_with env self (P : M TaskDict -> Prop) :
  (forall body, steps R body -> P (lru_cache C_to_dict (task_id self) body)) ->
  P (to_dict env self).
Proof.
  intros H. unfold to_dict. apply H.
  unfold url, shortlink, _is_verification_needed, _is_verification_done.
  apply steps_bind; [apply steps_sibling_tasks |]. intros sibs.
  apply steps_bind; [apply steps_sibling_task_status_loop |]. intros sts.
  apply steps_bind;
    [apply steps_bind; [apply steps_number | intros ?; apply steps_ret] |].
  intros ?.
  apply steps_bind;
    [apply steps_bind; [apply steps_number | intros ?; apply steps_ret] |].
  intros ?.
  apply steps_bind; [apply steps_number | intros ?].
  apply steps_bind; [apply steps_title | intros ?].
  apply steps_bind; [apply steps_short_title | intros ?].
  apply steps_bind; [apply steps_src | intros ?].
  apply steps_bind; [apply steps_importance | intros ?].
  apply steps_bind; [apply steps_status | intros ?].
  apply steps_bind; [apply steps_tags | intros ?].
  apply steps_bind; [apply steps_assignee | intros ?].
  apply steps_bind; [apply steps_is_updated | intros ?].
  apply steps_bind; [apply steps_is_old | intros ?].
  apply steps_bind;
    [apply steps_bind; [apply steps_tags | intros ?; apply steps_ret] |].
  intros ?.
  apply steps_bind;
    [apply steps_bind; [apply steps_tags | intros ?; apply steps_ret] |].
  intros ?. apply steps_ret.
Qed.

End Steps.

(** ** The size of the caches *)

Lemma lru_find_none V k (l : list (ObjId * V)) :
  lru_find k l = None -> ~ In k (map fst l).
Proof.
  induction l as [| [k' v] l IH]; cbn [lru_find map fst In]; [tauto |].
  destruct (N.eqb_spec k k') as [E | E]; [discriminate |].
  intros F [H | H]; [congruence | exact (IH F H)].
Qed.

Lemma lru_remove_shorter V k (l : list (ObjId * V)) v :
  lru_find k l = Some v -> (S (List.length (lru_remove k l)) <= List.length l)%nat.
Proof.
  unfold lru_remove.
  induction l as [| [k' v'] l IH]; cbn [lru_find filter fst]; [discriminate |].
  destruct (N.eqb k k'); cbn [negb List.length].
  - intros _. apply le_n_S, filter_length_le.
  - intros F. apply le_n_S, IH, F.
Qed.

Lemma lru_remove_keys V k x (l : list (ObjId * V)) :
  In x (map fst (lru_remove k l)) -> In x (map fst l) /\ x <> k.
Proof.
  unfold lru_remove. intros H. apply in_map_iff in H.
  destruct H as [[k' v] [E H]]. apply filter_In in H. destruct H as [H Hk].
  cbn [fst] in *. subst k'. split.
  - apply in_map_iff. exists (x, v). split; [reflexivity | exact H].
  - intros ->. rewrite N.eqb_refl in Hk. discriminate Hk.
Qed.

Lemma lru_remove_nodup V k (l : list (ObjId * V)) :
  NoDup (map fst l) -> NoDup (map fst (lru_remove k l)).
Proof.
  unfold lru_remove.
  induction l as [| [k' v] l IH]; cbn [map fst filter]; [auto |].
  intros H. inversion H as [| ? ? Hin Hl]; subst.
  destruct (negb (N.eqb k k')); [| apply IH, Hl].
  cbn [map fst]. apply NoDup_cons; [| apply IH, Hl].
  intros Hk. apply Hin. exact (proj1 (@lru_remove_keys V k k' l Hk)).
Qed.

Lemma firstn_keys V n x (l : list (ObjId * V)) :
  In x (map fst (firstn n l)) -> In x (map fst l).
Proof.
  intros H. rewrite <- (firstn_skipn n l), map_app.
  apply in_or_app. left. exact H.
Qed.

Lemma firstn_nodup V n (l : list (ObjId * V)) :
  NoDup (map fst l) -> NoDup (map fst (firstn n l)).
Proof.
  intros H. rewrite <- (firstn_skipn n l), map_app in H.
  exact (NoDup_app_remove_r _ _ H).
Qed.

Lemma lru_ok_hit V k (v : V) c :
  lru_ok c -> lru_find k (entries c) = Some v -> lru_ok (lru_hit k v c).
Proof.
  intros [Hlen Hnd] F. split; cbn [lru_hit entries List.length map fst].
  - pose proof (lru_remove_shorter _ _ F). lia.
  - apply NoDup_cons; [| apply lru_remove_nodup, Hnd].
    intros H. apply lru_remove_keys in H. destruct H as [_ H]. congruence.
Qed.

Lemma lru_ok_miss V (c : Lru V) : lru_ok c -> lru_ok (lru_miss c).
Proof. intros H. exact H. Qed.

Lemma lru_ok_store V k (v : V) c : lru_ok c -> lru_ok (lru_store k v c).
Proof.
  intros [Hlen Hnd]. unfold lru_store.
  destruct (lru_find k (entries c)) eqn:F; [split; assumption |].
  split; cbn [entries List.length map fst].
  - rewrite length_firstn. unfold maxsize. lia.
  - apply NoDup_cons; [| apply firstn_nodup, Hnd].
    intros H. apply firstn_keys in H. exact (lru_find_none _ _ F H).
Qed.

Lemma caches_ok_set c v s : caches_ok s -> lru_ok v -> caches_ok (set_cache c v s).
Proof.
  intros Hs Hv c'. destruct (Cached_eq_dec c c') as [E | E].
  - subst c'. rewrite caches_set_same. exact Hv.
  - rewrite caches_set_other by exact E. apply Hs.
Qed.

Lemma keeps_ok_refl s : keeps_caches_ok s s.
Proof. intros H. exact H. Qed.

Lemma keeps_ok_trans s1 s2 s3 :
  keeps_caches_ok s1 s2 -> keeps_caches_ok s2 s3 -> keeps_caches_ok s1 s3.
Proof. intros H1 H2 H. apply H2, H1, H. Qed.

Lemma keeps_ok_emit s e :
  keeps_caches_ok s {| caches := caches s; log := log s ++ [e] |}.
Proof. intros H. exact H. Qed.

Lemma keeps_ok_hit c k (v : CacheVal c) s :
  True ->
  lru_find k (entries (caches s c)) = Some v ->
  keeps_caches_ok s (set_cache c (lru_hit k v (caches s c)) s).
Proof.
  intros _ F H. apply caches_ok_set; [exact H |]. apply lru_ok_hit; [apply H | exact F].
Qed.

Lemma keeps_ok_miss c s :
  True -> keeps_caches_ok s (set_cache c (lru_miss (caches s c)) s).
Proof. intros _ H. apply caches_ok_set; [exact H | apply lru_ok_miss, H]. Qed.

Lemma keeps_ok_store c k (v : CacheVal c) s :
  True -> keeps_caches_ok s (set_cache c (lru_store k v (caches s c)) s).
Proof. intros _ H. apply caches_ok_set; [exact H | apply lru_ok_store, H]. Qed.

Ltac keeps_ok_side :=
  first [ exact keeps_ok_refl | exact keeps_ok_trans | exact keeps_ok_emit
        | exact keeps_ok_hit | exact keeps_ok_miss | exact keeps_ok_store
        | exact (fun _ _ => I) ].

Lemma keeps_ok_to_dict env self : steps keeps_caches_ok (to_dict env self).
Proof.
  apply steps_to_dict_with with (R := keeps_caches_ok) (allowed := fun _ => True);
    try keeps_ok_side.
  intros body Hbody.
  apply steps_lru_cache with (c := C_to_dict) (allowed := fun _ => True);
    try keeps_ok_side; [exact I | exact Hbody].
Qed.

(** X14. With the [@lru_cache] decorators of the methods, a run of
    [to_dict], [get_releases], [get_flags], [_is_in_unapproved],
    [short_title] or [assignee] from a state in which every cache holds at
    most 128 entries, one per instance at most, ends in such a state,
    whatever the method returns or raises. *)
Theorem caches_stay_within_maxsize (env : Env) (self : Task)
  (length : Z) (newbug : bool) (s : State) :
  caches_ok s ->
  caches_ok (snd (to_dict env self s)) /\
  caches_ok (snd (get_releases env self length s)) /\
  caches_ok (snd (get_flags env self newbug s)) /\
  caches_ok (snd (_is_in_unapproved env self s)) /\
  caches_ok (snd (short_title self s)) /\
  caches_ok (snd (assignee self s)).
Proof.
  intros H. refine (conj _ (conj _ (conj _ (conj _ (conj _ _))))).
  - exact (@keeps_ok_to_dict env self s H).
  - revert H.
    apply steps_get_releases with (R := keeps_caches_ok) (allowed := fun _ => True);
      keeps_ok_side.
  - revert H.
    apply steps_get_flags with (R := keeps_caches_ok) (allowed := fun _ => True);
      keeps_ok_side.
  - revert H.
    apply steps_is_in_unapproved
      with (R := keeps_caches_ok) (allowed := fun _ => True);
      keeps_ok_side.
  - revert H.
    apply steps_short_title with (R := keeps_caches_ok) (allowed := fun _ => True);
      keeps_ok_side.
  - revert H.
    apply steps_assignee with (R := keeps_caches_ok) (allowed := fun _ => True);
      keeps_ok_side.
Qed.

Lemma caches_stay_within_maxsize_witness :
  caches_ok init_state /\
  caches_ok (snd (to_dict example_queue_env example_record init_state)).
Proof.
  assert (H : caches_ok init_state).
  { intros c. split; cbn [init_state caches lru_empty entries List.length map].
    - unfold maxsize. lia.
    - apply NoDup_nil. }
  split; [exact H |].
  exact (proj1 (@caches_stay_within_maxsize example_queue_env example_record
                  7%Z false init_state H)).
Defined.

(** ** The cache of [to_dict] *)









(** ** The fields of [to_dict] *)

Section Fields.

Variable env : Env.
Variable self : Task.

Lemma returns_unique A (m : M A) r r' evs evs' :
  returns env self m r evs -> returns env self m r' evs' -> r = r'.
Proof.
  intros H H'.
  destruct (H init_state (coherent_init env self)) as [s1 [E1 _]].
  destruct (H' init_state (coherent_init env self)) as [s2 [E2 _]].
  congruence.
Qed.

Lemma settles_ret A (a : A) (P : A -> Prop) : P a -> settles env self (ret a) P.
Proof.
  intros H. exists (Ok a), []. split; [apply returns_ret |].
  intros a' E. inversion E; subst. exact H.
Qed.

Lemma settles_bind A B (m : M A) (f : A -> M B) (Q : A -> Prop) (P : B -> Prop) :
  settles env self m Q ->
  (forall a, Q a -> settles env self (f a) P) ->
  settles env self (bind m f) P.
Proof.
  intros [[a | e] [evs [Hm HQ]]] Hf.
  - destruct (Hf a (HQ a eq_refl)) as [r [evs' [Hr HP]]].
    exists r, (evs ++ evs'). split; [| exact HP].
    eapply returns_bind; eassumption.
  - exists (Raise e), evs. split; [| discriminate].
    apply returns_bind_raise. exact Hm.
Qed.

Lemma settles_determinate A (m : M A) :
  determinate env self m -> settles env self m (fun _ => True).
Proof. intros [r [evs H]]. exists r, evs. auto. Qed.

(** A method that logs nothing settles on the value every call of it
    returns. *)
Lemma settles_value A (m : M A) (P : A -> Prop) :
  quiet env self m P ->
  settles env self m (fun a => returns env self m (Ok a) []).
Proof.
  intros [r [H _]]. exists r, []. split; [exact H |].
  intros a ->. exact H.
Qed.

Lemma sibling_task_status_loop_determinate items : forall acc,
  determinate env self (sibling_task_status_loop env self items acc).
Proof.
  induction items as [| [series_ e] items IH]; intros acc;
    cbn [sibling_task_status_loop].
  - eapply determinate_of, returns_ret.
  - destruct (str_in (entry_status e) (NOWORK_BUG_STATUSES env)); [apply IH |].
    apply determinate_bind; [apply is_in_unapproved_determinate |].
    intros u. destruct (truthy u); [apply IH |].
    destruct (str_in (entry_status e) (OPEN_BUG_STATUSES env)); apply IH.
Qed.

End Fields.

(** X16. A dict computed by [to_dict] agrees with the record. Each of its
    fields number, title, short_title, source_package, importance, status,
    tags, assignee and the four flags on age and verification is the value
    the method of that name returns; url and shortlink are the two roots
    followed by the number of the dict; and distro, source_package_name,
    series and the two subscription flags are the attributes of the
    record. *)
Theorem to_dict_agrees_with_record (env : Env) (self : Task) (s : State)
  (d : TaskDict) (s' : State) :
  coherent env self s ->
  lru_find (task_id self) (entries (caches s C_to_dict)) = None ->
  to_dict env self s = (Ok d, s') ->
  (returns env self (number self) (Ok (d_number d)) [] /\
   returns env self (title self) (Ok (d_title d)) [] /\
   returns env self (short_title self) (Ok (d_short_title d)) [] /\
   returns env self (src self) (Ok (d_source_package d)) [] /\
   returns env self (importance self) (Ok (d_importance d)) [] /\
   returns env self (status self) (Ok (d_status d)) [] /\
   returns env self (tags self) (Ok (d_tags d)) [] /\
   returns env self (assignee self) (Ok (d_assignee d)) [] /\
   returns env self (_is_updated env self) (Ok (d_is_updated_recently d)) [] /\
   returns env self (_is_old env self) (Ok (d_is_old d)) [] /\
   returns env self (_is_verification_needed self)
     (Ok (d_is_verification_needed d)) [] /\
   returns env self (_is_verification_done self)
     (Ok (d_is_verification_done d)) []) /\
  (d_url d = LONG_URL_ROOT ++ d_number d /\
   d_shortlink d = SHORTLINK_ROOT ++ d_number d) /\
  (d_distro d = distro self /\
   d_source_package_name d = source_package_name self /\
   d_series d = series self /\
   d_is_maintainer_subscribed d = subscribed self /\
   d_is_last_activity_by_maintainer d = last_activity_ours self).
Proof.
  intros Hs F E. revert E. unfold to_dict.
  match goal with
  | |- context [lru_cache C_to_dict _ ?b] => set (body := b)
  end.
  intros E. pattern d.
  match goal with
  | |- ?P d => assert (Hbody : settles env self body P)
  end.
  { unfold body.
    eapply settles_bind;
      [apply settles_determinate, sibling_tasks_determinate |].
    intros sibs _.
    eapply settles_bind;
      [apply settles_determinate, sibling_task_status_loop_determinate |].
    intros sts _.
    eapply settles_bind; [eapply settles_value, url_quiet |].
    intros v_url Hurl.
    eapply settles_bind; [eapply settles_value, shortlink_quiet |].
    intros v_shortlink Hshortlink.
    eapply settles_bind;
      [eapply settles_value, quiet_of_returns, number_returns |].
    intros v_number Hnumber.
    eapply settles_bind;
      [eapply settles_value, quiet_of_returns, title_returns |].
    intros v_title Htitle.
    eapply settles_bind;
      [eapply settles_value, quiet_of_returns, short_title_returns |].
    intros v_short_title Hshort.
    eapply settles_bind;
      [eapply settles_value, quiet_of_returns, src_returns |].
    intros v_src Hsrc.
    eapply settles_bind;
      [eapply settles_value, quiet_of_returns, importance_returns |].
    intros v_importance Himportance.
    eapply settles_bind;
      [eapply settles_value, quiet_of_returns, status_returns |].
    intros v_status Hstatus.
    eapply settles_bind;
      [eapply settles_value, quiet_of_returns, tags_returns |].
    intros v_tags Htags.
    eapply settles_bind; [eapply settles_value, assignee_quiet |].
    intros v_assignee Hassignee.
    eapply settles_bind; [eapply settles_value, is_updated_quiet |].
    intros v_updated Hupdated.
    eapply settles_bind; [eapply settles_value, is_old_quiet |].
    intros v_old Hold.
    eapply settles_bind;
      [eapply settles_value, is_verification_needed_quiet |].
    intros v_needed Hneeded.
    eapply settles_bind;
      [eapply settles_value, is_verification_done_quiet |].
    intros v_done Hdone.
    apply settles_ret. cbn [d_url d_shortlink d_number d_title d_short_title
      d_distro d_source_package d_source_package_name d_series d_importance
      d_status d_tags d_assignee d_is_maintainer_subscribed
      d_is_last_activity_by_maintainer d_is_updated_recently d_is_old
      d_is_verification_needed d_is_verification_done].
    split; [| split].
    - repeat (split; [assumption |]). assumption.
    - split.
      + assert (H : returns env self (url self) (Ok (LONG_URL_ROOT ++ v_number)) []).
        { unfold url. change (@nil Event) with (@nil Event ++ []).
          eapply returns_bind; [exact Hnumber | apply returns_ret]. }
        pose proof (returns_unique Hurl H) as Eu. congruence.
      + assert (H : returns env self (shortlink self)
                      (Ok (SHORTLINK_ROOT ++ v_number)) []).
        { unfold shortlink. change (@nil Event) with (@nil Event ++ []).
          eapply returns_bind; [exact Hnumber | apply returns_ret]. }
        pose proof (returns_unique Hshortlink H) as Eu. congruence.
    - repeat split. }
  destruct Hbody as [r [evs [Hr HP]]].
  destruct (@lru_cache_miss env self body r evs s Hs F Hr) as [s1 [E1 _]].
  rewrite E1 in E. inversion E; subst r. apply HP. reflexivity.
Qed.

Lemma to_dict_agrees_with_record_witness :
  exists d s',
    to_dict example_queue_env example_record init_state = (Ok d, s') /\
    returns example_queue_env example_record (number example_record)
      (Ok (d_number d)) [] /\
    d_url d = LONG_URL_ROOT ++ d_number d /\
    d_series d = series example_record.
Proof.
  destruct (to_dict example_queue_env example_record init_state)
    as [[d | e] s'] eqn:E; [| vm_compute in E; discriminate E].
  exists d, s'. split; [reflexivity |].
  destruct (@to_dict_agrees_with_record example_queue_env example_record
              init_state d s'
              (coherent_init example_queue_env example_record) eq_refl E)
    as [[Hn _] [[Hu _] [_ [_ [Hse _]]]]].
  exact (conj Hn (conj Hu Hse)).
Defined.

(** ** Printing *)

Lemma len_ljust w s : len (ljust w s) = Z.max w (len s).
Proof. unfold ljust, len. rewrite length_app, repeat_length. lia. Qed.

Lemma len_rjust w s : len (rjust w s) = Z.max w (len s).
Proof. unfold rjust, len. rewrite length_app, repeat_length. lia. Qed.

Lemma ljust_wide w s : (w <= len s)%Z -> ljust w s = s.
Proof.
  intros H. unfold ljust. replace (Z.to_nat (w - len s)) with 0%nat by lia.
  apply app_nil_r.
Qed.

Lemma rjust_wide w s : (w <= len s)%Z -> rjust w s = s.
Proof.
  intros H. unfold rjust. replace (Z.to_nat (w - len s)) with 0%nat by lia.
  reflexivity.
Qed.

Lemma len_truncate_string s n : (1 <= n)%Z -> (len (truncate_string s n) <= n)%Z.
Proof.
  intros Hn. destruct (Z.le_gt_cases (len s) n) as [H | H].
  - rewrite truncate_string_short by lia. exact H.
  - rewrite truncate_string_long by lia.
    unfold len in *. rewrite length_app, length_firstn. simpl. lia.
Qed.

Lemma len_app a b : len (a ++ b) = (len a + len b)%Z.
Proof. unfold len. rewrite length_app. lia. Qed.

(** X17. [__str__] never gives a text. The number of a
    record is a [str], and the f-string formats it with the integer type
    [d]: whenever the number can be read the call raises [ValueError],
    and otherwise it raises what reading the number raised. *)
Theorem str_never_returns (env : Env) (self : Task) :
  (forall s, exists e, fst (__str__ self s) = Raise e) /\
  (forall o num,
      obj self = Some o ->
      number_of_title (lp_title o) = Ok num ->
      returns env self (__str__ self) (Raise ValueError) []).
Proof.
  split.
  - intros s. unfold __str__, bind.
    destruct (number self s) as [[n | e] s1]; cbn [format_str lift fst].
    + exists ValueError. reflexivity.
    + exists e. reflexivity.
  - intros o num Hobj Hnum. unfold __str__.
    change (@nil Event) with (@nil Event ++ []).
    eapply returns_bind; [exact (@number_of_title_returns env self o num Hobj Hnum) |].
    apply returns_bind_raise. cbn [format_str]. apply returns_lift.
Qed.

Lemma str_never_returns_witness :
  run (__str__ example_record) = (Raise ValueError, []).
Proof.
  apply (@returns_run (example_env None) example_record).
  exact (proj2 (@str_never_returns (example_env None) example_record)
           (example_lp_task (lit "Bug #12 in pkg (Ubuntu): summary")
              DISTRIBUTION_SOURCE_PACKAGE_RESOURCE_TYPE_LINK example_bug_tasks)
           (lit "12") eq_refl eq_refl).
Defined.

Section Lines.

Variable env : Env.
Variable self : Task.

Lemma settles_with_value A (m : M A) (P : A -> Prop) :
  settles env self m P ->
  settles env self m
    (fun a => (exists evs, returns env self m (Ok a) evs) /\ P a).
Proof.
  intros [r [evs [H HP]]]. exists r, evs. split; [exact H |].
  intros a ->. split; [exists evs; exact H | apply HP; reflexivity].
Qed.

Lemma release_loop_determinate items : forall acc,
  determinate env self (release_loop env self items acc).
Proof.
  induction items as [| [series_ e] items IH]; intros acc; cbn [release_loop].
  - eapply determinate_of, returns_ret.
  - apply determinate_bind; [eapply determinate_of, returns_lift |].
    intros c. cbv zeta.
    destruct (str_in (entry_status e) (NOWORK_BUG_STATUSES env)); [apply IH |].
    apply determinate_bind; [apply is_in_unapproved_determinate |].
    intros u. destruct (truthy u); [apply IH |].
    destruct (str_in (entry_status e) (OPEN_BUG_STATUSES env)); apply IH.
Qed.

(** The text of [get_releases] has at least the [length] asked for. *)
Lemma get_releases_settles length :
  settles env self (get_releases env self length)
    (fun out => (exists evs,
                    returns env self (get_releases env self length) (Ok out) evs) /\
                (length <= len out)%Z).
Proof.
  apply settles_with_value. unfold get_releases.
  eapply settles_bind;
    [apply settles_determinate, sibling_tasks_determinate |].
  intros sibs _.
  eapply settles_bind;
    [apply settles_determinate, release_loop_determinate |].
  intros info _. cbv zeta.
  assert (Hp : (len (printable_of info) <= len info)%Z).
  { unfold len, printable_of. pose proof (filter_length_le is_upper info). lia. }
  destruct (Z.gtb_spec (length - len (printable_of info)) 0);
    apply settles_ret.
  - rewrite len_app. unfold len at 2. rewrite repeat_length. lia.
  - lia.
Qed.

(** The flags are six characters, and more with the colours. *)
Lemma get_flags_settles newbug :
  settles env self (get_flags env self newbug)
    (fun flags =>
       returns env self (get_flags env self newbug) (Ok flags) [] /\
       len (strip_markers flags) = 6%Z /\ (6 <= len flags)%Z).
Proof.
  destruct (obj self) as [o |] eqn:Hobj.
  - pose proof (@get_flags_returns env self o newbug Hobj) as H. cbv zeta in H.
    eexists. exists []. split; [exact H |].
    intros flags E. inversion E; subst flags. split; [exact H |].
    destruct (truthy (subscribed self)), (truthy (last_activity_ours self)),
      (is_recent env (bug_date_last_updated (lp_bug o))),
      (is_stale env (bug_date_last_updated (lp_bug o))), newbug,
      (existsb (substring_in (lit "verification-needed-")) (bug_tags (lp_bug o))),
      (existsb (substring_in (lit "verification-done-")) (bug_tags (lp_bug o)));
      (split; [reflexivity | vm_compute; discriminate]).
  - assert (Hq : quiet env self (get_flags env self newbug) (fun _ => True)).
    { unfold get_flags. cbv zeta.
      eapply quiet_bind; [apply is_updated_quiet |]. intros u.
      apply quiet_bind with (Q := fun _ => True).
      { destruct (truthy u); [apply quiet_ret; exact I |].
        eapply quiet_bind; [apply is_old_quiet |].
        intros old. apply quiet_ret. exact I. }
      intros flag.
      eapply quiet_bind; [apply is_verification_needed_quiet |]. intros needed.
      eapply quiet_bind; [apply is_verification_done_quiet |]. intros done.
      apply quiet_ret. exact I. }
    destruct Hq as [r [Hr _]]. exists r, []. split; [exact Hr |].
    intros flags ->. exfalso.
    assert (Hn : returns env self (_is_verification_needed self)
                   (Raise AttributeError) []).
    { unfold _is_verification_needed. apply returns_bind_raise.
      pose proof (@tags_returns env self) as Ht. unfold obj_res in Ht.
      rewrite Hobj in Ht. exact Ht. }
    destruct (Hr init_state (coherent_init env self)) as [s1 [E1 _]].
    revert E1. unfold get_flags. cbv zeta. unfold bind at 1.
    destruct (_is_updated env self init_state) as [[u | e] s2] eqn:Eu;
      [| discriminate].
    assert (Hs2 : coherent env self s2).
    { destruct (@is_updated_quiet env self) as [ru [Hu _]].
      destruct (Hu init_state (coherent_init env self)) as [s' [E' [C' _]]].
      rewrite Eu in E'. inversion E'; subst. exact C'. }
    unfold bind at 1.
    match goal with
    | |- context [match ?m s2 with _ => _ end] =>
        assert (Hm : exists r3 s3, m s2 = (r3, s3) /\ coherent env self s3)
    end.
    { destruct (truthy u).
      - exists (Ok (lit "U")), s2. split; [reflexivity | exact Hs2].
      - destruct (@is_old_quiet env self) as [ro [Ho _]].
        destruct (Ho s2 Hs2) as [s3 [E3 [C3 _]]]. unfold bind. rewrite E3.
        destruct ro as [old | e]; eexists; eexists; (split; [reflexivity | exact C3]). }
    destruct Hm as [r3 [s3 [E3 C3]]]. rewrite E3.
    destruct r3 as [flag | e]; [| discriminate].
    unfold bind at 1. destruct (Hn s3 C3) as [s4 [E4 _]]. rewrite E4.
    discriminate.
Qed.

Variable strftime_dmy : Z -> pystr.

Lemma bug_url_settles (shortlinks : bool) :
  settles env self
    (if shortlinks then
       v <- shortlink self ;;
       ret (ljust (BUG_NUMBER_LENGTH + len SHORTLINK_ROOT) v)
     else
       v <- url self ;;
       ret (ljust (BUG_NUMBER_LENGTH + len LONG_URL_ROOT) v))
    (fun bug_url =>
       exists num,
         returns env self (number self) (Ok num) [] /\
         bug_url
         = let root := if shortlinks then SHORTLINK_ROOT else LONG_URL_ROOT in
           ljust (BUG_NUMBER_LENGTH + len root) (root ++ num)).
Proof.
  destruct shortlinks; unfold shortlink, url; cbv zeta.
  - apply settles_bind
      with (Q := fun v => exists num,
                   returns env self (number self) (Ok num) [] /\
                   v = SHORTLINK_ROOT ++ num).
    + eapply settles_bind;
        [eapply settles_value, quiet_of_returns, number_returns |].
      intros num Hnum. apply settles_ret. exists num. auto.
    + intros v [num [Hnum ->]]. apply settles_ret. exists num. auto.
  - apply settles_bind
      with (Q := fun v => exists num,
                   returns env self (number self) (Ok num) [] /\
                   v = LONG_URL_ROOT ++ num).
    + eapply settles_bind;
        [eapply settles_value, quiet_of_returns, number_returns |].
      intros num Hnum. apply settles_ret. exists num. auto.
    + intros v [num [Hnum ->]]. apply settles_ret. exists num. auto.
Qed.

End Lines.

(** X18. A line [compose_pretty] returns is made of the columns of the header, each followed by its
    separator. The first column is the short link or the URL of the bug,
    filled up to 12 or to 22 characters; the second and the third are the
    texts of [get_flags] and [get_releases(7)] as they are; the status is
    filled up to 13 characters and never cut; the package, the assignee and
    the title have exactly the 19, 13 and 60 characters of the header; and
    with [extended] three columns come before the title. *)
Theorem compose_pretty_columns (strftime_dmy : Z -> pystr) (env : Env)
  (self : Task) (shortlinks extended newbug : bool)
  (s : State) (out : pystr) (s' : State) :
  coherent env self s ->
  compose_pretty strftime_dmy env self shortlinks extended newbug s = (Ok out, s') ->
  let root := if shortlinks then SHORTLINK_ROOT else LONG_URL_ROOT in
  exists num st flags releases c_package c_more c_title,
    out = columns ([ljust (BUG_NUMBER_LENGTH + len root) (root ++ num);
                    flags; releases; ljust 13 st; c_package]
                     ++ c_more ++ [c_title]) /\
    returns env self (number self) (Ok num) [] /\
    returns env self (status self) (Ok st) [] /\
    returns env self (get_flags env self newbug) (Ok flags) [] /\
    (exists evs, returns env self (get_releases env self 7) (Ok releases) evs) /\
    len (strip_markers flags) = 6%Z /\
    len c_package = 19%Z /\
    len c_title = 60%Z /\
    (if extended
     then exists c_date c_prio c_assignee,
            c_more = [c_date; c_prio; c_assignee] /\
            (8 <= len c_date)%Z /\ (10 <= len c_prio)%Z /\
            len c_assignee = 13%Z
     else c_more = []) /\
    get_header extended
    = columns (map (fun h => ljust (fst h) (snd h)) (header_columns extended)).
Proof.
  intros Hs E root. pattern out.
  match goal with
  | |- ?P out =>
      assert (Hsettles : settles env self
                (compose_pretty strftime_dmy env self shortlinks extended newbug) P)
  end.
  { unfold compose_pretty.
    eapply settles_bind; [apply bug_url_settles |].
    intros bug_url [num [Hnum Hb]]. cbv zeta in Hb. fold root in Hb.
    eapply settles_bind; [apply get_flags_settles |].
    intros flags [Hflags [Hvis Hraw]].
    eapply settles_bind; [apply get_releases_settles |].
    intros releases [Hrel Hlen].
    eapply settles_bind;
      [eapply settles_value, quiet_of_returns, status_returns |].
    intros st Hst.
    eapply settles_bind;
      [eapply settles_value, quiet_of_returns, src_returns |].
    intros v_src _.
    assert (Hurl : (12 <= len bug_url)%Z).
    { rewrite Hb, len_ljust. unfold root.
      destruct shortlinks.
      - change (BUG_NUMBER_LENGTH + len SHORTLINK_ROOT)%Z with 12%Z. lia.
      - change (BUG_NUMBER_LENGTH + len LONG_URL_ROOT)%Z with 22%Z. lia. }
    rewrite (@ljust_wide 12%Z bug_url Hurl), (@rjust_wide 6%Z flags Hraw),
      (@ljust_wide 7%Z releases Hlen).
    cbv zeta.
    set (text := bug_url ++ lit " | " ++ flags ++ lit " | " ++ releases
                   ++ lit " | " ++ ljust 13 st ++ lit " | "
                   ++ ljust 19 (truncate_string v_src 19) ++ lit " |").
    assert (Hpackage : len (ljust 19 (truncate_string v_src 19)) = 19%Z).
    { rewrite len_ljust.
      pose proof (@len_truncate_string v_src 19 ltac:(lia)). lia. }
    assert (Htitle : forall t, len (rjust 60 (truncate_string t 60)) = 60%Z).
    { intros t. rewrite len_rjust.
      pose proof (@len_truncate_string t 60 ltac:(lia)). lia. }
    destruct extended.
    - apply settles_bind
        with (Q := fun t => exists c_date c_prio c_assignee,
                     t = text ++ lit " " ++ c_date ++ lit " | " ++ c_prio
                           ++ lit " | " ++ c_assignee ++ lit " |" /\
                     (8 <= len c_date)%Z /\ (10 <= len c_prio)%Z /\
                     len c_assignee = 13%Z).
      + eapply settles_bind;
          [eapply settles_value, quiet_of_returns, date_last_updated_returns |].
        intros date _.
        eapply settles_bind;
          [eapply settles_value, quiet_of_returns, importance_returns |].
        intros v_importance _.
        eapply settles_bind; [eapply settles_value, assignee_quiet |].
        intros a _.
        apply settles_bind with (Q := fun v => (len v <= 12)%Z).
        * destruct (negb (truthy_str a)).
          -- apply settles_ret. unfold len. simpl. lia.
          -- eapply settles_bind; [eapply settles_value, assignee_quiet |].
             intros a' _. apply settles_ret. apply len_truncate_string. lia.
        * intros v Hv. apply settles_ret.
          exists (rjust 8 (strftime_dmy date)), (ljust 10 v_importance),
            (ljust 13 v).
          split; [reflexivity |]. rewrite len_rjust, !len_ljust. lia.
      + intros t [c_date [c_prio [c_assignee [Ht [Hd [Hp Ha]]]]]].
        eapply settles_bind;
          [eapply settles_value, quiet_of_returns, short_title_returns |].
        intros v_short _. apply settles_ret.
        exists num, st, flags, releases, (ljust 19 (truncate_string v_src 19)),
          [c_date; c_prio; c_assignee], (rjust 60 (truncate_string v_short 60)).
        split.
        { rewrite Ht. unfold text. rewrite Hb. cbn [columns app].
          rewrite <- !app_assoc. reflexivity. }
        repeat (split; [first [assumption | apply Htitle] |]).
        split; [| vm_compute; reflexivity].
        exists c_date, c_prio, c_assignee. auto.
    - apply settles_bind with (Q := fun t => t = text).
      + apply settles_ret. reflexivity.
      + intros t ->.
        eapply settles_bind;
          [eapply settles_value, quiet_of_returns, short_title_returns |].
        intros v_short _. apply settles_ret.
        exists num, st, flags, releases, (ljust 19 (truncate_string v_src 19)),
          [], (rjust 60 (truncate_string v_short 60)).
        split.
        { unfold text. rewrite Hb. cbn [columns app].
          rewrite <- !app_assoc. reflexivity. }
        repeat (split; [first [assumption | apply Htitle] |]).
        split; [reflexivity | vm_compute; reflexivity]. }
  destruct Hsettles as [r [evs [Hr HP]]].
  destruct (Hr s Hs) as [s1 [E1 _]]. rewrite E1 in E. inversion E; subst r.
  apply HP. reflexivity.
Qed.

Lemma compose_pretty_columns_witness :
  exists out s',
    compose_pretty example_strftime example_queue_env example_assigned_record
      true true false init_state
    = (Ok out, s') /\
    exists num st flags releases c_package c_more c_title,
      out = columns ([ljust (BUG_NUMBER_LENGTH + len SHORTLINK_ROOT)
                        (SHORTLINK_ROOT ++ num);
                      flags; releases; ljust 13 st; c_package]
                       ++ c_more ++ [c_title]) /\
      len (strip_markers flags) = 6%Z /\
      len c_package = 19%Z /\
      len c_title = 60%Z.
Proof.
  destruct (compose_pretty example_strftime example_queue_env
              example_assigned_record true true false init_state)
    as [[out | e] s'] eqn:E; [| vm_compute in E; discriminate E].
  exists out, s'. split; [reflexivity |].
  destruct (@compose_pretty_columns example_strftime example_queue_env
              example_assigned_record true true false init_state out s'
              (coherent_init example_queue_env example_assigned_record) E)
    as [num [st [flags [releases [c_package [c_more [c_title
         [Hout [_ [_ [_ [_ [Hflags [Hpackage [Htitle _]]]]]]]]]]]]]]].
  exists num, st, flags, releases, c_package, c_more, c_title.
  exact (conj Hout (conj Hflags (conj Hpackage Htitle))).
Defined.

(** X19. The line [compose_dup] makes for a duplicate is the status, uncut, a
    comma and the source package cut to 16 characters; the assignee, cut
    to 9 characters, follows only with [extended] and for a task that has
    one. The line has at most 17 characters after the status, or 27. *)
Theorem compose_dup_line (env : Env) (self : Task) (extended : bool)
  (s : State) (out : pystr) (s' : State) :
  coherent env self s ->
  compose_dup self extended s = (Ok out, s') ->
  exists st name more,
    out = st ++ lit "," ++ truncate_string name 16 ++ more /\
    returns env self (status self) (Ok st) [] /\
    returns env self (src self) (Ok name) [] /\
    (more = [] \/
     extended = true /\
     exists a,
       a <> [] /\
       returns env self (assignee self) (Ok (Some a)) [] /\
       more = lit "," ++ truncate_string a 9) /\
    (len out <= len st + 17 + (if extended then 10 else 0))%Z.
Proof.
  intros Hs E. pattern out.
  match goal with
  | |- ?P out => assert (Hsettles : settles env self (compose_dup self extended) P)
  end.
  { unfold compose_dup.
    eapply settles_bind;
      [eapply settles_value, quiet_of_returns, status_returns |].
    intros st Hst.
    eapply settles_bind;
      [eapply settles_value, quiet_of_returns, src_returns |].
    intros name Hname. cbv zeta.
    assert (H16 : (len (truncate_string name 16) <= 16)%Z)
      by (apply len_truncate_string; lia).
    apply settles_bind
      with (Q := fun b : bool =>
                   b = true ->
                   extended = true /\
                   exists a, returns env self (assignee self) (Ok a) [] /\
                             truthy_str a = true).
    - destruct extended.
      + eapply settles_bind; [eapply settles_value, assignee_quiet |].
        intros a Ha. apply settles_ret. intros Ht.
        split; [reflexivity |]. exists a. auto.
      + apply settles_ret. discriminate.
    - intros [|] Hb.
      + destruct (Hb eq_refl) as [-> [a1 [Ha1 Ht]]].
        eapply settles_bind; [eapply settles_value, assignee_quiet |].
        intros a Ha. apply settles_ret.
        pose proof (returns_unique Ha1 Ha) as Ea. inversion Ea; subst a1.
        destruct a as [[| c a] |]; try discriminate Ht.
        exists st, name, (lit "," ++ truncate_string (c :: a) 9).
        split; [rewrite <- !app_assoc; reflexivity |].
        split; [exact Hst |]. split; [exact Hname |]. split.
        * right. split; [reflexivity |]. exists (c :: a).
          split; [discriminate |]. split; [exact Ha | reflexivity].
        * pose proof (@len_truncate_string (c :: a) 9 ltac:(lia)) as H9.
          cbn [str_of_assignee].
          rewrite !len_app. change (len (lit ",")) with 1%Z. lia.
      + apply settles_ret. exists st, name, [].
        split; [rewrite app_nil_r; reflexivity |].
        split; [exact Hst |]. split; [exact Hname |]. split; [left; reflexivity |].
        rewrite !len_app. change (len (lit ",")) with 1%Z.
        destruct extended; lia. }
  destruct Hsettles as [r [evs [Hr HP]]].
  destruct (Hr s Hs) as [s1 [E1 _]]. rewrite E1 in E. inversion E; subst r.
  apply HP. reflexivity.
Qed.

Lemma compose_dup_line_witness :
  exists out s' st,
    compose_dup example_assigned_record true init_state = (Ok out, s') /\
    returns (example_env None) example_assigned_record
      (status example_assigned_record) (Ok st) [] /\
    (len out <= len st + 27)%Z.
Proof.
  destruct (compose_dup example_assigned_record true init_state)
    as [[out | e] s'] eqn:E; [| vm_compute in E; discriminate E].
  destruct (@compose_dup_line (example_env None) example_assigned_record true
              init_state out s'
              (coherent_init (example_env None) example_assigned_record) E)
    as [st [name [more [_ [Hst [_ [_ Hlen]]]]]]].
  exists out, s', st. split; [reflexivity |]. split; [exact Hst | lia].
Defined.
